(** * Nerve: agent registry, task scheduler and task executor

    A shallow embedding of
      - server/core  (Registry, Scheduler),
      - server/api   (the registration and heartbeat handlers),
      - agent/core   (TaskExecutor)
    of the nerve repository, and the properties of the agent liveness and
    task dispatch subsystem proved about it.

    Conventions.
      - Go pointers ([*AgentInfo], [*Task]) are locations into an object
        store; a map of pointers is a [gmap string loc].  Two keys may hold
        the same location, and a caller may keep a location it handed over.
      - A nil dereference (a run-time panic) is [None].
      - [time.Time] is an integer count of nanoseconds, [time.Duration] a
        signed 64-bit count of nanoseconds with Go's saturating [Sub].
      - [time.Now()] is an argument of the function that calls it.
      - Go iterates over a map in an unspecified order; the embedding iterates
        in the order of [map_to_list], and no theorem depends on it. *)

From Stdlib Require Import ZArith Lia.
From stdpp Require Import gmap strings pretty list fin_maps.

Local Open Scope Z_scope.

(** ** Object store *)

Abbreviation loc := nat (only parsing).

Module Store.
(** [new(T)] / [&T{...}]: a location not in use so far. *)
Definition alloc {T} (v : T) (m : gmap nat T) : nat * gmap nat T :=
  let p := fresh (dom m) in (p, <[p := v]> m).
End Store.

(** ** package time *)

Module time.
Definition Nanosecond : Z := 1.
Definition Second : Z := 1000000000 * Nanosecond.
Definition Minute : Z := 60 * Second.

Definition minDuration : Z := - 2 ^ 63.
Definition maxDuration : Z := 2 ^ 63 - 1.

(** [t.Sub(u)]: the duration t-u, clamped to the range of int64. *)
Definition Sub (t u : Z) : Z :=
  let d := t - u in
  if d <? minDuration then minDuration
  else if maxDuration <? d then maxDuration
  else d.
End time.

(** ** package log: the lines handed to the underlying printer *)

Module log.
Definition Infof (msg : string) (out : list string) : list string :=
  out ++ ["[INFO] " +:+ msg].
Definition Errorf (msg : string) (out : list string) : list string :=
  out ++ ["[ERROR] " +:+ msg].
End log.

(** ** server/core: data *)

Module AgentInfo.
(** The fields the server reads or writes one by one are kept apart; the
    remaining hardware descriptors (Memsum, SN, Product, Brand, Netcard,
    Basearch, Disk, Raid, the IP fields, OS, the GPU fields and the *Info
    lists) are only ever copied as a whole and are carried in [Hardware]. *)
Record t := mk {
  ID : string;
  Hostname : string;
  CPUType : string;
  CPULogic : Z;
  Memory : string;
  Hardware : list (string * string);
  Status : string;
  UpdateTime : string;
  AgentVersion : string;
  RegisteredAt : Z;
  LastSeen : Z
}.

Definition set_ID (v : string) (a : t) : t :=
  mk v (Hostname a) (CPUType a) (CPULogic a) (Memory a) (Hardware a)
     (Status a) (UpdateTime a) (AgentVersion a) (RegisteredAt a) (LastSeen a).
Definition set_Hostname (v : string) (a : t) : t :=
  mk (ID a) v (CPUType a) (CPULogic a) (Memory a) (Hardware a)
     (Status a) (UpdateTime a) (AgentVersion a) (RegisteredAt a) (LastSeen a).
Definition set_CPUType (v : string) (a : t) : t :=
  mk (ID a) (Hostname a) v (CPULogic a) (Memory a) (Hardware a)
     (Status a) (UpdateTime a) (AgentVersion a) (RegisteredAt a) (LastSeen a).
Definition set_CPULogic (v : Z) (a : t) : t :=
  mk (ID a) (Hostname a) (CPUType a) v (Memory a) (Hardware a)
     (Status a) (UpdateTime a) (AgentVersion a) (RegisteredAt a) (LastSeen a).
Definition set_Memory (v : string) (a : t) : t :=
  mk (ID a) (Hostname a) (CPUType a) (CPULogic a) v (Hardware a)
     (Status a) (UpdateTime a) (AgentVersion a) (RegisteredAt a) (LastSeen a).
Definition set_Status (v : string) (a : t) : t :=
  mk (ID a) (Hostname a) (CPUType a) (CPULogic a) (Memory a) (Hardware a)
     v (UpdateTime a) (AgentVersion a) (RegisteredAt a) (LastSeen a).
Definition set_RegisteredAt (v : Z) (a : t) : t :=
  mk (ID a) (Hostname a) (CPUType a) (CPULogic a) (Memory a) (Hardware a)
     (Status a) (UpdateTime a) (AgentVersion a) v (LastSeen a).
Definition set_LastSeen (v : Z) (a : t) : t :=
  mk (ID a) (Hostname a) (CPUType a) (CPULogic a) (Memory a) (Hardware a)
     (Status a) (UpdateTime a) (AgentVersion a) (RegisteredAt a) v.
End AgentInfo.

Module Task.
(** [Params] (a JSON object) is opaque to the scheduler. *)
Record t := mk {
  ID : string;
  AgentID : string;
  Type_ : string;
  Command : string;
  Script : string;
  Plugin : string;
  Params : list (string * string);
  Timeout : Z;
  Status : string
}.

Definition set_Status (v : string) (k : t) : t :=
  mk (ID k) (AgentID k) (Type_ k) (Command k) (Script k) (Plugin k)
     (Params k) (Timeout k) v.
End Task.

(** ** server/core: Registry *)

Module Registry.
Record t := mk {
  objs : gmap nat AgentInfo.t;   (* the AgentInfo objects in memory *)
  agents : gmap string nat;      (* r.agents : map[string]*AgentInfo *)
  logger : list string           (* what r.logger has printed *)
}.

(** [NewRegistry]; the goroutine it starts is [cleanupStaleAgents] below. *)
Definition NewRegistry : t := mk ∅ ∅ [].

(** [func (r *Registry) Register(agent *AgentInfo) string] *)
Definition Register (agent : loc) (r : t) : option (string * t) :=
  match objs r !! agent with
  | None => None
  | Some a =>
      let id := AgentInfo.Hostname a in
      Some (id,
            mk (<[agent := AgentInfo.set_ID id a]> (objs r))
               (<[id := agent]> (agents r))
               (log.Infof ("Registered agent: " +:+ id) (logger r)))
  end.

(** [func (r *Registry) Update(id string, agent *AgentInfo)]:
    [*existing = *agent; existing.ID = id] when the key is present. *)
Definition Update (id : string) (agent : loc) (r : t) : option t :=
  match agents r !! id with
  | None => Some r
  | Some existing =>
      match objs r !! existing, objs r !! agent with
      | Some _, Some a =>
          Some (mk (<[existing := AgentInfo.set_ID id a]> (objs r))
                   (agents r) (logger r))
      | _, _ => None
      end
  end.

(** [func (r *Registry) Get(id string) *AgentInfo]; [None] is nil. *)
Definition Get (id : string) (r : t) : option loc := agents r !! id.

(** [func (r *Registry) List() []*AgentInfo] *)
Definition List (r : t) : list loc := (map_to_list (agents r)).*2.

(** The object a key of the registry stands for. *)
Definition at_key (r : t) (id : string) : option AgentInfo.t :=
  match agents r !! id with
  | Some p => objs r !! p
  | None => None
  end.

(** Every pointer held by the map is a live object (Go never stores nil
    here: [Register] dereferences its argument first). *)
Definition wf (r : t) : Prop :=
  map_Forall (λ _ p, is_Some (objs r !! p)) (agents r).

#[global] Instance wf_dec (r : t) : Decision (wf r).
Proof. unfold wf. apply _. Defined.

(** *** The background sweep *)

Definition offlineThreshold : Z := 5 * time.Minute.

(** What the sweep at [now] makes of one agent. *)
Definition stale_fix (now : Z) (a : AgentInfo.t) : AgentInfo.t :=
  if offlineThreshold <? time.Sub now (AgentInfo.LastSeen a)
  then AgentInfo.set_Status "offline" a else a.

(** The body of the loop over [r.agents] in [cleanupStaleAgents]. *)
Definition sweep_agent (now : Z) (idp : string * loc)
    (st : option (gmap nat AgentInfo.t * list string))
    : option (gmap nat AgentInfo.t * list string) :=
  match st with
  | None => None
  | Some (os, out) =>
      match os !! idp.2 with
      | None => None
      | Some a =>
          if offlineThreshold <? time.Sub now (AgentInfo.LastSeen a)
          then Some (<[idp.2 := AgentInfo.set_Status "offline" a]> os,
                     log.Infof ("Agent marked as offline: " +:+ idp.1) out)
          else Some (os, out)
      end
  end.

Fixpoint sweep_loop (now : Z) (l : list (string * loc))
    (st : option (gmap nat AgentInfo.t * list string))
    : option (gmap nat AgentInfo.t * list string) :=
  match l with
  | [] => st
  | idp :: rest => sweep_loop now rest (sweep_agent now idp st)
  end.

(** One iteration of [for range ticker.C], [now] being the clock read
    under the lock. *)
Definition sweep (now : Z) (r : t) : option t :=
  match sweep_loop now (map_to_list (agents r)) (Some (objs r, logger r)) with
  | None => None
  | Some (os, out) => Some (mk os (agents r) out)
  end.


(** [time.NewTicker(d)] created at [start]: the instants of its first [n]
    ticks. *)
Definition ticker (d start : Z) (n : nat) : list Z :=
  (λ k : nat, start + Z.of_nat (S k) * d) <$> seq 0 n.

(** The instants at which the iterations of a loop [for range ticker.C]
    read the clock: iteration [k] is woken by a tick that is not earlier
    than the tick [k] of the ticker, and reads the clock [lags !! k] after
    that tick's instant. *)
Definition readings (d start : Z) (lags : list Z) : list Z :=
  zip_with Z.add (ticker d start (length lags)) lags.

End Registry.

(** ** server/core: Scheduler *)

Module Scheduler.
Record t := mk {
  registry : Registry.t;         (* the registry the scheduler was built with *)
  objs : gmap nat Task.t;        (* the Task objects in memory *)
  tasks : gmap string nat;       (* s.tasks : map[string]*Task *)
  logger : list string
}.

Definition NewScheduler (registry : Registry.t) : t := mk registry ∅ ∅ [].

(** [func (s *Scheduler) SubmitTask(task *Task)] *)
Definition SubmitTask (task : loc) (s : t) : option t :=
  match objs s !! task with
  | None => None
  | Some k =>
      Some (mk (registry s)
               (<[task := Task.set_Status "pending" k]> (objs s))
               (<[Task.ID k := task]> (tasks s))
               (log.Infof ("Task submitted: ID=" +:+ Task.ID k +:+
                           ", AgentID=" +:+ Task.AgentID k +:+
                           ", Type=" +:+ Task.Type_ k) (logger s)))
  end.

(** The loop of [GetPendingTasks] and [GetTasksByStatus]: the pointers, in
    iteration order, whose object satisfies [keep]. *)
Fixpoint select (keep : Task.t → bool) (os : gmap nat Task.t)
    (l : list (string * loc)) : option (list loc) :=
  match l with
  | [] => Some []
  | idp :: rest =>
      match os !! idp.2, select keep os rest with
      | Some k, Some acc => Some (if keep k then idp.2 :: acc else acc)
      | _, _ => None
      end
  end.

(** [func (s *Scheduler) GetPendingTasks(agentID string) []*Task] *)
Definition GetPendingTasks (agentID : string) (s : t) : option (list loc * t) :=
  match select (λ k, bool_decide (Task.AgentID k = agentID) &&
                     bool_decide (Task.Status k = "pending"))
               (objs s) (map_to_list (tasks s)) with
  | None => None
  | Some l => Some (l, s)
  end.

(** [func (s *Scheduler) MarkTaskDone(taskID string, success bool,
    output string, errMsg string)] *)
Definition MarkTaskDone (taskID : string) (success : bool)
    (output errMsg : string) (s : t) : option t :=
  match tasks s !! taskID with
  | None => Some s
  | Some task =>
      match objs s !! task with
      | None => None
      | Some k =>
          Some (mk (registry s)
                   (<[task := Task.set_Status "completed" k]> (objs s))
                   (tasks s)
                   (if success
                    then log.Infof ("Task completed: " +:+ taskID) (logger s)
                    else log.Errorf ("Task failed: " +:+ taskID +:+ " - " +:+ errMsg)
                                    (logger s)))
      end
  end.

(** [func (s *Scheduler) GetTasksByStatus(status string) []*Task] *)
Definition GetTasksByStatus (status : string) (s : t) : option (list loc * t) :=
  match select (λ k, bool_decide (Task.Status k = status))
               (objs s) (map_to_list (tasks s)) with
  | None => None
  | Some l => Some (l, s)
  end.

(** [ScheduleHook]; [id] is the value of [generateTaskID()], the current
    second formatted as yyyymmddHHMMSS. *)
Definition ScheduleHook (id agentID plugin : string)
    (params : list (string * string)) (s : t) : option t :=
  let '(p, os) :=
    Store.alloc (Task.mk id agentID "hook" "" "" plugin params 0 "pending") (objs s) in
  SubmitTask p (mk (registry s) os (tasks s) (logger s)).

(** [ScheduleCommand] *)
Definition ScheduleCommand (id agentID command : string) (timeout : Z)
    (s : t) : option t :=
  let '(p, os) :=
    Store.alloc (Task.mk id agentID "command" command "" "" [] timeout "pending") (objs s) in
  SubmitTask p (mk (registry s) os (tasks s) (logger s)).

(** The object a key of the task table stands for. *)
Definition at_key (s : t) (id : string) : option Task.t :=
  match tasks s !! id with
  | Some p => objs s !! p
  | None => None
  end.

(** Every pointer held by the table is a live object. *)
Definition wf (s : t) : Prop :=
  map_Forall (λ _ p, is_Some (objs s !! p)) (tasks s).

#[global] Instance wf_dec (s : t) : Decision (wf s).
Proof. unfold wf. apply _. Defined.

(** Every stored task is "pending" or "completed". *)
Definition two_states (s : t) : Prop :=
  ∀ id p, tasks s !! id = Some p →
    ∃ k, objs s !! p = Some k ∧ (Task.Status k = "pending" ∨ Task.Status k = "completed").
End Scheduler.


(** ** server/api: the handlers that feed the registry *)

Module api.

(** A decoded JSON value, as far as the handlers inspect it: a string, a
    number (Go decodes it as float64; the handlers only convert it with
    [int(...)], which is the integer carried here), or anything else. *)
Inductive JSON :=
| JString (s : string)
| JNumber (n : Z)
| JOther.

Inductive Response :=
| BadRequest                      (* 400 *)
| Unauthorized                    (* 401 *)
| Registered (id : string)        (* 200, "status": "registered" *)
| HeartbeatOK (agent_id : string) (* 200, "status": "ok" *).

(** The request body of [APIRouter.registerAgent]. *)
Record RegisterBody := mkRegisterBody {
  rb_Hostname : string;
  rb_CPUType : string;
  rb_CPULogic : Z;
  rb_Memory : string;
  rb_Hardware : list (string * string);
  rb_AgentVersion : string
}.

(** The request body of [APIRouter.agentHeartbeat]. *)
Record HeartbeatData := mkHeartbeatData {
  hb_Status : string;
  hb_SystemInfo : option (gmap string JSON);
  hb_Tasks : list string
}.

End api.

Module APIRouter.
Import api.

(** Of the router's fields only [registry] (which may be nil) is used by the
    two handlers below. *)
Record t := mk { registry : option Registry.t }.

(** The literal [&core.AgentInfo{ID: agentID, Hostname: ..., Status: "online",
    ..., UpdateTime: ..., RegisteredAt: time.Now(), LastSeen: time.Now()}]. *)
Definition new_info (b : RegisterBody) (agentID upd : string) (tReg tSeen : Z)
    : AgentInfo.t :=
  AgentInfo.mk agentID (rb_Hostname b) (rb_CPUType b) (rb_CPULogic b)
    (rb_Memory b) (rb_Hardware b) "online" upd (rb_AgentVersion b) tReg tSeen.

(** [func (r *APIRouter) registerAgent(c *gin.Context)].
    [body] is [None] when the JSON does not decode; [auth] is the
    Authorization header and [token] the query parameter; [rnd] is
    [generateRandomID(8)]; [upd], [tReg], [tSeen] are the three readings of
    the clock, the first one formatted. *)
Definition registerAgent (body : option RegisterBody) (auth token : string)
    (rnd upd : string) (tReg tSeen : Z) (r : t) : option (Response * t) :=
  match body with
  | None => Some (BadRequest, r)
  | Some b =>
      if bool_decide (rb_Hostname b = "") then Some (BadRequest, r)
      else if bool_decide (auth = "") && bool_decide (token = "")
      then Some (Unauthorized, r)
      else
        match registry r with
        | Some reg =>
            let agentID := rb_Hostname b +:+ "-" +:+ rnd in
            let '(info, os) :=
              Store.alloc (new_info b agentID upd tReg tSeen) (Registry.objs reg) in
            match Registry.Register info
                    (Registry.mk os (Registry.agents reg) (Registry.logger reg)) with
            | None => None
            | Some (id, reg') => Some (Registered id, mk (Some reg'))
            end
        | None => Some (Registered (rb_Hostname b +:+ "-" +:+ rnd), r)
        end
  end.

(** The search by hostname of the token-based heartbeat:
    [for _, a := range agents { if a.Hostname == hostname { ...; break } }]. *)
Fixpoint find_hostname (hostname : string) (os : gmap nat AgentInfo.t)
    (l : list loc) : option (option loc * string) :=
  match l with
  | [] => Some (None, "")
  | p :: rest =>
      match os !! p with
      | None => None
      | Some a =>
          if bool_decide (AgentInfo.Hostname a = hostname)
          then Some (Some p, AgentInfo.ID a)
          else find_hostname hostname os rest
      end
  end.

(** The four type-asserted reads of [system_info]. *)
Definition apply_system_info (si : gmap string JSON) (a : AgentInfo.t) : AgentInfo.t :=
  let a1 := match si !! "hostname" with
            | Some (JString h) => AgentInfo.set_Hostname h a | _ => a end in
  let a2 := match si !! "cpu_type" with
            | Some (JString c) => AgentInfo.set_CPUType c a1 | _ => a1 end in
  let a3 := match si !! "cpu_logic" with
            | Some (JNumber n) => AgentInfo.set_CPULogic n a2 | _ => a2 end in
  match si !! "memory" with
  | Some (JString m) => AgentInfo.set_Memory m a3 | _ => a3 end.

(** The writes through the pointer [agent] that precede the call of
    [Update]. *)
Definition touch (hb : HeartbeatData) (now : Z) (a : AgentInfo.t) : AgentInfo.t :=
  let a1 := AgentInfo.set_LastSeen now a in
  let a2 := AgentInfo.set_Status
              (if bool_decide (hb_Status hb = "") then "online" else hb_Status hb) a1 in
  match hb_SystemInfo hb with
  | Some si => apply_system_info si a2
  | None => a2
  end.

(** [func (r *APIRouter) agentHeartbeat(c *gin.Context)]; [agentID] is the
    path parameter, [now] the reading of the clock. *)
Definition agentHeartbeat (agentID : string) (body : option HeartbeatData)
    (now : Z) (r : t) : option (Response * t) :=
  match body with
  | None => Some (BadRequest, r)
  | Some hb =>
      match registry r with
      | None => Some (HeartbeatOK agentID, r)
      | Some reg =>
          let found :=
            if bool_decide (agentID = "") then
              match hb_SystemInfo hb with
              | Some si =>
                  match si !! "hostname" with
                  | Some (JString hostname) =>
                      if bool_decide (hostname = "") then Some (None, agentID)
                      else find_hostname hostname (Registry.objs reg) (Registry.List reg)
                  | _ => Some (None, agentID)
                  end
              | None => Some (None, agentID)
              end
            else Some (Registry.Get agentID reg, agentID) in
          match found with
          | None => None
          | Some (None, agentID') => Some (HeartbeatOK agentID', r)
          | Some (Some agent, agentID') =>
              match Registry.objs reg !! agent with
              | None => None
              | Some a =>
                  let reg1 := Registry.mk (<[agent := touch hb now a]> (Registry.objs reg))
                                          (Registry.agents reg) (Registry.logger reg) in
                  match Registry.Update agentID' agent reg1 with
                  | None => None
                  | Some reg2 => Some (HeartbeatOK agentID', mk (Some reg2))
                  end
              end
          end
      end
  end.

End APIRouter.

Module Handler.
Import api.

Record t := mk {
  registry : Registry.t;
  debug : bool;             (* the logger's debug switch *)
  logger : list string
}.

(** [func (h *Handler) RegisterAgent(c *gin.Context)]; the body binds to a
    whole [core.AgentInfo]. *)
Definition RegisterAgent (body : option AgentInfo.t) (auth : string)
    (tReg tSeen : Z) (h : t) : option (Response * t) :=
  match body with
  | None => Some (BadRequest, h)
  | Some a =>
      let agent := AgentInfo.set_Status "online"
                     (AgentInfo.set_LastSeen tSeen (AgentInfo.set_RegisteredAt tReg a)) in
      if negb (String.prefix "Bearer " auth) then Some (Unauthorized, h)
      else
        let reg := registry h in
        let '(p, os) := Store.alloc agent (Registry.objs reg) in
        match Registry.Register p
                (Registry.mk os (Registry.agents reg) (Registry.logger reg)) with
        | None => None
        | Some (id, reg') =>
            Some (Registered id,
                  mk reg' (debug h)
                     (log.Infof ("Agent registered: ID=" +:+ id +:+ ", Hostname=" +:+
                                 AgentInfo.Hostname agent) (logger h)))
        end
  end.

(** [Heartbeat], first half: decode the body into the local [agentInfo] and
    stamp it; no lock is held. *)
Definition Heartbeat_stamp (body : option AgentInfo.t) (now : Z) : option AgentInfo.t :=
  match body with
  | None => None
  | Some a => Some (AgentInfo.set_Status "online" (AgentInfo.set_LastSeen now a))
  end.

(** [Heartbeat], second half: [h.registry.Update(agentInfo.Hostname,
    &agentInfo)], which takes the registry lock, and the reply. *)
Definition Heartbeat_commit (agentInfo : AgentInfo.t) (h : t) : option (Response * t) :=
  let reg := registry h in
  let '(p, os) := Store.alloc agentInfo (Registry.objs reg) in
  match Registry.Update (AgentInfo.Hostname agentInfo) p
          (Registry.mk os (Registry.agents reg) (Registry.logger reg)) with
  | None => None
  | Some reg' =>
      Some (HeartbeatOK "",
            mk reg' (debug h)
               (if debug h
                then logger h ++ ["[DEBUG] Heartbeat from: " +:+ AgentInfo.Hostname agentInfo]
                else logger h))
  end.

(** [func (h *Handler) Heartbeat(c *gin.Context)] *)
Definition Heartbeat (body : option AgentInfo.t) (now : Z) (h : t)
    : option (Response * t) :=
  match Heartbeat_stamp body now with
  | None => Some (BadRequest, h)
  | Some agentInfo => Heartbeat_commit agentInfo h
  end.

End Handler.


(** ** agent/core: TaskExecutor *)

(** *** What the executor sees of os/exec, context and the file system

    These belong to the Go standard library, not to the repository; they are
    written down from its documentation (go 1.21, the version of go.mod). *)

Module exec.

Inductive error :=
| DeadlineExceeded              (* the value context.DeadlineExceeded *)
| ExitError (state : string)    (* *exec.ExitError; Error() prints the process state *)
| OtherError (msg : string).    (* *exec.Error, *fs.PathError, ... *)

(** [err.Error()] *)
Definition Error (e : error) : string :=
  match e with
  | DeadlineExceeded => "context deadline exceeded"
  | ExitError state => state
  | OtherError msg => msg
  end.

Record Cmd := mkCmd { Path : string; Args : list string }.

(** A file: permission bits and contents. *)
Record File := mkFile { mode : Z; content : string }.

Definition perm_0600 : Z := 6 * 64 + 0 * 8 + 0.
Definition perm_0755 : Z := 7 * 64 + 5 * 8 + 5.

(** The two ways in which a program is not started. *)
Inductive start_failure :=
| LookPath (msg : string)       (* the program is not found: CommandContext records
                                   the error and Start returns it first *)
| StartProcess (msg : string).  (* the fork or exec fails, after Start has found
                                   the context live *)

(** What running a command line does on the machine.  Times are in
    nanoseconds and count from the creation of the context; a process is
    started after Start has looked at the context and takes time to
    complete, so [reached] cannot be negative and [runs] is positive. *)
Record Process := mkProcess {
  start_error : option start_failure;
  reached : N;                    (* when Start looks at the context *)
  runs : positive;                (* from there to completion, if nothing stops it *)
  code : Z;                       (* exit status on completion *)
  output : string;                (* stdout and stderr collected on completion *)
  effect : gmap string File → gmap string File;   (* what it has done to files
                                                     on completion *)
  killed_output : Z → string;     (* what has been collected when the process is
                                     killed at the deadline d and Wait returns *)
  killed_effect : Z → gmap string File → gmap string File
                                  (* what it has done to files by then *)
}.

(** When the process completes, if nothing stops it. *)
Definition needs (p : Process) : Z := Z.of_N (reached p) + Z.pos (runs p).

(** What becomes of a command made by [CommandContext] with a context of
    timeout [t] when it is run. *)
Inductive fate :=
| Refused (err : error)   (* Start returns [err]: nothing has run *)
| Completed               (* the process ran to its end *)
| Killed.                 (* the process was killed at the deadline *)

(** [Start] returns the look-up error first, then the error of a context
    that is already done (its deadline has passed when Start looks at it),
    then the error of starting the process.  A process that is started and
    is still running at the deadline is killed; one that completes at the
    very instant of the deadline counts as completed. *)
Definition fate_of (t : Z) (p : Process) : fate :=
  match start_error p with
  | Some (LookPath msg) => Refused (OtherError msg)
  | Some (StartProcess msg) =>
      if t <=? Z.of_N (reached p) then Refused DeadlineExceeded
      else Refused (OtherError msg)
  | None =>
      if t <=? Z.of_N (reached p) then Refused DeadlineExceeded
      else if needs p <=? t then Completed
      else Killed
  end.

(** The state of a process killed by [Process.Kill], as [Wait] prints it:
    TerminateProcess with exit code 1 on windows, SIGKILL elsewhere. *)
Definition killed_state (goos : string) : string :=
  if bool_decide (goos = "windows") then "exit status 1" else "signal: killed".

(** [cmd.CombinedOutput()].  A command that is refused returns the error of
    Start and an empty buffer; a process that completes reports a non-zero
    status as an [*ExitError]; for a process killed at the deadline Wait
    reports its state as an [*ExitError] too (the error of the context is
    returned only for a process whose own state is a success), with what
    the buffer holds by then. *)
Definition CombinedOutput (goos : string) (t : Z) (p : Process) : string * option error :=
  match fate_of t p with
  | Refused err => ("", Some err)
  | Completed =>
      (output p,
       if code p =? 0 then None
       else Some (ExitError ("exit status " +:+ pretty (code p))))
  | Killed => (killed_output p t, Some (ExitError (killed_state goos)))
  end.

(** The files when [CombinedOutput] returns. *)
Definition leaves (t : Z) (p : Process) (fs : gmap string File) : gmap string File :=
  match fate_of t p with
  | Refused _ => fs
  | Completed => effect p fs
  | Killed => killed_effect p t fs
  end.

End exec.

Module os.
Import exec.

(** The machine as [ExecuteScript] meets it. *)
Record Env := mkEnv {
  GOOS : string;
  TempDir : string;
  rands : list string;              (* the random strings CreateTemp draws, in order *)
  create_error : option string;     (* the temporary directory refuses the file *)
  write_error : option string;      (* WriteString fails *)
  chmod_error : option string;      (* Chmod fails *)
  remove_error : option string;     (* Remove fails: the name cannot be unlinked *)
  DurationString : Z → string;      (* time.Duration.String, the verb %v *)
  run : Cmd → gmap string File → Process   (* what a command line does *)
}.

(** The attempts of [os.CreateTemp(dir, "prefix*suffix")]: the first name
    that does not exist is created (O_EXCL) with mode 0600. *)
Fixpoint CreateTemp_try (dir prefix suffix : string) (rs : list string)
    (fs : gmap string File) : string + (string * gmap string File) :=
  match rs with
  | [] => inl "too many attempts"
  | r :: rest =>
      let name := dir +:+ "/" +:+ prefix +:+ r +:+ suffix in
      match fs !! name with
      | Some _ => CreateTemp_try dir prefix suffix rest fs
      | None => inr (name, <[name := mkFile perm_0600 ""]> fs)
      end
  end.

Definition CreateTemp (env : Env) (prefix suffix : string)
    (fs : gmap string File) : string + (string * gmap string File) :=
  match create_error env with
  | Some msg => inl msg
  | None => CreateTemp_try (TempDir env) prefix suffix (rands env) fs
  end.

(** [os.Remove(name)]: the error, and the files afterwards.  When the
    unlink is refused the files stay as they are; otherwise the name is gone
    (for a name that does not exist the call returns an error of its own
    and there is nothing to remove, which leaves the same files). *)
Definition Remove (env : Env) (name : string) (fs : gmap string File)
    : option string * gmap string File :=
  match remove_error env with
  | Some msg => (Some msg, fs)
  | None =>
      (match fs !! name with
       | Some _ => None
       | None => Some ("remove " +:+ name +:+ ": no such file or directory")
       end,
       delete name fs)
  end.

End os.

Module TaskResult.
Record t := mk {
  TaskID : string;
  Success : bool;
  Output : string;
  Error : string
}.
End TaskResult.

Module TaskExecutor.
Import exec os.

Record t := mk { defaultTimeout : Z }.

Definition NewTaskExecutor (defaultTimeout : Z) : t := mk defaultTimeout.

(** int64 multiplication wraps around. *)
Definition wrap64 (z : Z) : Z := (z + 2 ^ 63) `mod` 2 ^ 64 - 2 ^ 63.

(** "Determine timeout" *)
Definition timeout_of (e : t) (timeout : Z) : Z :=
  if 0 <? timeout then wrap64 (timeout * time.Second) else defaultTimeout e.

(** The part shared by the two functions after [cmd.CombinedOutput()]. *)
Definition finish (what : string) (env : Env) (t : Z)
    (res : string * option error) : TaskResult.t * option error :=
  match res.2 with
  | None => (TaskResult.mk "" true res.1 "", None)
  | Some err =>
      (TaskResult.mk "" false res.1
         (match err with
          | DeadlineExceeded => what +:+ " timeout after " +:+ DurationString env t
          | _ => exec.Error err
          end),
       Some err)
  end.

(** [func (e *TaskExecutor) ExecuteCommand(command string, timeout int)
    (TaskResult, error)] *)
Definition ExecuteCommand (e : t) (command : string) (timeout : Z)
    (env : Env) (fs : gmap string File) : TaskResult.t * option error :=
  let t := timeout_of e timeout in
  let cmd := if bool_decide (GOOS env = "windows")
             then mkCmd "cmd" ["/c"; command]
             else mkCmd "sh" ["-c"; command] in
  finish "command" env t (CombinedOutput (GOOS env) t (run env cmd fs)).

(** [func (e *TaskExecutor) ExecuteScript(script string, timeout int)
    (TaskResult, error)]; the third component is the file system when the
    call returns, the deferred [os.Remove] having run (its error is
    dropped). *)
Definition ExecuteScript (e : t) (script : string) (timeout : Z)
    (env : Env) (fs : gmap string File)
    : TaskResult.t * option error * gmap string File :=
  let t := timeout_of e timeout in
  match CreateTemp env "nerve-script-" ".sh" fs with
  | inl msg =>
      (TaskResult.mk "" false "" msg, Some (OtherError msg), fs)
  | inr (name, fs1) =>
      match write_error env with
      | Some msg =>
          (TaskResult.mk "" false "" msg, Some (OtherError msg), (Remove env name fs1).2)
      | None =>
          let fs2 := <[name := mkFile perm_0600 script]> fs1 in
          match chmod_error env with
          | Some msg =>
              (TaskResult.mk "" false "" msg, Some (OtherError msg),
               (Remove env name fs2).2)
          | None =>
              let fs3 := <[name := mkFile perm_0755 script]> fs2 in
              let p := run env (mkCmd "/bin/bash" [name]) fs3 in
              let '(result, err) :=
                finish "script" env t (CombinedOutput (GOOS env) t p) in
              (result, err, (Remove env name (leaves t p fs3)).2)
          end
      end
  end.

(** Does an error message speak of a timeout? *)
Definition indicates_timeout (msg : string) : bool :=
  bool_decide (is_Some (String.index 0 "timeout" msg)).

End TaskExecutor.


(** ** Sequences of calls *)

(** Calls made on a scheduler, one after another. *)
Module Calls.

Inductive call :=
| New (k : Task.t)                 (* a caller builds a Task object, [&Task{...}] *)
| SubmitTask (task : loc)
| GetPendingTasks (agentID : string)
| MarkTaskDone (taskID : string) (success : bool) (output errMsg : string)
| GetTasksByStatus (status : string)
| ScheduleHook (id agentID plugin : string) (params : list (string * string))
| ScheduleCommand (id agentID command : string) (timeout : Z).

Definition step (c : call) (s : Scheduler.t) : option Scheduler.t :=
  match c with
  | New k =>
      Some (Scheduler.mk (Scheduler.registry s) (Store.alloc k (Scheduler.objs s)).2
                         (Scheduler.tasks s) (Scheduler.logger s))
  | SubmitTask task => Scheduler.SubmitTask task s
  | GetPendingTasks agentID => snd <$> Scheduler.GetPendingTasks agentID s
  | MarkTaskDone taskID success output errMsg =>
      Scheduler.MarkTaskDone taskID success output errMsg s
  | GetTasksByStatus status => snd <$> Scheduler.GetTasksByStatus status s
  | ScheduleHook id agentID plugin params =>
      Scheduler.ScheduleHook id agentID plugin params s
  | ScheduleCommand id agentID command timeout =>
      Scheduler.ScheduleCommand id agentID command timeout s
  end.

Fixpoint run (cs : list call) (s : Scheduler.t) : option Scheduler.t :=
  match cs with
  | [] => Some s
  | c :: rest =>
      match step c s with
      | None => None
      | Some s' => run rest s'
      end
  end.

End Calls.

(** Requests served on one registry, one after another: each request is
    handled from its first clock reading to its last write before the next
    one starts. *)
Module Requests.

Inductive request :=
| RouterRegister (body : option api.RegisterBody) (auth token rnd upd : string)
                 (tReg tSeen : Z)
| RouterHeartbeat (agentID : string) (body : option api.HeartbeatData) (now : Z)
| HandlerRegister (body : option AgentInfo.t) (auth : string) (tReg tSeen : Z)
| HandlerHeartbeat (body : option AgentInfo.t) (now : Z)
| SweepTick (now : Z).

(** The clock readings a request takes, in order. *)
Definition readings (q : request) : list Z :=
  match q with
  | RouterRegister _ _ _ _ _ tReg tSeen => [tReg; tSeen]
  | RouterHeartbeat _ _ now => [now]
  | HandlerRegister _ _ tReg tSeen => [tReg; tSeen]
  | HandlerHeartbeat _ now => [now]
  | SweepTick now => [now]
  end.

Definition serve (q : request) (reg : Registry.t) : option Registry.t :=
  match q with
  | RouterRegister body auth token rnd upd tReg tSeen =>
      match APIRouter.registerAgent body auth token rnd upd tReg tSeen
              (APIRouter.mk (Some reg)) with
      | Some (_, APIRouter.mk (Some reg')) => Some reg'
      | _ => None
      end
  | RouterHeartbeat agentID body now =>
      match APIRouter.agentHeartbeat agentID body now (APIRouter.mk (Some reg)) with
      | Some (_, APIRouter.mk (Some reg')) => Some reg'
      | _ => None
      end
  | HandlerRegister body auth tReg tSeen =>
      match Handler.RegisterAgent body auth tReg tSeen (Handler.mk reg false []) with
      | Some (_, h) => Some (Handler.registry h)
      | None => None
      end
  | HandlerHeartbeat body now =>
      match Handler.Heartbeat body now (Handler.mk reg false []) with
      | Some (_, h) => Some (Handler.registry h)
      | None => None
      end
  | SweepTick now => Registry.sweep now reg
  end.

Fixpoint run (qs : list request) (reg : Registry.t) : option Registry.t :=
  match qs with
  | [] => Some reg
  | q :: rest =>
      match serve q reg with
      | None => None
      | Some reg' => run rest reg'
      end
  end.

(** The clock never goes backwards: every reading is at least the one
    before, starting from [t]. *)
Fixpoint nondecreasing (t : Z) (l : list Z) : bool :=
  match l with
  | [] => true
  | x :: rest => (t <=? x) && nondecreasing x rest
  end.

(** The last reading of [l], or [t] when there is none. *)
Fixpoint final (t : Z) (l : list Z) : Z :=
  match l with
  | [] => t
  | x :: rest => final x rest
  end.

Definition clock_ok (t : Z) (qs : list request) : bool :=
  nondecreasing t (mjoin (readings <$> qs)).

(** Every pointer of the registry is a live object whose last-seen does not
    lie in the future of [t]. *)
Definition seen_before (t : Z) (os : gmap nat AgentInfo.t) (p : loc) : bool :=
  match os !! p with
  | Some a => AgentInfo.LastSeen a <=? t
  | None => false
  end.

Definition seen_by (t : Z) (reg : Registry.t) : Prop :=
  map_Forall (λ _ p, seen_before t (Registry.objs reg) p = true) (Registry.agents reg).

#[global] Instance seen_by_dec (t : Z) (reg : Registry.t) : Decision (seen_by t reg).
Proof. unfold seen_by. apply _. Defined.

(** From [reg] to [reg']: no key is lost, and what a key stands for either
    has last-seen [t] or the last-seen it had. *)
Definition advances (t : Z) (reg reg' : Registry.t) : Prop :=
  (∀ id, is_Some (Registry.agents reg !! id) → is_Some (Registry.agents reg' !! id)) ∧
  ∀ id p', Registry.agents reg' !! id = Some p' →
    ∃ a', Registry.objs reg' !! p' = Some a' ∧
          (AgentInfo.LastSeen a' = t ∨
           ∃ a, Registry.at_key reg id = Some a ∧
                AgentInfo.LastSeen a' = AgentInfo.LastSeen a).

End Requests.


(** ** Concrete states used in the examples *)

Module Demo.

(** A command task for agent "i1", as a caller builds it. *)
Definition task1 : Task.t := Task.mk "t1" "i1" "command" "echo hi" "" "" [] 30 "".

(** A scheduler over an empty registry; the object [task1] exists but has
    not been submitted. *)
Definition sched0 : Scheduler.t :=
  Scheduler.mk Registry.NewRegistry {[ 0%nat := task1 ]} ∅ [].

(** The same after [SubmitTask]. *)
Definition sched1 : Scheduler.t :=
  Scheduler.mk Registry.NewRegistry
    {[ 0%nat := Task.set_Status "pending" task1 ]} {[ "t1" := 0%nat ]}
    ["[INFO] Task submitted: ID=t1, AgentID=i1, Type=command"].

(** Two registered agents: "h1" last seen at 0, "h2" at 100 s. *)
Definition agent1 : AgentInfo.t :=
  AgentInfo.mk "h1" "h1" "x86" 8 "16G" [] "online" "" "1.0" 0 0.
Definition agent2 : AgentInfo.t :=
  AgentInfo.mk "h2" "h2" "arm" 4 "8G" [] "online" "" "1.0"
               (100 * time.Second) (100 * time.Second).
Definition reg2 : Registry.t :=
  Registry.mk {[ 0%nat := agent1; 1%nat := agent2 ]}
              {[ "h1" := 0%nat; "h2" := 1%nat ]} [].

(** A registration request body for host "h1". *)
Definition body1 : api.RegisterBody := api.mkRegisterBody "h1" "x86" 8 "16G" [] "1.0".
Definition body1' : api.RegisterBody := api.mkRegisterBody "h1" "x86" 16 "32G" [] "1.1".

(** A [Handler] over [reg2]. *)
Definition handler : Handler.t := Handler.mk reg2 false [].

(** A heartbeat for "h1" at 200 s, a sweep at 500 s, a registration of "h1"
    at 600 s and a heartbeat for "h2" through [Handler.Heartbeat] at 700 s. *)
Definition requests : list Requests.request :=
  [ Requests.RouterHeartbeat "h1" (Some (api.mkHeartbeatData "" None []))
      (200 * time.Second);
    Requests.SweepTick (500 * time.Second);
    Requests.RouterRegister (Some body1) "Bearer x" "" "aaaaaaaa" ""
      (600 * time.Second) (600 * time.Second);
    Requests.HandlerHeartbeat (Some agent2) (700 * time.Second) ].

(** A Linux machine on which every program is found and started 20
    microseconds after the context is made, "sleep 10" takes ten seconds
    and prints nothing, and every other command line takes a millisecond,
    prints "ok" and exits with status 0; no command touches a file. *)
Definition machine : os.Env :=
  os.mkEnv "linux" "/tmp" ["123"; "456"] None None None None
    (λ d, pretty (d / time.Second) +:+ "s")
    (λ cmd _,
       if bool_decide (exec.Args cmd = ["-c"; "sleep 10"])
       then exec.mkProcess None 20000 10000000000 0 "" (λ fs, fs) (λ _, "") (λ _ fs, fs)
       else exec.mkProcess None 20000 1000000 0 "ok" (λ fs, fs) (λ _, "") (λ _ fs, fs)).

(** The agent's executor with its default timeout of 30 s. *)
Definition executor : TaskExecutor.t := TaskExecutor.NewTaskExecutor (30 * time.Second).

End Demo.


(** ** server/core and server/api: further definitions *)

Module RegistryInv.

(** The shape the handlers keep: every pointer of the map is a live object,
    no object is held under two keys, and the ID of an object is the key it
    is held under. *)
Definition keyed (reg : Registry.t) : Prop :=
  (∀ id p, Registry.agents reg !! id = Some p →
     ∃ a, Registry.objs reg !! p = Some a ∧ AgentInfo.ID a = id) ∧
  (∀ id1 id2 p, Registry.agents reg !! id1 = Some p →
     Registry.agents reg !! id2 = Some p → id1 = id2).

End RegistryInv.

(** The other handlers of router.go that read the registry. *)
Module routes.

(** The agent summary in the reply of [getAgent]; the descriptor fields of
    the reply that live in [AgentInfo.Hardware] are left out. *)
Record AgentView := mkAgentView {
  v_id : string;
  v_hostname : string;
  v_status : string;
  v_cpu_type : string;
  v_cpu_logic : Z;
  v_memory : string;
  v_last_seen : Z;
  v_registered_at : Z
}.

Definition view (a : AgentInfo.t) : AgentView :=
  mkAgentView (AgentInfo.ID a) (AgentInfo.Hostname a) (AgentInfo.Status a)
    (AgentInfo.CPUType a) (AgentInfo.CPULogic a) (AgentInfo.Memory a)
    (AgentInfo.LastSeen a) (AgentInfo.RegisteredAt a).

Inductive AgentReply :=
| AgentNotFound                (* 404, "agent not found" *)
| AgentFound (v : AgentView).  (* 200 *)

(** [func (r *APIRouter) getAgent(c *gin.Context)]; [None] is a panic. *)
Definition getAgent (agentID : string) (r : APIRouter.t) : option AgentReply :=
  match APIRouter.registry r with
  | None => Some AgentNotFound
  | Some reg =>
      match Registry.Get agentID reg with
      | None => Some AgentNotFound
      | Some agent =>
          match Registry.objs reg !! agent with
          | None => None
          | Some a => Some (AgentFound (view a))
          end
      end
  end.

(** The counters of [getSystemStats] that come from the registry. *)
Record AgentStats := mkAgentStats {
  total_agents : Z;
  online_agents : Z;
  offline_agents : Z
}.

(** The loop [for _, agent := range agents] of [getSystemStats], from the
    counters [(online, offline)]. *)
Fixpoint count_status (os : gmap nat AgentInfo.t) (l : list loc) (acc : Z * Z)
    : option (Z * Z) :=
  match l with
  | [] => Some acc
  | p :: rest =>
      match os !! p with
      | None => None
      | Some a =>
          if bool_decide (AgentInfo.Status a = "online")
          then count_status os rest (acc.1 + 1, acc.2)
          else count_status os rest (acc.1, acc.2 + 1)
      end
  end.

(** [func (r *APIRouter) getSystemStats(c *gin.Context)], registry part. *)
Definition getSystemStats (r : APIRouter.t) : option AgentStats :=
  match APIRouter.registry r with
  | None => Some (mkAgentStats 0 0 0)
  | Some reg =>
      let agents := Registry.List reg in
      match count_status (Registry.objs reg) agents (0, 0) with
      | None => None
      | Some (online, offline) =>
          Some (mkAgentStats (Z.of_nat (length agents)) online offline)
      end
  end.

(** [func contains(slice []string, item string) bool] *)
Fixpoint contains (slice : list string) (item : string) : bool :=
  match slice with
  | [] => false
  | s :: rest => if bool_decide (s = item) then true else contains rest item
  end.

Definition validStatuses : list string := ["online"; "offline"; "maintenance"; "error"].

Inductive StatusReply :=
| StatusBadRequest                      (* 400 *)
| StatusUpdated (agent_id new_status : string).   (* 200, "status": "updated" *)

(** [func (r *APIRouter) updateAgentStatus(c *gin.Context)]; [body] is the
    "status" field of the decoded body, [None] when the JSON does not
    decode.  The v-tag [binding:"required"] rejects the empty string. *)
Definition updateAgentStatus (agentID : string) (body : option string)
    (r : APIRouter.t) : StatusReply * APIRouter.t :=
  match body with
  | None => (StatusBadRequest, r)
  | Some status =>
      if bool_decide (status = "") then (StatusBadRequest, r)
      else if negb (contains validStatuses status) then (StatusBadRequest, r)
      else (StatusUpdated agentID status, r)
  end.

Definition charset : string :=
  "abcdefghijklmnopqrstuvwxyzABCDEFGHIJKLMNOPQRSTUVWXYZ0123456789".

(** The loop [for i := range b] of [generateRandomID] from index [i] on, for
    [n] more bytes; [now k] is the clock reading of iteration [k].  Go's [%]
    truncates towards zero, and an index out of range panics. *)
Fixpoint random_bytes (now : nat → Z) (i n : nat) : option string :=
  match n with
  | O => Some ""
  | S n' =>
      let k := Z.rem (now i) (Z.of_nat (String.length charset)) in
      if k <? 0 then None
      else
        match String.get (Z.to_nat k) charset, random_bytes now (S i) n' with
        | Some c, Some rest => Some (String c rest)
        | _, _ => None
        end
  end.

(** [func generateRandomID(length int) string]; [make] panics on a negative
    length. *)
Definition generateRandomID (length : Z) (now : nat → Z) : option string :=
  if length <? 0 then None else random_bytes now 0 (Z.to_nat length).

(** [func generateRandomToken(length int) string] *)
Definition generateRandomToken (length : Z) (now : nat → Z) : option string :=
  match generateRandomID length now with
  | Some b => Some ("nerve_" +:+ b)
  | None => None
  end.

End routes.

(** ** agent/core: plugins, hooks and the task dispatch of the agent *)

Module PluginManager.

(** A loaded plugin, as far as the executor uses it: its version and what
    [Execute(params)] does, namely the nanoseconds it takes and either an
    error text or the result map as the verb %+v prints it. *)
Record HookPlugin := mkHookPlugin {
  Version : string;
  Execute : list (string * string) → Z * (string + string)
}.

Record t := mk {
  plugins : gmap string HookPlugin;
  path : string
}.

Definition NewPluginManager (pluginPath : string) : t := mk ∅ pluginPath.

(** [func (pm *PluginManager) ExecutePlugin(name string, params
    map[string]interface{}) (map[string]interface{}, error)] *)
Definition ExecutePlugin (name : string) (params : list (string * string))
    (pm : t) : Z * (string + string) :=
  match plugins pm !! name with
  | None => (0, inl ("plugin " +:+ name +:+ " not found"))
  | Some plugin => Execute plugin params
  end.

End PluginManager.

Module Hook.
Import exec os TaskExecutor.

(** [func (e *TaskExecutor) ExecuteHook(pluginManager *PluginManager,
    pluginName string, params map[string]interface{}, timeout int)
    (TaskResult, error)].

    Instants are counted from the creation of the context: the context is
    done at [t], the goroutine closes [done] when the plugin has returned,
    and the [select] is reached at [reached]; a channel that is ready before
    the select is reached counts as ready when it is reached.  The select
    takes the channel that is ready first, and either one ([pick]) when both
    are ready at the same instant. *)
Definition ExecuteHook (e : TaskExecutor.t) (pluginManager : PluginManager.t)
    (pluginName : string) (params : list (string * string)) (timeout : Z)
    (env : Env) (reached : Z) (pick : bool) : TaskResult.t * option error :=
  let t := timeout_of e timeout in
  let '(took, outcome) := PluginManager.ExecutePlugin pluginName params pluginManager in
  let ctx_ready := Z.max t reached in
  let done_ready := Z.max took reached in
  let ctx_first :=
    if ctx_ready <? done_ready then true
    else if done_ready <? ctx_ready then false
    else pick in
  if ctx_first
  then (TaskResult.mk "" false "" ("plugin timeout after " +:+ DurationString env t),
        Some DeadlineExceeded)
  else
    match outcome with
    | inl msg => (TaskResult.mk "" false "" msg, Some (OtherError msg))
    | inr printed => (TaskResult.mk "" true printed "", None)
    end.

End Hook.

Module Agent.

(** The agent's own [Task] (agent/core/agent.go). *)
Record Task := mkTask {
  ID : string;
  Type_ : string;
  Command : string;
  Script : string;
  Plugin : string;
  Params : list (string * string);
  Timeout : Z
}.

(** [func (a *Agent) executeCommand(task Task) TaskResult] *)
Definition executeCommand (task : Task) : TaskResult.t :=
  TaskResult.mk (ID task) false "" "command execution not implemented".

(** [func (a *Agent) executeScript(task Task) TaskResult] *)
Definition executeScript (task : Task) : TaskResult.t :=
  TaskResult.mk (ID task) false "" "script execution not implemented".

(** [func (a *Agent) executeHook(task Task) TaskResult] *)
Definition executeHook (task : Task) : TaskResult.t :=
  TaskResult.mk (ID task) false "" "hook execution not implemented".

(** [func (a *Agent) executeTask(task Task)]: the result it hands to
    [reportTaskResult]. *)
Definition executeTask (task : Task) : TaskResult.t :=
  let result := TaskResult.mk (ID task) false "" "" in
  if bool_decide (Type_ task = "command") then executeCommand task
  else if bool_decide (Type_ task = "script") then executeScript task
  else if bool_decide (Type_ task = "hook") then executeHook task
  else TaskResult.mk (TaskResult.TaskID result) (TaskResult.Success result)
         (TaskResult.Output result) ("unknown task type: " +:+ Type_ task).

(** The request of [reportTaskResult]: the URL the result is posted to. *)
Definition report_url (serverURL : string) (result : TaskResult.t) : string :=
  serverURL +:+ "/api/tasks/" +:+ TaskResult.TaskID result +:+ "/result".

(** [setAuthHeaders]: the value it sets for the Authorization header of
    every request of the agent. *)
Definition authorization (token : string) : string := "Bearer " +:+ token.

(** *** A header value on its way to the server (net/http)

    Written down from the Go standard library, as [exec] above. *)

Definition isCTL (b : Ascii.ascii) : bool :=
  (Ascii.nat_of_ascii b <? 32)%nat || (Ascii.nat_of_ascii b =? 127)%nat.
Definition isLWS (b : Ascii.ascii) : bool :=
  Ascii.eqb b (Ascii.ascii_of_nat 32) || Ascii.eqb b (Ascii.ascii_of_nat 9).

(** [httpguts.ValidHeaderFieldValue]: no control character other than a
    tab. *)
Fixpoint ValidHeaderFieldValue (v : string) : bool :=
  match v with
  | EmptyString => true
  | String b rest => negb (isCTL b && negb (isLWS b)) && ValidHeaderFieldValue rest
  end.

Definition isASCIISpace (b : Ascii.ascii) : bool :=
  Ascii.eqb b (Ascii.ascii_of_nat 32) || Ascii.eqb b (Ascii.ascii_of_nat 9)
  || Ascii.eqb b (Ascii.ascii_of_nat 10) || Ascii.eqb b (Ascii.ascii_of_nat 13).

Fixpoint trim_left (s : string) : string :=
  match s with
  | EmptyString => EmptyString
  | String b rest => if isASCIISpace b then trim_left rest else s
  end.

Fixpoint trim_right (s : string) : string :=
  match s with
  | EmptyString => EmptyString
  | String b rest =>
      match trim_right rest with
      | EmptyString => if isASCIISpace b then EmptyString else String b EmptyString
      | r => String b r
      end
  end.

(** [textproto.TrimString]: the value without the spaces at its two ends. *)
Definition TrimString (s : string) : string := trim_right (trim_left s).

(** What [c.GetHeader] gives the handler for a value the client has set
    with [req.Header.Set]: the transport refuses to send a request with a
    value that is not valid ([None]: no request reaches the server), and
    writes a valid one trimmed. *)
Definition received (v : string) : option string :=
  if ValidHeaderFieldValue v then Some (TrimString v) else None.

End Agent.

(** ** Values of type interface{} *)

Module dyn.

#[local] Set Warnings "-register-all".

(** The dynamic values the managers meet.  Decoding JSON into an
    [interface{}] yields nil, bool, float64, string, [[]interface{}] and
    [map[string]interface{}]; a [[]string] only comes from Go code. *)
Inductive Value :=
| VNil
| VBool (b : bool)
| VNumber (bits : Z)                      (* a float64, by its IEEE 754 bits *)
| VString (s : string)
| VArray (l : list Value)                 (* []interface{} *)
| VObject (m : list (string * Value))     (* map[string]interface{} *)
| VStrings (l : list string).             (* []string *)

(** The values [encoding/json] can produce. *)
Fixpoint from_json (v : Value) : bool :=
  match v with
  | VStrings _ => false
  | VArray l => forallb from_json l
  | VObject m => forallb (λ kv, match kv with (_, x) => from_json x end) m
  | _ => true
  end.

End dyn.

(** ** server/pkg/cluster: ClusterManager

    A slice is modelled by its contents. *)

Module cluster.
Import dyn.

Record Cluster := mkCluster {
  ID : string;
  Name : string;
  Description : string;
  Config : list (string * Value);
  Agents : list string;
  CreatedAt : Z;
  UpdatedAt : Z
}.

Definition set_Name (v : string) (c : Cluster) : Cluster :=
  mkCluster (ID c) v (Description c) (Config c) (Agents c) (CreatedAt c) (UpdatedAt c).
Definition set_Description (v : string) (c : Cluster) : Cluster :=
  mkCluster (ID c) (Name c) v (Config c) (Agents c) (CreatedAt c) (UpdatedAt c).
Definition set_Config (v : list (string * Value)) (c : Cluster) : Cluster :=
  mkCluster (ID c) (Name c) (Description c) v (Agents c) (CreatedAt c) (UpdatedAt c).
Definition set_Agents (v : list string) (c : Cluster) : Cluster :=
  mkCluster (ID c) (Name c) (Description c) (Config c) v (CreatedAt c) (UpdatedAt c).
Definition set_CreatedAt (v : Z) (c : Cluster) : Cluster :=
  mkCluster (ID c) (Name c) (Description c) (Config c) (Agents c) v (UpdatedAt c).
Definition set_UpdatedAt (v : Z) (c : Cluster) : Cluster :=
  mkCluster (ID c) (Name c) (Description c) (Config c) (Agents c) (CreatedAt c) v.

Record t := mk {
  objs : gmap nat Cluster;       (* the Cluster objects in memory *)
  clusters : gmap string nat     (* cm.clusters : map[string]*Cluster *)
}.

Definition NewClusterManager : t := mk ∅ ∅.

(** Every pointer held by the map is a live object. *)
Definition wf (cm : t) : Prop :=
  map_Forall (λ _ p, is_Some (objs cm !! p)) (clusters cm).

#[global] Instance wf_dec (cm : t) : Decision (wf cm).
Proof. unfold wf. apply _. Defined.

(** The object a key stands for. *)
Definition at_key (cm : t) (id : string) : option Cluster :=
  match clusters cm !! id with
  | Some p => objs cm !! p
  | None => None
  end.

(** [func (cm *ClusterManager) AddCluster(cluster *Cluster) error]; the
    error is [Some] of its text, [None] for nil. *)
Definition AddCluster (cluster : loc) (tCreated tUpdated : Z) (cm : t)
    : option (option string * t) :=
  match objs cm !! cluster with
  | None => None
  | Some c =>
      match clusters cm !! ID c with
      | Some _ => Some (Some ("cluster " +:+ ID c +:+ " already exists"), cm)
      | None =>
          Some (None,
                mk (<[cluster := set_UpdatedAt tUpdated (set_CreatedAt tCreated c)]>
                      (objs cm))
                   (<[ID c := cluster]> (clusters cm)))
      end
  end.

(** [func (cm *ClusterManager) GetCluster(id string)], returning the pointer and the error *)
Definition GetCluster (id : string) (cm : t) : option loc * option string :=
  match clusters cm !! id with
  | None => (None, Some ("cluster " +:+ id +:+ " not found"))
  | Some cluster => (Some cluster, None)
  end.

(** [func (cm *ClusterManager) ListClusters() []*Cluster] *)
Definition ListClusters (cm : t) : list loc := (map_to_list (clusters cm)).*2.

(** [func (cm *ClusterManager) UpdateCluster(id string,
    updates map[string]interface{}) error] *)
Definition UpdateCluster (id : string) (updates : gmap string Value) (now : Z)
    (cm : t) : option (option string * t) :=
  match clusters cm !! id with
  | None => Some (Some ("cluster " +:+ id +:+ " not found"), cm)
  | Some cluster =>
      match objs cm !! cluster with
      | None => None
      | Some c =>
          let c1 := match updates !! "name" with
                    | Some (VString name) => set_Name name c | _ => c end in
          let c2 := match updates !! "description" with
                    | Some (VString desc) => set_Description desc c1 | _ => c1 end in
          let c3 := match updates !! "config" with
                    | Some (VObject config) => set_Config config c2 | _ => c2 end in
          let c4 := match updates !! "agents" with
                    | Some (VStrings agents) => set_Agents agents c3 | _ => c3 end in
          Some (None, mk (<[cluster := set_UpdatedAt now c4]> (objs cm)) (clusters cm))
      end
  end.

(** [func (cm *ClusterManager) DeleteCluster(id string) error] *)
Definition DeleteCluster (id : string) (cm : t) : option string * t :=
  match clusters cm !! id with
  | None => (Some ("cluster " +:+ id +:+ " not found"), cm)
  | Some _ => (None, mk (objs cm) (delete id (clusters cm)))
  end.

(** The loop [for _, agent := range cluster.Agents] that looks for
    [agentID]. *)
Fixpoint has_agent (agents : list string) (agentID : string) : bool :=
  match agents with
  | [] => false
  | agent :: rest => if bool_decide (agent = agentID) then true else has_agent rest agentID
  end.

(** [func (cm *ClusterManager) AddAgentToCluster(clusterID, agentID string)
    error] *)
Definition AddAgentToCluster (clusterID agentID : string) (now : Z) (cm : t)
    : option (option string * t) :=
  match clusters cm !! clusterID with
  | None => Some (Some ("cluster " +:+ clusterID +:+ " not found"), cm)
  | Some cluster =>
      match objs cm !! cluster with
      | None => None
      | Some c =>
          if has_agent (Agents c) agentID
          then Some (Some ("agent " +:+ agentID +:+ " already in cluster " +:+ clusterID), cm)
          else Some (None,
                     mk (<[cluster := set_UpdatedAt now (set_Agents (Agents c ++ [agentID]) c)]>
                           (objs cm))
                        (clusters cm))
      end
  end.

(** The index at which the loop [for i, agent := range cluster.Agents]
    first meets [agentID], counting from [i]. *)
Fixpoint first_index (agents : list string) (agentID : string) (i : nat) : option nat :=
  match agents with
  | [] => None
  | agent :: rest =>
      if bool_decide (agent = agentID) then Some i else first_index rest agentID (S i)
  end.

(** [func (cm *ClusterManager) RemoveAgentFromCluster(clusterID, agentID
    string) error]; [append(Agents[:i], Agents[i+1:]...)]. *)
Definition RemoveAgentFromCluster (clusterID agentID : string) (now : Z) (cm : t)
    : option (option string * t) :=
  match clusters cm !! clusterID with
  | None => Some (Some ("cluster " +:+ clusterID +:+ " not found"), cm)
  | Some cluster =>
      match objs cm !! cluster with
      | None => None
      | Some c =>
          match first_index (Agents c) agentID 0 with
          | Some i =>
              Some (None,
                    mk (<[cluster := set_UpdatedAt now
                                       (set_Agents (take i (Agents c) ++ drop (S i) (Agents c)) c)]>
                          (objs cm))
                       (clusters cm))
          | None =>
              Some (Some ("agent " +:+ agentID +:+ " not found in cluster " +:+ clusterID), cm)
          end
      end
  end.

(** The statistics that are computed: "total_agents" and "last_activity"
    (the other three are the constant 0). *)
Record Stats := mkStats { total_agents : Z; last_activity : Z }.

(** [func (cm *ClusterManager) GetClusterStats(clusterID string)
    (map[string]interface{}, error)] *)
Definition GetClusterStats (clusterID : string) (cm : t)
    : option (option Stats * option string) :=
  match clusters cm !! clusterID with
  | None => Some (None, Some ("cluster " +:+ clusterID +:+ " not found"))
  | Some cluster =>
      match objs cm !! cluster with
      | None => None
      | Some c => Some (Some (mkStats (Z.of_nat (length (Agents c))) (UpdatedAt c)), None)
      end
  end.

(** The outer loop of [GetAgentClusters]. *)
Fixpoint clusters_of (agentID : string) (os : gmap nat Cluster)
    (l : list (string * loc)) : option (list loc) :=
  match l with
  | [] => Some []
  | idp :: rest =>
      match os !! idp.2, clusters_of agentID os rest with
      | Some c, Some acc => Some (if has_agent (Agents c) agentID then idp.2 :: acc else acc)
      | _, _ => None
      end
  end.

(** [func (cm *ClusterManager) GetAgentClusters(agentID string) []*Cluster] *)
Definition GetAgentClusters (agentID : string) (cm : t) : option (list loc) :=
  clusters_of agentID (objs cm) (map_to_list (clusters cm)).

(** *** The cluster handlers of router.go *)

Inductive Reply :=
| BadBody                       (* 400, the body does not decode *)
| BadRequest (error : string)   (* 400, the error of the manager *)
| OK.                           (* 200 *)

(** [func (r *APIRouter) createCluster(c *gin.Context)]; the body binds to
    a [cluster.Cluster], [None] when it does not decode. *)
Definition createCluster (body : option Cluster) (tCreated tUpdated : Z) (cm : t)
    : option (Reply * t) :=
  match body with
  | None => Some (BadBody, cm)
  | Some c =>
      let '(p, os) := Store.alloc c (objs cm) in
      match AddCluster p tCreated tUpdated (mk os (clusters cm)) with
      | None => None
      | Some (Some err, cm') => Some (BadRequest err, cm')
      | Some (None, cm') => Some (OK, cm')
      end
  end.

(** [func (r *APIRouter) updateCluster(c *gin.Context)]; the body is
    decoded into a [map[string]interface{}]. *)
Definition updateCluster (clusterID : string) (body : option (gmap string Value))
    (now : Z) (cm : t) : option (Reply * t) :=
  match body with
  | None => Some (BadBody, cm)
  | Some updates =>
      match UpdateCluster clusterID updates now cm with
      | None => None
      | Some (Some err, cm') => Some (BadRequest err, cm')
      | Some (None, cm') => Some (OK, cm')
      end
  end.

End cluster.

(** ** time.Time: the two methods the token manager uses

    An instant is its reading in nanoseconds on one clock, as above. *)

Module Time.
(** [t.Add(d)] *)
Definition Add (t d : Z) : Z := t + d.
(** [t.After(u)]: strictly later. *)
Definition After (t u : Z) : bool := u <? t.
End Time.

(** ** server/pkg/security/token.go: TokenManager

    [tokens] is a [map[string]*TokenInfo]; the objects live in [objs].  The
    32 bytes of [crypto/rand] enter as the outcome of reading and encoding
    them: [inl token] is the URL-safe base64 text, [inr err] the error of
    [rand.Read]. *)

Module token.

Record TokenInfo := mkTokenInfo {
  Token : string;
  CreatedAt : Z;
  ExpiresAt : Z;
  LastUsed : Z;
  AgentID : string;
  Permissions : list string;
  IsActive : bool
}.

Definition set_LastUsed (v : Z) (i : TokenInfo) : TokenInfo :=
  mkTokenInfo (Token i) (CreatedAt i) (ExpiresAt i) v (AgentID i) (Permissions i) (IsActive i).
Definition set_IsActive (v : bool) (i : TokenInfo) : TokenInfo :=
  mkTokenInfo (Token i) (CreatedAt i) (ExpiresAt i) (LastUsed i) (AgentID i) (Permissions i) v.

Record t := mk {
  objs : gmap nat TokenInfo;
  tokens : gmap string nat;
  rotationInterval : Z;
  expirationTime : Z
}.

(** [func NewTokenManager(rotationInterval, expirationTime time.Duration)
    *TokenManager].  The goroutine it starts is [startTokenRotation]
    below; with an interval that is not positive [time.NewTicker] panics
    there, which ends the program: [None]. *)
Definition NewTokenManager (rotationInterval expirationTime : Z) : option t :=
  if rotationInterval <=? 0 then None
  else Some (mk ∅ ∅ rotationInterval expirationTime).

(** Every pointer held by the map is a live object. *)
Definition wf (tm : t) : Prop :=
  map_Forall (λ _ p, is_Some (objs tm !! p)) (tokens tm).

#[global] Instance wf_dec (tm : t) : Decision (wf tm).
Proof. unfold wf. apply _. Defined.

(** The object a key stands for. *)
Definition at_key (tm : t) (token : string) : option TokenInfo :=
  match tokens tm !! token with
  | Some p => objs tm !! p
  | None => None
  end.

(** [func (tm *TokenManager) GenerateToken(agentID string,
    permissions []string) (string, error)] *)
Definition GenerateToken (agentID : string) (permissions : list string)
    (rnd : string + string) (now : Z) (tm : t) : (string * option string) * t :=
  match rnd with
  | inr err => (("", Some ("failed to generate random token: " +:+ err)), tm)
  | inl token =>
      let tokenInfo :=
        mkTokenInfo token now (Time.Add now (expirationTime tm)) now agentID permissions true in
      let '(p, os) := Store.alloc tokenInfo (objs tm) in
      ((token, None), mk os (<[token := p]> (tokens tm)) (rotationInterval tm) (expirationTime tm))
  end.

(** [func (tm *TokenManager) ValidateToken(token string)], returning a [*TokenInfo] and an error;
    [now1] and [now2] are the two readings of the clock, for the expiry
    test and for LastUsed. *)
Definition ValidateToken (token : string) (now1 now2 : Z) (tm : t)
    : option ((option loc * option string) * t) :=
  match tokens tm !! token with
  | None => Some ((None, Some "token not found"), tm)
  | Some tokenInfo =>
      match objs tm !! tokenInfo with
      | None => None
      | Some i =>
          if negb (IsActive i) then Some ((None, Some "token is inactive"), tm)
          else if Time.After now1 (ExpiresAt i) then Some ((None, Some "token has expired"), tm)
          else Some ((Some tokenInfo, None),
                     mk (<[tokenInfo := set_LastUsed now2 i]> (objs tm)) (tokens tm)
                        (rotationInterval tm) (expirationTime tm))
      end
  end.

(** [func (tm *TokenManager) RevokeToken(token string) error] *)
Definition RevokeToken (token : string) (tm : t) : option (option string * t) :=
  match tokens tm !! token with
  | Some tokenInfo =>
      match objs tm !! tokenInfo with
      | None => None
      | Some i =>
          Some (None, mk (<[tokenInfo := set_IsActive false i]> (objs tm)) (tokens tm)
                         (rotationInterval tm) (expirationTime tm))
      end
  | None => Some (Some "token not found", tm)
  end.

(** [func (tm *TokenManager) RotateToken(oldToken string) (string, error)] *)
Definition RotateToken (oldToken : string) (rnd : string + string) (now : Z) (tm : t)
    : option ((string * option string) * t) :=
  match tokens tm !! oldToken with
  | None => Some (("", Some "old token not found"), tm)
  | Some tokenInfo =>
      match rnd with
      | inr err => Some (("", Some ("failed to generate random token: " +:+ err)), tm)
      | inl newToken =>
          match objs tm !! tokenInfo with
          | None => None
          | Some i =>
              let newTokenInfo :=
                mkTokenInfo newToken now (Time.Add now (expirationTime tm)) now
                            (AgentID i) (Permissions i) true in
              let '(q, os) := Store.alloc newTokenInfo (objs tm) in
              Some ((newToken, None),
                    mk (<[tokenInfo := set_IsActive false i]> os)
                       (<[newToken := q]> (tokens tm))
                       (rotationInterval tm) (expirationTime tm))
          end
      end
  end.

(** [func (tm *TokenManager) ListTokens() []*TokenInfo] *)
Definition ListTokens (tm : t) : list loc := (map_to_list (tokens tm)).*2.

(** The loop of [CleanupExpiredTokens] over the entries [l] that the range
    yields; deleting the entry at hand does not disturb the range. *)
Fixpoint cleanup_loop (now : Z) (os : gmap nat TokenInfo) (l : list (string * loc))
    (toks : gmap string nat) : option (gmap string nat) :=
  match l with
  | [] => Some toks
  | (token, tokenInfo) :: rest =>
      match os !! tokenInfo with
      | None => None
      | Some i =>
          cleanup_loop now os rest
            (if Time.After now (ExpiresAt i) then delete token toks else toks)
      end
  end.

(** [func (tm *TokenManager) CleanupExpiredTokens()] *)
Definition CleanupExpiredTokens (now : Z) (tm : t) : option t :=
  match cleanup_loop now (objs tm) (map_to_list (tokens tm)) (tokens tm) with
  | None => None
  | Some toks => Some (mk (objs tm) toks (rotationInterval tm) (expirationTime tm))
  end.

(** A cleanup at each of the instants [nows], in turn. *)
Fixpoint cleanups (nows : list Z) (tm : t) : option t :=
  match nows with
  | [] => Some tm
  | now :: rest =>
      match CleanupExpiredTokens now tm with
      | None => None
      | Some tm' => cleanups rest tm'
      end
  end.

(** [func (tm *TokenManager) startTokenRotation()], started at [start]:
    its first [length lags] iterations.  Iteration [k] is woken by a tick
    of the ticker of period [rotationInterval] that is not earlier than its
    tick [k], and [CleanupExpiredTokens] reads the clock [lags !! k] after
    that tick's instant. *)
Definition startTokenRotation (start : Z) (lags : list Z) (tm : t) : option t :=
  if rotationInterval tm <=? 0 then None
  else cleanups (Registry.readings (rotationInterval tm) start lags) tm.

(** The counters of [GetTokenStats]; the two durations it also reports are
    the fields of the manager. *)
Record Stats := mkStats { total_tokens : Z; active_tokens : Z; expired_tokens : Z }.

(** The loop of [GetTokenStats]. *)
Fixpoint stats_loop (now : Z) (os : gmap nat TokenInfo) (l : list (string * loc))
    (activeCount expiredCount : Z) : option (Z * Z) :=
  match l with
  | [] => Some (activeCount, expiredCount)
  | (_, tokenInfo) :: rest =>
      match os !! tokenInfo with
      | None => None
      | Some i =>
          if IsActive i then
            if Time.After now (ExpiresAt i)
            then stats_loop now os rest activeCount (expiredCount + 1)
            else stats_loop now os rest (activeCount + 1) expiredCount
          else stats_loop now os rest activeCount expiredCount
      end
  end.

(** [func (tm *TokenManager) GetTokenStats() map[string]interface{}] *)
Definition GetTokenStats (now : Z) (tm : t) : option Stats :=
  match stats_loop now (objs tm) (map_to_list (tokens tm)) 0 0 with
  | None => None
  | Some (activeCount, expiredCount) =>
      Some (mkStats (Z.of_nat (size (tokens tm))) activeCount expiredCount)
  end.

(** Whether [ValidateToken] accepts [token] at the instant [now]. *)
Definition accepts (token : string) (now : Z) (tm : t) : bool :=
  match ValidateToken token now now tm with
  | Some ((Some _, None), _) => true
  | _ => false
  end.

End token.

(** ** server/pkg/security: PermissionManager

    [roles] and [users] hold pointers to objects that the handlers of
    main.go make for the call ([AddRole(&role)], [AddUser(&user)]) and keep
    no other pointer to; each is modelled by its value, and
    [user.Roles = roles] by the update of the entry. *)

Module permission.

Record Permission := mkPermission {
  Resource : string;
  Actions : list string
}.

Record Role := mkRole {
  Role_ID : string;
  Role_Name : string;
  Role_Description : string;
  Permissions : list Permission
}.

Record User := mkUser {
  ID : string;
  Username : string;
  Email : string;
  Roles : list string;
  IsActive : bool
}.

Definition set_Roles (v : list string) (u : User) : User :=
  mkUser (ID u) (Username u) (Email u) v (IsActive u).

Record t := mk {
  roles : gmap string Role;
  users : gmap string User;
  permissions : gmap string (gmap string bool)   (* resource -> action -> allowed *)
}.

(** [m[resource][action] = true], on a map whose entry [resource] is there. *)
Definition allow (resource action : string) (m : gmap string (gmap string bool))
    : gmap string (gmap string bool) :=
  match m !! resource with
  | Some inner => <[resource := <[action := true]> inner]> m
  | None => m   (* a write to a nil map; never reached, the entry is made first *)
  end.

(** [if m[resource] == nil { m[resource] = make(map[string]bool) }] *)
Definition ensure (resource : string) (m : gmap string (gmap string bool))
    : gmap string (gmap string bool) :=
  match m !! resource with
  | Some _ => m
  | None => <[resource := ∅]> m
  end.

(** The two loops over [perm.Actions]. *)
Fixpoint actions_loop (resource : string) (actions : list string)
    (m : gmap string (gmap string bool)) : gmap string (gmap string bool) :=
  match actions with
  | [] => m
  | action :: rest =>
      actions_loop resource rest
        (if String.eqb action "*" then allow resource "*" m else allow resource action m)
  end.

(** The loop over [role.Permissions]. *)
Fixpoint perms_loop (perms : list Permission) (m : gmap string (gmap string bool))
    : gmap string (gmap string bool) :=
  match perms with
  | [] => m
  | perm :: rest =>
      perms_loop rest
        (if String.eqb (Resource perm) "*"
         then actions_loop "*" (Actions perm) (ensure "*" m)
         else actions_loop (Resource perm) (Actions perm) (ensure (Resource perm) m))
  end.

(** The loop over [pm.roles]. *)
Fixpoint roles_loop (l : list (string * Role)) (m : gmap string (gmap string bool))
    : gmap string (gmap string bool) :=
  match l with
  | [] => m
  | (_, role) :: rest => roles_loop rest (perms_loop (Permissions role) m)
  end.

(** [func (pm *PermissionManager) buildPermissionMap()] *)
Definition buildPermissionMap (pm : t) : t :=
  mk (roles pm) (users pm) (roles_loop (map_to_list (roles pm)) ∅).

Definition adminRole : Role :=
  mkRole "admin" "Administrator" "Full system access" [mkPermission "*" ["*"]].
Definition agentRole : Role :=
  mkRole "agent" "Agent" "Agent operations"
    [mkPermission "agents" ["read"; "update"];
     mkPermission "tasks" ["read"; "execute"];
     mkPermission "system_info" ["read"; "update"]].
Definition operatorRole : Role :=
  mkRole "operator" "Operator" "System operations"
    [mkPermission "agents" ["read"; "create"; "update"; "delete"];
     mkPermission "tasks" ["read"; "create"; "update"; "delete"];
     mkPermission "clusters" ["read"; "create"; "update"; "delete"];
     mkPermission "alerts" ["read"; "create"; "update"; "delete"]].
Definition viewerRole : Role :=
  mkRole "viewer" "Viewer" "Read-only access"
    [mkPermission "agents" ["read"];
     mkPermission "tasks" ["read"];
     mkPermission "clusters" ["read"];
     mkPermission "alerts" ["read"]].

(** [func (pm *PermissionManager) initializeDefaultRoles()] *)
Definition initializeDefaultRoles (pm : t) : t :=
  buildPermissionMap
    (mk (<["viewer" := viewerRole]>
           (<["operator" := operatorRole]>
              (<["agent" := agentRole]>
                 (<["admin" := adminRole]> (roles pm)))))
        (users pm) (permissions pm)).

(** [func NewPermissionManager() *PermissionManager] *)
Definition NewPermissionManager : t := initializeDefaultRoles (mk ∅ ∅ ∅).

(** [func (pm *PermissionManager) AddRole(role *Role) error] *)
Definition AddRole (role : Role) (pm : t) : option string * t :=
  match roles pm !! Role_ID role with
  | Some _ => (Some ("role " +:+ Role_ID role +:+ " already exists"), pm)
  | None =>
      (None, buildPermissionMap (mk (<[Role_ID role := role]> (roles pm)) (users pm)
                                    (permissions pm)))
  end.

(** The loop that validates role ids: the first one that is not a role. *)
Fixpoint missing_role (rs : gmap string Role) (roleIDs : list string) : option string :=
  match roleIDs with
  | [] => None
  | roleID :: rest =>
      match rs !! roleID with
      | None => Some roleID
      | Some _ => missing_role rs rest
      end
  end.

(** [func (pm *PermissionManager) AddUser(user *User) error] *)
Definition AddUser (user : User) (pm : t) : option string * t :=
  match users pm !! ID user with
  | Some _ => (Some ("user " +:+ ID user +:+ " already exists"), pm)
  | None =>
      match missing_role (roles pm) (Roles user) with
      | Some roleID => (Some ("role " +:+ roleID +:+ " not found"), pm)
      | None => (None, mk (roles pm) (<[ID user := user]> (users pm)) (permissions pm))
      end
  end.

(** [func (pm *PermissionManager) UpdateUserRoles(userID string,
    roles []string) error] *)
Definition UpdateUserRoles (userID : string) (roleIDs : list string) (pm : t)
    : option string * t :=
  match users pm !! userID with
  | None => (Some ("user " +:+ userID +:+ " not found"), pm)
  | Some user =>
      match missing_role (roles pm) roleIDs with
      | Some roleID => (Some ("role " +:+ roleID +:+ " not found"), pm)
      | None =>
          (None, mk (roles pm) (<[userID := set_Roles roleIDs user]> (users pm))
                    (permissions pm))
      end
  end.

(** [strings.HasSuffix(s, "/*")] and [strings.TrimSuffix(s, "/*")] in one:
    the text before a final "/*", if [s] ends in it. *)
Fixpoint trim_slash_star (s : string) : option string :=
  match s with
  | EmptyString => None
  | String c rest =>
      if String.eqb s "/*" then Some ""
      else match trim_slash_star rest with
           | Some r => Some (String c r)
           | None => None
           end
  end.

(** [func (pm *PermissionManager) matchesResource(permResource,
    requestedResource string) bool] *)
Definition matchesResource (permResource requestedResource : string) : bool :=
  if String.eqb permResource "*" then true
  else if String.eqb permResource requestedResource then true
  else match trim_slash_star permResource with
       | Some prefix => String.prefix (prefix +:+ "/") requestedResource
       | None => false
       end.

(** [func (pm *PermissionManager) matchesAction(permActions []string,
    requestedAction string) bool] *)
Fixpoint matchesAction (permActions : list string) (requestedAction : string) : bool :=
  match permActions with
  | [] => false
  | action :: rest =>
      if String.eqb action "*" || String.eqb action requestedAction then true
      else matchesAction rest requestedAction
  end.

(** [m[key]] on a [map[string]bool]: false when the key is absent. *)
Definition flag (m : gmap string bool) (key : string) : bool := default false (m !! key).

(** The inner loop of [CheckPermission], over [role.Permissions]. *)
Fixpoint role_grants (perms : list Permission) (resource action : string) : bool :=
  match perms with
  | [] => false
  | perm :: rest =>
      if matchesResource (Resource perm) resource && matchesAction (Actions perm) action
      then true
      else role_grants rest resource action
  end.

(** The outer loop of [CheckPermission], over [user.Roles]. *)
Fixpoint roles_grant (rs : gmap string Role) (roleIDs : list string)
    (resource action : string) : bool :=
  match roleIDs with
  | [] => false
  | roleID :: rest =>
      match rs !! roleID with
      | None => roles_grant rs rest resource action
      | Some role =>
          if role_grants (Permissions role) resource action then true
          else roles_grant rs rest resource action
      end
  end.

(** [func (pm *PermissionManager) CheckPermission(userID, resource,
    action string) bool] *)
Definition CheckPermission (userID resource action : string) (pm : t) : bool :=
  match users pm !! userID with
  | None => false
  | Some user =>
      if negb (IsActive user) then false
      else if match permissions pm !! "*" with
              | Some wildcardPerms => flag wildcardPerms "*" || flag wildcardPerms action
              | None => false
              end then true
      else if match permissions pm !! resource with
              | Some resourcePerms => flag resourcePerms "*" || flag resourcePerms action
              | None => false
              end then true
      else roles_grant (roles pm) (Roles user) resource action
  end.

(** The calls that change a manager, and a run of them. *)
Inductive call :=
| CAddRole (role : Role)
| CAddUser (user : User)
| CUpdateUserRoles (userID : string) (roleIDs : list string).

Definition step (c : call) (pm : t) : t :=
  match c with
  | CAddRole role => (AddRole role pm).2
  | CAddUser user => (AddUser user pm).2
  | CUpdateUserRoles userID roleIDs => (UpdateUserRoles userID roleIDs pm).2
  end.

Definition run (cs : list call) (pm : t) : t := foldl (λ pm c, step c pm) pm cs.

(** [m[resource][action]] is there and true. *)
Definition set_at (m : gmap string (gmap string bool)) (resource action : string) : Prop :=
  ∃ inner, m !! resource = Some inner ∧ inner !! action = Some true.

(** What every call keeps: the admin role as it was made, its wildcard in
    the lookup map, and the roles of every user among the roles. *)
Definition inv (pm : t) : Prop :=
  roles pm !! "admin" = Some adminRole ∧
  set_at (permissions pm) "*" "*" ∧
  ∀ id u, users pm !! id = Some u → Forall (λ r, is_Some (roles pm !! r)) (Roles u).

End permission.

(** ** Further concrete states *)

Module Examples.

(** A cluster "c1" with two agents, and a manager holding it. *)
Definition cluster1 : cluster.Cluster :=
  cluster.mkCluster "c1" "prod" "production" [] ["h1"; "h2"] 10 10.
Definition clusters1 : cluster.t :=
  cluster.mk {[ 0%nat := cluster1 ]} {[ "c1" := 0%nat ]}.


End Examples.


(** * Properties *)

(** ** Scheduler *)

Section SchedulerFacts.
Import Scheduler.

Lemma select_total keep (os : gmap nat Task.t) (l : list (string * loc)) :
  Forall (λ idp, is_Some (os !! idp.2)) l → is_Some (select keep os l).
Proof.
  induction 1 as [|idp l [k Hk] _ [acc IH]]; simpl; [by eexists|].
  rewrite Hk, IH. by eexists.
Qed.

Lemma select_elem keep (os : gmap nat Task.t) (l : list (string * loc)) acc :
  select keep os l = Some acc →
  ∀ p, p ∈ acc ↔ ∃ id k, (id, p) ∈ l ∧ os !! p = Some k ∧ keep k = true.
Proof.
  revert acc. induction l as [|[id0 p0] l IH]; simpl; intros acc Hsel p.
  - inversion Hsel; subst. split; [by intros ?%elem_of_nil|].
    by intros (? & ? & ?%elem_of_nil & _).
  - destruct (os !! p0) as [k0|] eqn:Hk0; [|done].
    destruct (select keep os l) as [acc0|] eqn:Hacc0; [|done].
    inversion Hsel; subst; clear Hsel.
    specialize (IH acc0 eq_refl p).
    destruct (keep k0) eqn:Hkeep.
    + rewrite elem_of_cons, IH. split.
      * intros [->|(id & k & Hin & Hk & Hkp)].
        -- exists id0, k0. by rewrite elem_of_cons; auto.
        -- exists id, k. by rewrite elem_of_cons; auto.
      * intros (id & k & [Heq|Hin]%elem_of_cons & Hk & Hkp).
        -- inversion Heq; subst. by left.
        -- right. eauto.
    + rewrite IH. split.
      * intros (id & k & Hin & Hk & Hkp). exists id, k. by rewrite elem_of_cons; auto.
      * intros (id & k & [Heq|Hin]%elem_of_cons & Hk & Hkp); [|eauto].
        inversion Heq; subst. congruence.
Qed.

Lemma wf_Forall (s : t) :
  wf s → Forall (λ idp, is_Some (objs s !! idp.2)) (map_to_list (tasks s)).
Proof.
  intros Hwf. apply Forall_forall. intros [id p] Hin.
  apply elem_of_map_to_list in Hin. exact (Hwf id p Hin).
Qed.

End SchedulerFacts.

(** *** Retrieval of pending tasks *)

Section SchedulerClaims.
Import Scheduler.

(** C1 (as amended).  [GetPendingTasks] is total on a well-formed scheduler,
    returns exactly the stored tasks whose target is the given agent and
    whose status is "pending", and hands back the scheduler it was given:
    it reads and claims nothing, so the next call returns the same tasks. *)
Theorem GetPendingTasks_reads (agentID : string) (s : Scheduler.t) :
  wf s →
  ∃ l, GetPendingTasks agentID s = Some (l, s) ∧
       ∀ p, p ∈ l ↔ ∃ id k, tasks s !! id = Some p ∧ objs s !! p = Some k ∧
                             Task.AgentID k = agentID ∧ Task.Status k = "pending".
Proof.
  intros Hwf. unfold GetPendingTasks.
  destruct (select_total
              (λ k, bool_decide (Task.AgentID k = agentID) &&
                    bool_decide (Task.Status k = "pending"))
              (objs s) _ (wf_Forall s Hwf)) as [l Hl].
  rewrite Hl. exists l. split; [done|].
  intros p. rewrite (select_elem _ _ _ _ Hl p).
  split; intros (id & k & Hin & Hk & Hkeep); exists id, k.
  - apply elem_of_map_to_list in Hin.
    apply andb_true_iff in Hkeep as [H1%bool_decide_eq_true H2%bool_decide_eq_true].
    done.
  - destruct Hkeep as [H1 H2]. rewrite elem_of_map_to_list.
    split_and!; [done..|]. apply andb_true_iff. by rewrite !bool_decide_eq_true.
Qed.

Lemma GetPendingTasks_reads_witness :
  wf Demo.sched1 ∧
  ∃ l, GetPendingTasks "i1" Demo.sched1 = Some (l, Demo.sched1) ∧
       ∀ p, p ∈ l ↔ ∃ id k, tasks Demo.sched1 !! id = Some p ∧
                             objs Demo.sched1 !! p = Some k ∧
                             Task.AgentID k = "i1" ∧ Task.Status k = "pending".
Proof.
  assert (Hwf : wf Demo.sched1) by (apply (bool_decide_unpack _); vm_compute; exact I).
  split; [exact Hwf|]. exact (GetPendingTasks_reads "i1" Demo.sched1 Hwf).
Defined.

(** C1 as stated fails: one task is submitted for "i1"; the first retrieval
    returns it, and so does the second, the task still being "pending". *)
Lemma GetPendingTasks_twice :
  ∃ s1 s2 s3,
    SubmitTask 0%nat Demo.sched0 = Some s1 ∧
    GetPendingTasks "i1" s1 = Some ([0%nat], s2) ∧
    GetPendingTasks "i1" s2 = Some ([0%nat], s3) ∧
    Task.Status <$> at_key s3 "t1" = Some "pending".
Proof. eexists _, _, _. split_and!; vm_compute; reflexivity. Qed.

(** *** Result reports *)

Lemma wf_lookup (s : t) id p : wf s → tasks s !! id = Some p → is_Some (objs s !! p).
Proof. intros Hwf Hp. exact (Hwf id p Hp). Qed.

(** C2 (as amended).  [MarkTaskDone] returns nothing.  For an id that is not
    in the table it changes nothing.  For an id in the table it sets the
    status of the task to "completed", whatever the status was and whatever
    [success], [output] and [errMsg] are (they only choose the log line; no
    result is stored), and every further report is accepted again and leaves
    the table and its objects as they are. *)
Theorem MarkTaskDone_overwrites (taskID : string) (success : bool)
    (output errMsg : string) (s : Scheduler.t) :
  wf s →
  ∃ s', MarkTaskDone taskID success output errMsg s = Some s' ∧
        tasks s' = tasks s ∧ registry s' = registry s ∧
        match tasks s !! taskID with
        | None => s' = s
        | Some p => ∃ k, objs s !! p = Some k ∧
                         objs s' = <[p := Task.set_Status "completed" k]> (objs s)
        end ∧
        ∀ success2 output2 errMsg2,
          ∃ s'', MarkTaskDone taskID success2 output2 errMsg2 s' = Some s'' ∧
                 objs s'' = objs s' ∧ tasks s'' = tasks s'.
Proof.
  intros Hwf. unfold MarkTaskDone.
  destruct (tasks s !! taskID) as [p|] eqn:Hp.
  - destruct (wf_lookup s taskID p Hwf Hp) as [k Hk]. rewrite Hk.
    eexists. split; [reflexivity|]. simpl. split_and!; [done..|eauto|].
    intros success2 output2 errMsg2. rewrite Hp, lookup_insert_eq.
    eexists. split; [reflexivity|]. simpl. split; [|done].
    by rewrite insert_insert_eq.
  - exists s. split_and!; [done..|].
    intros ? ? ?. rewrite Hp. by exists s.
Qed.

Lemma MarkTaskDone_overwrites_witness :
  wf Demo.sched1 ∧
  ∃ s', MarkTaskDone "t1" false "" "exit status 1" Demo.sched1 = Some s' ∧
        Task.Status <$> at_key s' "t1" = Some "completed".
Proof.
  assert (Hwf : wf Demo.sched1) by (apply (bool_decide_unpack _); vm_compute; exact I).
  split; [exact Hwf|].
  destruct (MarkTaskDone_overwrites "t1" false "" "exit status 1" Demo.sched1 Hwf)
    as (s' & Hs' & _).
  exists s'. split; [exact Hs'|].
  vm_compute in Hs'. injection Hs' as <-. reflexivity.
Defined.

(** C2 as stated fails: a report for a task that is "pending" (never
    dispatched) is accepted and sets the status to "completed", which is
    neither "succeeded" nor "failed"; a second, contradicting report is
    accepted too. *)
Lemma MarkTaskDone_accepts_pending :
  Task.Status <$> at_key Demo.sched1 "t1" = Some "pending" ∧
  ∃ s1 s2,
    MarkTaskDone "t1" true "hi" "" Demo.sched1 = Some s1 ∧
    Task.Status <$> at_key s1 "t1" = Some "completed" ∧
    MarkTaskDone "t1" false "" "late" s1 = Some s2 ∧
    last (logger s2) = Some "[ERROR] Task failed: t1 - late".
Proof. split; [reflexivity|]. eexists _, _. split_and!; vm_compute; reflexivity. Qed.

(** C5 (as amended).  [SubmitTask] stores every task it is given under the
    task's id with status "pending"; it returns no error, leaves the registry
    alone and does the same whatever the registry contains. *)
Theorem SubmitTask_stores (task : loc) (k : Task.t) (s : Scheduler.t) :
  objs s !! task = Some k →
  ∃ s', SubmitTask task s = Some s' ∧
        at_key s' (Task.ID k) = Some (Task.set_Status "pending" k) ∧
        tasks s' = <[Task.ID k := task]> (tasks s) ∧
        registry s' = registry s ∧
        ∀ reg, SubmitTask task (mk reg (objs s) (tasks s) (logger s))
               = Some (mk reg (objs s') (tasks s') (logger s')).
Proof.
  intros Hk. unfold SubmitTask. rewrite Hk. eexists. split; [reflexivity|].
  unfold at_key. simpl. rewrite !lookup_insert_eq. split_and!; try done.
  intros reg. by rewrite Hk.
Qed.

Lemma SubmitTask_stores_witness :
  objs Demo.sched0 !! 0%nat = Some Demo.task1 ∧
  ∃ s', SubmitTask 0%nat Demo.sched0 = Some s' ∧
        at_key s' "t1" = Some (Task.set_Status "pending" Demo.task1).
Proof.
  assert (Hk : objs Demo.sched0 !! 0%nat = Some Demo.task1) by reflexivity.
  split; [exact Hk|].
  destruct (SubmitTask_stores 0%nat Demo.task1 Demo.sched0 Hk) as (s' & Hs' & Hat & _).
  exists s'. split; [exact Hs'|exact Hat].
Defined.

(** C5 as stated fails: the registry is empty, so the target "i1" is
    unknown, and the task is stored as "pending". *)
Lemma SubmitTask_unknown_target :
  Registry.agents (registry Demo.sched0) !! Task.AgentID Demo.task1 = None ∧
  ∃ s', SubmitTask 0%nat Demo.sched0 = Some s' ∧
        Task.Status <$> at_key s' "t1" = Some "pending".
Proof. split; [reflexivity|]. eexists. split; vm_compute; reflexivity. Qed.

(** *** The life cycle of a task *)

Lemma alloc_fresh {T} (v : T) (m : gmap nat T) :
  m !! (Store.alloc v m).1 = None ∧ (Store.alloc v m).2 = <[(Store.alloc v m).1 := v]> m.
Proof.
  unfold Store.alloc. simpl. split; [|done].
  apply not_elem_of_dom. apply is_fresh.
Qed.

Lemma fresh_ne {T} (m : gmap nat T) (p : loc) (v : T) :
  m !! p = Some v → fresh (dom m) ≠ p.
Proof.
  intros Hp <-. apply (is_fresh (dom m)). apply elem_of_dom. by eexists.
Qed.

Lemma two_states_alloc (k : Task.t) (s : t) :
  two_states s →
  two_states (mk (registry s) (Store.alloc k (objs s)).2 (tasks s) (logger s)).
Proof.
  intros Hinv id p Hp.
  destruct (Hinv id p Hp) as (k0 & Hk0 & Hst).
  destruct (alloc_fresh k (objs s)) as [Hfresh Heq].
  exists k0. split; [|done].
  cbn [objs]. rewrite Heq.
  rewrite lookup_insert_ne; [done|]. intros <-. congruence.
Qed.

Lemma two_states_SubmitTask (task : loc) (s s' : t) :
  two_states s → SubmitTask task s = Some s' → two_states s'.
Proof.
  intros Hinv. unfold SubmitTask.
  destruct (objs s !! task) as [k|] eqn:Hk; [|done].
  intros [= <-] id p. simpl. intros Hp.
  destruct (decide (p = task)) as [->|Hne].
  - rewrite lookup_insert_eq. eexists. split; [done|]. by left.
  - rewrite lookup_insert_ne by done.
    apply lookup_insert_Some in Hp as [[_ ->]|[_ Hp]]; [done|].
    exact (Hinv id p Hp).
Qed.

Lemma two_states_MarkTaskDone taskID success output errMsg (s s' : t) :
  two_states s → MarkTaskDone taskID success output errMsg s = Some s' → two_states s'.
Proof.
  intros Hinv. unfold MarkTaskDone.
  destruct (tasks s !! taskID) as [task|] eqn:Ht; [|by intros [= <-]].
  destruct (objs s !! task) as [k|] eqn:Hk; [|done].
  intros [= <-] id p. simpl. intros Hp.
  destruct (decide (p = task)) as [->|Hne].
  - rewrite lookup_insert_eq. eexists. split; [done|]. by right.
  - rewrite lookup_insert_ne by done. exact (Hinv id p Hp).
Qed.

Lemma two_states_step (c : Calls.call) (s s' : t) :
  two_states s → Calls.step c s = Some s' → two_states s'.
Proof.
  intros Hinv. destruct c; simpl.
  - intros [= <-]. by apply two_states_alloc.
  - by apply two_states_SubmitTask.
  - unfold GetPendingTasks. destruct (select _ _ _); [|done]. by intros [= <-].
  - by apply two_states_MarkTaskDone.
  - unfold GetTasksByStatus. destruct (select _ _ _); [|done]. by intros [= <-].
  - unfold ScheduleHook.
    destruct (Store.alloc _ _) as [p os] eqn:Ha. intros Hs.
    eapply two_states_SubmitTask; [|exact Hs].
    replace os with (Store.alloc (Task.mk id agentID "hook" "" "" plugin params 0 "pending")
                       (objs s)).2 by (by rewrite Ha).
    by apply two_states_alloc.
  - unfold ScheduleCommand.
    destruct (Store.alloc _ _) as [p os] eqn:Ha. intros Hs.
    eapply two_states_SubmitTask; [|exact Hs].
    replace os with (Store.alloc (Task.mk id agentID "command" command "" "" [] timeout "pending")
                       (objs s)).2 by (by rewrite Ha).
    by apply two_states_alloc.
Qed.

Lemma two_states_run (cs : list Calls.call) (s s' : t) :
  two_states s → Calls.run cs s = Some s' → two_states s'.
Proof.
  revert s. induction cs as [|c cs IH]; simpl; intros s Hinv.
  - by intros [= <-].
  - destruct (Calls.step c s) as [s1|] eqn:Hstep; [|done].
    apply IH. by eapply two_states_step.
Qed.

(** What one call does to a Task object that exists before it. *)
Lemma step_object (c : Calls.call) (s s' : t) (p : loc) (k k' : Task.t) :
  Calls.step c s = Some s' → objs s !! p = Some k → objs s' !! p = Some k' →
  k' = k ∨
  (c = Calls.SubmitTask p ∧ k' = Task.set_Status "pending" k) ∨
  (∃ taskID success output errMsg,
      c = Calls.MarkTaskDone taskID success output errMsg ∧
      tasks s !! taskID = Some p ∧ k' = Task.set_Status "completed" k).
Proof.
  intros Hstep Hk Hk'. destruct c; simpl in Hstep.
  - injection Hstep as <-. simpl in Hk'.
    rewrite lookup_insert_ne in Hk' by (by eapply fresh_ne). left. congruence.
  - unfold SubmitTask in Hstep.
    destruct (objs s !! task) as [k0|] eqn:Hk0; [|done].
    injection Hstep as <-. simpl in Hk'.
    destruct (decide (p = task)) as [->|Hne].
    + rewrite lookup_insert_eq in Hk'. right; left. split; [done|]. congruence.
    + rewrite lookup_insert_ne in Hk' by done. left. congruence.
  - unfold GetPendingTasks in Hstep. destruct (select _ _ _); [|done].
    injection Hstep as <-. left. congruence.
  - unfold MarkTaskDone in Hstep.
    destruct (tasks s !! taskID) as [task|] eqn:Ht.
    + destruct (objs s !! task) as [k0|] eqn:Hk0; [|done].
      injection Hstep as <-. simpl in Hk'.
      destruct (decide (p = task)) as [->|Hne].
      * rewrite lookup_insert_eq in Hk'. right; right.
        exists taskID, success, output, errMsg. split_and!; [done..|]. congruence.
      * rewrite lookup_insert_ne in Hk' by done. left. congruence.
    + injection Hstep as <-. left. congruence.
  - unfold GetTasksByStatus in Hstep. destruct (select _ _ _); [|done].
    injection Hstep as <-. left. congruence.
  - unfold ScheduleHook in Hstep.
    destruct (alloc_fresh (Task.mk id agentID "hook" "" "" plugin params 0 "pending") (objs s))
      as [Hfresh Heq].
    destruct (Store.alloc _ _) as [q os]. simpl in *. subst os.
    unfold SubmitTask in Hstep. simpl in Hstep. rewrite lookup_insert_eq in Hstep.
    injection Hstep as <-. simpl in Hk'.
    rewrite !lookup_insert_ne in Hk' by (intros <-; congruence). left. congruence.
  - unfold ScheduleCommand in Hstep.
    destruct (alloc_fresh (Task.mk id agentID "command" command "" "" [] timeout "pending")
                (objs s)) as [Hfresh Heq].
    destruct (Store.alloc _ _) as [q os]. simpl in *. subst os.
    unfold SubmitTask in Hstep. simpl in Hstep. rewrite lookup_insert_eq in Hstep.
    injection Hstep as <-. simpl in Hk'.
    rewrite !lookup_insert_ne in Hk' by (intros <-; congruence). left. congruence.
Qed.

(** C3 (as amended).  In every state reached from a new scheduler by any
    sequence of calls, every stored task is "pending" or "completed"; and a
    call changes a Task object that exists only in two ways: [SubmitTask] of
    that object sets it to "pending", [MarkTaskDone] of an id under which it
    is stored sets it to "completed". *)
Theorem status_pending_or_completed (cs : list Calls.call) (reg : Registry.t)
    (s : Scheduler.t) :
  Calls.run cs (NewScheduler reg) = Some s →
  (∀ id k, at_key s id = Some k →
     Task.Status k = "pending" ∨ Task.Status k = "completed") ∧
  (∀ c s' p k k',
     Calls.step c s = Some s' → objs s !! p = Some k → objs s' !! p = Some k' →
     k' = k ∨
     (c = Calls.SubmitTask p ∧ k' = Task.set_Status "pending" k) ∨
     (∃ taskID success output errMsg,
        c = Calls.MarkTaskDone taskID success output errMsg ∧
        tasks s !! taskID = Some p ∧ k' = Task.set_Status "completed" k)).
Proof.
  intros Hrun. split.
  - assert (Hinv : two_states s).
    { eapply two_states_run; [|exact Hrun]. intros id p. simpl. by rewrite lookup_empty. }
    intros id k. unfold at_key. destruct (tasks s !! id) as [p|] eqn:Hp; [|done].
    intros Hk. destruct (Hinv id p Hp) as (k0 & Hk0 & Hst). congruence.
  - intros c s' p k k'. apply step_object.
Qed.

Lemma status_pending_or_completed_witness :
  ∃ s, Calls.run [Calls.ScheduleCommand "t1" "i1" "echo hi" 30;
                  Calls.GetPendingTasks "i1";
                  Calls.MarkTaskDone "t1" true "hi" ""]
         (NewScheduler Registry.NewRegistry) = Some s ∧
       ∀ id k, at_key s id = Some k →
         Task.Status k = "pending" ∨ Task.Status k = "completed".
Proof.
  eexists. split; [vm_compute; reflexivity|].
  refine (proj1 (status_pending_or_completed
                   [Calls.ScheduleCommand "t1" "i1" "echo hi" 30;
                    Calls.GetPendingTasks "i1";
                    Calls.MarkTaskDone "t1" true "hi" ""]
                   Registry.NewRegistry _ _)).
  vm_compute. reflexivity.
Defined.

(** C3 as stated fails: a task goes from "pending" straight to "completed",
    a status outside the five of the life cycle, and submitting the same
    object again takes it back to "pending". *)
Lemma status_leaves_lifecycle :
  ∃ s1 s2 s3,
    SubmitTask 0%nat Demo.sched0 = Some s1 ∧
    Task.Status <$> at_key s1 "t1" = Some "pending" ∧
    MarkTaskDone "t1" true "hi" "" s1 = Some s2 ∧
    Task.Status <$> at_key s2 "t1" = Some "completed" ∧
    ("completed" ∉ ["pending"; "dispatched"; "succeeded"; "failed"; "cancelled"]) ∧
    SubmitTask 0%nat s2 = Some s3 ∧
    Task.Status <$> at_key s3 "t1" = Some "pending".
Proof.
  eexists _, _, _. split_and!; try (vm_compute; reflexivity).
  intros H. repeat (apply elem_of_cons in H as [H|H]; [discriminate|]).
  by apply elem_of_nil in H.
Qed.

End SchedulerClaims.

(** ** Registry *)

Section RegistryClaims.
Import Registry.

Lemma wf_agent (r : t) id p : wf r → agents r !! id = Some p → is_Some (objs r !! p).
Proof. intros Hwf Hp. exact (Hwf id p Hp). Qed.

(** C10.  [Update] with an id that is not in the registry returns the
    registry as it is, so the heartbeat handler, given an unknown (non-empty)
    agent id, answers 200 and leaves the router's registry as it is; with an
    id that is in the registry, the entry under that key becomes a copy of
    the supplied agent whose ID is the key, whatever ID the agent carried. *)
Theorem Update_absent_or_keyed :
  (∀ r id agent, agents r !! id = None → Update id agent r = Some r) ∧
  (∀ r id hb now, id ≠ "" → agents r !! id = None →
     APIRouter.agentHeartbeat id (Some hb) now (APIRouter.mk (Some r))
     = Some (api.HeartbeatOK id, APIRouter.mk (Some r))) ∧
  (∀ r id agent a, wf r → is_Some (agents r !! id) → objs r !! agent = Some a →
     ∃ r', Update id agent r = Some r' ∧ agents r' = agents r ∧
           at_key r' id = Some (AgentInfo.set_ID id a) ∧
           AgentInfo.ID (AgentInfo.set_ID id a) = id).
Proof.
  split_and!.
  - intros r id agent Hid. unfold Update. by rewrite Hid.
  - intros r id hb now Hne Hid. unfold APIRouter.agentHeartbeat. simpl.
    rewrite bool_decide_eq_false_2 by done. unfold Get. by rewrite Hid.
  - intros r id agent a Hwf [e He] Ha. unfold Update. rewrite He.
    destruct (wf_agent r id e Hwf He) as [x Hx]. rewrite Hx, Ha.
    eexists. split; [reflexivity|]. unfold at_key. simpl.
    rewrite He, lookup_insert_eq. done.
Qed.

(** *** The sweep *)


Lemma stale_fix_idemp now a : stale_fix now (stale_fix now a) = stale_fix now a.
Proof.
  unfold stale_fix.
  destruct (offlineThreshold <? time.Sub now (AgentInfo.LastSeen a)) eqn:H.
  - simpl. by rewrite H.
  - by rewrite H.
Qed.

Lemma sweep_loop_spec now (l : list (string * loc)) :
  ∀ (os : gmap nat AgentInfo.t) out,
    Forall (λ idp, is_Some (os !! idp.2)) l →
    ∃ os' out', sweep_loop now l (Some (os, out)) = Some (os', out') ∧
      ∀ q, os' !! q = if decide (q ∈ l.*2) then stale_fix now <$> os !! q else os !! q.
Proof.
  induction l as [|[id p] l IH]; intros os out Hall.
  - exists os, out. split; [done|]. intros q. rewrite decide_False; [done|].
    simpl. apply not_elem_of_nil.
  - apply Forall_cons in Hall as [[a Ha] Hall]. simpl in Ha.
    assert (Hstep : ∃ out1, sweep_agent now (id, p) (Some (os, out))
                            = Some (<[p := stale_fix now a]> os, out1)).
    { unfold sweep_agent, stale_fix. simpl. rewrite Ha.
      destruct (_ <? _); eexists; [reflexivity|]. by rewrite insert_id. }
    destruct Hstep as [out1 Hstep].
    destruct (IH (<[p := stale_fix now a]> os) out1) as (os' & out' & Hloop & Hos').
    { eapply Forall_impl; [exact Hall|]. intros [id' p'] [x Hx]. simpl in *.
      destruct (decide (p' = p)) as [->|Hne].
      - rewrite lookup_insert_eq. by eexists.
      - rewrite lookup_insert_ne by done. by eexists. }
    exists os', out'. split; [cbn [sweep_loop]; by rewrite Hstep|].
    intros q. rewrite Hos'. rewrite fmap_cons. simpl.
    destruct (decide (q = p)) as [->|Hne].
    + rewrite lookup_insert_eq, Ha. simpl.
      rewrite (decide_True (P := p ∈ p :: l.*2)) by apply list_elem_of_here.
      destruct (decide (p ∈ l.*2)); simpl; [by rewrite stale_fix_idemp|done].
    + rewrite lookup_insert_ne by done.
      destruct (decide (q ∈ l.*2)) as [Hin|Hnin].
      * rewrite decide_True; [done|]. by apply list_elem_of_further.
      * rewrite decide_False; [done|]. intros [?|?]%elem_of_cons; done.
Qed.

Lemma sweep_lookup now (r : t) :
  wf r →
  ∃ r', sweep now r = Some r' ∧ agents r' = agents r ∧
        (∀ q, q ∈ List r → objs r' !! q = stale_fix now <$> objs r !! q) ∧
        (∀ q, q ∉ List r → objs r' !! q = objs r !! q).
Proof.
  intros Hwf. unfold sweep.
  destruct (sweep_loop_spec now (map_to_list (agents r)) (objs r) (logger r))
    as (os' & out' & Hloop & Hos').
  { apply Forall_forall. intros [id p] Hin. apply elem_of_map_to_list in Hin.
    exact (Hwf id p Hin). }
  rewrite Hloop. eexists. split; [reflexivity|]. simpl. split; [done|].
  unfold List. split; intros q Hq; rewrite Hos'.
  - by rewrite decide_True.
  - by rewrite decide_False.
Qed.

Lemma sweep_wf now (r r' : t) : wf r → sweep now r = Some r' → wf r'.
Proof.
  intros Hwf Hs. destruct (sweep_lookup now r Hwf) as (r0 & Hs0 & Hag & Hin & Hnin).
  rewrite Hs in Hs0. injection Hs0 as <-.
  intros id p Hp. simpl. rewrite Hag in Hp.
  assert (Hq : p ∈ List r).
  { unfold List. apply list_elem_of_fmap. exists (id, p). split; [done|].
    by apply elem_of_map_to_list. }
  rewrite (Hin p Hq). destruct (Hwf id p Hp) as [a Ha]. rewrite Ha. by eexists.
Qed.






Lemma readings_lookup (d start : Z) (lags : list Z) (k : nat) :
  readings d start lags !! k = (λ lag, start + Z.of_nat (S k) * d + lag) <$> lags !! k.
Proof.
  unfold readings, ticker. rewrite lookup_zip_with, list_lookup_fmap.
  destruct (lags !! k) as [lag|] eqn:Hk.
  - apply lookup_lt_Some in Hk as Hlt. rewrite lookup_seq_lt by done. done.
  - apply lookup_ge_None in Hk. rewrite lookup_seq_ge by done. done.
Qed.



Lemma Update_absent_or_keyed_witness :
  Update "ghost" 0%nat Demo.reg2 = Some Demo.reg2 ∧
  APIRouter.agentHeartbeat "ghost" (Some (api.mkHeartbeatData "" None [])) 5
    (APIRouter.mk (Some Demo.reg2))
  = Some (api.HeartbeatOK "ghost", APIRouter.mk (Some Demo.reg2)) ∧
  ∃ r', Update "h1" 1%nat Demo.reg2 = Some r' ∧
        at_key r' "h1" = Some (AgentInfo.set_ID "h1" Demo.agent2).
Proof.
  destruct Update_absent_or_keyed as (H1 & H2 & H3).
  split_and!.
  - apply H1. reflexivity.
  - apply H2; [discriminate|reflexivity].
  - destruct (H3 Demo.reg2 "h1" 1%nat Demo.agent2) as (r' & Hr' & _ & Hat & _).
    + apply (bool_decide_unpack _). vm_compute. exact I.
    + eexists. reflexivity.
    + reflexivity.
    + exists r'. by split.
Defined.


(** *** Registration *)

Lemma registerAgent_once (reg : t) (b : api.RegisterBody)
    (auth token rnd upd : string) (tReg tSeen : Z) :
  wf reg → api.rb_Hostname b ≠ "" → auth ≠ "" ∨ token ≠ "" →
  let host := api.rb_Hostname b in
  let info := APIRouter.new_info b host upd tReg tSeen in
  ∃ reg',
    APIRouter.registerAgent (Some b) auth token rnd upd tReg tSeen
      (APIRouter.mk (Some reg))
    = Some (api.Registered host, APIRouter.mk (Some reg')) ∧
    wf reg' ∧
    dom (agents reg') = {[ host ]} ∪ dom (agents reg) ∧
    at_key reg' host = Some info ∧
    ∀ id, id ≠ host → at_key reg' id = at_key reg id.
Proof.
  intros Hwf Hhost Hcred host info.
  unfold APIRouter.registerAgent. simpl.
  rewrite bool_decide_eq_false_2 by done.
  assert (Hc : bool_decide (auth = "") && bool_decide (token = "") = false).
  { apply andb_false_iff. destruct Hcred; [left|right]; by apply bool_decide_eq_false_2. }
  rewrite Hc. unfold Store.alloc, Register. simpl. rewrite lookup_insert_eq. simpl.
  eexists. split; [reflexivity|].
  set (p := fresh (dom (objs reg))).
  split_and!.
  - intros id q. simpl. intros [[_ <-]|[_ Hq]]%lookup_insert_Some.
    + rewrite lookup_insert_eq. by eexists.
    + destruct (Hwf id q Hq) as [x Hx].
      rewrite !lookup_insert_ne by (by eapply fresh_ne). by eexists.
  - simpl. by rewrite dom_insert_L.
  - unfold at_key. simpl. by rewrite !lookup_insert_eq.
  - intros id Hne. unfold at_key. simpl. rewrite lookup_insert_ne by done.
    destruct (agents reg !! id) as [q|] eqn:Hq; [|done].
    destruct (Hwf id q Hq) as [x Hx].
    by rewrite !lookup_insert_ne by (by eapply fresh_ne).
Qed.

(** C8.  A hostname is in the registry when it is a key of the map.  A
    registration with a non-empty hostname and a credential succeeds and
    returns the hostname as id, so registering the same hostname again
    returns the same id; the second registration adds no entry (the key set
    and the size of the map stay the same), replaces what the key stands for
    by the newly sent data, and leaves every other agent alone; a registered
    entry has its ID equal to the hostname, status "online", and
    registered_at and last_seen equal to the clock readings of the call. *)
Theorem registration_idempotent (reg : Registry.t) (b1 b2 : api.RegisterBody)
    (auth1 token1 rnd1 upd1 : string) (tReg1 tSeen1 : Z)
    (auth2 token2 rnd2 upd2 : string) (tReg2 tSeen2 : Z) :
  wf reg → api.rb_Hostname b1 ≠ "" → api.rb_Hostname b2 = api.rb_Hostname b1 →
  auth1 ≠ "" ∨ token1 ≠ "" → auth2 ≠ "" ∨ token2 ≠ "" →
  let host := api.rb_Hostname b1 in
  ∃ reg1 reg2,
    APIRouter.registerAgent (Some b1) auth1 token1 rnd1 upd1 tReg1 tSeen1
      (APIRouter.mk (Some reg))
    = Some (api.Registered host, APIRouter.mk (Some reg1)) ∧
    APIRouter.registerAgent (Some b2) auth2 token2 rnd2 upd2 tReg2 tSeen2
      (APIRouter.mk (Some reg1))
    = Some (api.Registered host, APIRouter.mk (Some reg2)) ∧
    dom (agents reg1) = {[ host ]} ∪ dom (agents reg) ∧
    dom (agents reg2) = dom (agents reg1) ∧
    size (agents reg2) = size (agents reg1) ∧
    at_key reg1 host = Some (APIRouter.new_info b1 host upd1 tReg1 tSeen1) ∧
    at_key reg2 host = Some (APIRouter.new_info b2 host upd2 tReg2 tSeen2) ∧
    (∀ id, id ≠ host → at_key reg2 id = at_key reg id) ∧
    (∀ b upd tReg tSeen,
       let a := APIRouter.new_info b host upd tReg tSeen in
       AgentInfo.ID a = host ∧ AgentInfo.Status a = "online" ∧
       AgentInfo.RegisteredAt a = tReg ∧ AgentInfo.LastSeen a = tSeen).
Proof.
  intros Hwf Hhost Heq Hc1 Hc2 host.
  destruct (registerAgent_once reg b1 auth1 token1 rnd1 upd1 tReg1 tSeen1 Hwf Hhost Hc1)
    as (reg1 & Hr1 & Hwf1 & Hdom1 & Hat1 & Hoth1).
  assert (Hhost2 : api.rb_Hostname b2 ≠ "") by congruence.
  destruct (registerAgent_once reg1 b2 auth2 token2 rnd2 upd2 tReg2 tSeen2 Hwf1 Hhost2 Hc2)
    as (reg2 & Hr2 & Hwf2 & Hdom2 & Hat2 & Hoth2).
  rewrite Heq in Hr2, Hdom2, Hat2, Hoth2.
  exists reg1, reg2. fold host in Hr1, Hr2, Hdom1, Hdom2, Hat1, Hat2, Hoth1, Hoth2.
  assert (Hd : dom (agents reg2) = dom (agents reg1)).
  { by rewrite Hdom2, Hdom1, (assoc_L (∪)), (idemp_L (∪)). }
  split_and!; try done.
  - by rewrite <- !size_dom, Hd.
  - intros id Hne. by rewrite Hoth2, Hoth1.
Qed.

Lemma registration_idempotent_witness :
  ∃ reg1 reg2,
    APIRouter.registerAgent (Some Demo.body1) "Bearer x" "" "aaaaaaaa" "" 10 11
      (APIRouter.mk (Some NewRegistry))
    = Some (api.Registered "h1", APIRouter.mk (Some reg1)) ∧
    APIRouter.registerAgent (Some Demo.body1') "Bearer x" "" "bbbbbbbb" "" 20 21
      (APIRouter.mk (Some reg1))
    = Some (api.Registered "h1", APIRouter.mk (Some reg2)) ∧
    size (agents reg2) = size (agents reg1) ∧
    AgentInfo.LastSeen <$> at_key reg2 "h1" = Some 21.
Proof.
  destruct (registration_idempotent NewRegistry Demo.body1 Demo.body1'
              "Bearer x" "" "aaaaaaaa" "" 10 11 "Bearer x" "" "bbbbbbbb" "" 20 21)
    as (reg1 & reg2 & H1 & H2 & _ & _ & Hsz & _ & Hat & _).
  - apply (bool_decide_unpack _). vm_compute. exact I.
  - discriminate.
  - reflexivity.
  - left. discriminate.
  - left. discriminate.
  - exists reg1, reg2. split_and!; [exact H1|exact H2|exact Hsz|].
    exact (f_equal (fmap AgentInfo.LastSeen) Hat).
Defined.

(** *** Last-seen *)

Section LastSeen.
Import Requests.

Lemma seen_by_lookup t (reg : Registry.t) id p :
  seen_by t reg → agents reg !! id = Some p →
  ∃ a, objs reg !! p = Some a ∧ AgentInfo.LastSeen a ≤ t.
Proof.
  intros Hs Hp. specialize (Hs id p Hp). unfold seen_before in Hs. simpl in Hs.
  destruct (objs reg !! p) as [a|]; [|done]. exists a. split; [done|]. lia.
Qed.

Lemma seen_by_intro t (reg : Registry.t) :
  (∀ id p, agents reg !! id = Some p →
     ∃ a, objs reg !! p = Some a ∧ AgentInfo.LastSeen a ≤ t) →
  seen_by t reg.
Proof.
  intros H id p Hp. destruct (H id p Hp) as (a & Ha & Hle).
  unfold seen_before. simpl. rewrite Ha. lia.
Qed.

Lemma seen_by_wf t (reg : Registry.t) : seen_by t reg → wf reg.
Proof.
  intros Hs id p Hp. destruct (seen_by_lookup t reg id p Hs Hp) as (a & Ha & _).
  by eexists.
Qed.

Lemma advances_refl t0 t (reg : Registry.t) : seen_by t0 reg → advances t reg reg.
Proof.
  intros Hs. split; [done|]. intros id p Hp.
  destruct (seen_by_lookup t0 reg id p Hs Hp) as (a & Ha & _).
  exists a. split; [done|]. right. exists a. unfold at_key. by rewrite Hp.
Qed.

(** The two consequences of [advances] under a clock that moved on. *)
Lemma advances_seen t0 t1 (reg reg' : Registry.t) :
  t0 ≤ t1 → seen_by t0 reg → advances t1 reg reg' →
  seen_by t1 reg' ∧
  ∀ id a a', at_key reg id = Some a → at_key reg' id = Some a' →
             AgentInfo.LastSeen a ≤ AgentInfo.LastSeen a'.
Proof.
  intros Hle Hs [Hkeys Hadv]. split.
  - apply seen_by_intro. intros id p' Hp'.
    destruct (Hadv id p' Hp') as (a' & Ha' & [Heq|(a & Ha & Heq)]).
    + exists a'. split; [done|]. lia.
    + exists a'. split; [done|]. unfold at_key in Ha.
      destruct (agents reg !! id) as [p|] eqn:Hp; [|done].
      destruct (seen_by_lookup t0 reg id p Hs Hp) as (a0 & Ha0 & Hle0).
      assert (a0 = a) by congruence. subst. lia.
  - intros id a a' Ha Ha'. unfold at_key in Ha, Ha'.
    destruct (agents reg !! id) as [p|] eqn:Hp; [|done].
    destruct (agents reg' !! id) as [p'|] eqn:Hp'; [|done].
    destruct (Hadv id p' Hp') as (a1 & Ha1 & [Heq|(a0 & Ha0 & Heq)]).
    + assert (a1 = a') by congruence. subst.
      destruct (seen_by_lookup t0 reg id p Hs Hp) as (a0 & Ha0 & Hle0).
      assert (a0 = a) by congruence. subst. lia.
    + assert (a1 = a') by congruence. subst.
      unfold at_key in Ha0. rewrite Hp in Ha0.
      assert (a0 = a) by congruence. subst. lia.
Qed.

(** [Register] of a new object whose last-seen is [t]. *)
Lemma advances_register t0 t (reg : Registry.t) (info : AgentInfo.t) :
  seen_by t0 reg → AgentInfo.LastSeen info = t →
  let p := fresh (dom (objs reg)) in
  ∃ id reg',
    Register p (mk (<[p := info]> (objs reg)) (agents reg) (logger reg)) = Some (id, reg') ∧
    advances t reg reg'.
Proof.
  intros Hs Ht p. unfold Register. simpl. rewrite lookup_insert_eq.
  eexists _, _. split; [reflexivity|]. split; simpl.
  - intros id [q Hq]. destruct (decide (AgentInfo.Hostname info = id)) as [->|Hne].
    + rewrite lookup_insert_eq. by eexists.
    + rewrite lookup_insert_ne by done. by eexists.
  - intros id q [[<- <-]|[Hne Hq]]%lookup_insert_Some.
    + rewrite lookup_insert_eq. eexists. split; [done|]. by left.
    + destruct (seen_by_lookup t0 reg id q Hs Hq) as (a & Ha & _).
      rewrite !lookup_insert_ne by (by eapply fresh_ne).
      exists a. split; [done|]. right. exists a. unfold at_key. by rewrite Hq.
Qed.

(** [Update] with an object whose last-seen is [t], in a store that differs
    from the registry's at most at [p], where it holds last-seen [t]. *)
Lemma advances_update t0 t (reg : Registry.t) (id : string) (p : loc)
    (os : gmap nat AgentInfo.t) (a : AgentInfo.t) :
  seen_by t0 reg → AgentInfo.LastSeen a = t →
  os !! p = Some a →
  (∀ q, q ≠ p → os !! q = objs reg !! q) →
  ∃ reg', Update id p (mk os (agents reg) (logger reg)) = Some reg' ∧
          advances t reg reg'.
Proof.
  intros Hs Ht Hp Hoth. unfold Update. simpl.
  assert (Hlive : ∀ id' q, agents reg !! id' = Some q →
            ∃ x, os !! q = Some x ∧
                 (AgentInfo.LastSeen x = t ∨
                  ∃ a0, at_key reg id' = Some a0 ∧
                        AgentInfo.LastSeen x = AgentInfo.LastSeen a0)).
  { intros id' q Hq. destruct (decide (q = p)) as [->|Hne].
    - exists a. split; [done|]. by left.
    - destruct (seen_by_lookup t0 reg id' q Hs Hq) as (x & Hx & _).
      exists x. rewrite Hoth by done. split; [done|]. right. exists x.
      unfold at_key. by rewrite Hq. }
  destruct (agents reg !! id) as [e|] eqn:He.
  - destruct (Hlive id e He) as (x & Hx & _). rewrite Hx, Hp.
    eexists. split; [reflexivity|]. split; simpl; [done|].
    intros id' q Hq. destruct (decide (q = e)) as [->|Hne].
    + rewrite lookup_insert_eq. eexists. split; [done|]. by left.
    + rewrite lookup_insert_ne by done. by apply Hlive.
  - eexists. split; [reflexivity|]. split; simpl; [done|]. exact Hlive.
Qed.

Lemma touch_LastSeen hb now a :
  AgentInfo.LastSeen (APIRouter.touch hb now a) = now.
Proof.
  unfold APIRouter.touch. destruct (api.hb_SystemInfo hb) as [si|]; [|done].
  unfold APIRouter.apply_system_info.
  repeat match goal with
         | |- context [match ?x with _ => _ end] => destruct x
         end; reflexivity.
Qed.

Lemma find_hostname_spec hostname (os : gmap nat AgentInfo.t) (l : list loc) :
  Forall (λ p, is_Some (os !! p)) l →
  ∃ res, APIRouter.find_hostname hostname os l = Some res ∧
         ∀ p, res.1 = Some p → p ∈ l.
Proof.
  induction 1 as [|p l [a Ha] _ (res & Hres & Hin)]; simpl.
  - eexists. split; [done|]. by intros ? [=].
  - rewrite Ha. destruct (bool_decide _).
    + eexists. split; [done|]. simpl. intros ? [= <-]. apply list_elem_of_here.
    + exists res. split; [done|]. intros q Hq. apply list_elem_of_further. auto.
Qed.


Lemma nondecreasing_app t (l1 l2 : list Z) :
  nondecreasing t (l1 ++ l2) = nondecreasing t l1 && nondecreasing (final t l1) l2.
Proof.
  revert t. induction l1 as [|x l1 IH]; intros t; simpl; [done|].
  by rewrite IH, andb_assoc.
Qed.

Lemma final_app t (l1 l2 : list Z) : final t (l1 ++ l2) = final (final t l1) l2.
Proof. revert t. induction l1 as [|x l1 IH]; intros t; simpl; [done|]. apply IH. Qed.

Lemma nondecreasing_final t (l : list Z) : nondecreasing t l = true → t ≤ final t l.
Proof.
  revert t. induction l as [|x l IH]; intros t; simpl; [lia|].
  intros [Htx Hl]%andb_true_iff. apply Z.leb_le in Htx. specialize (IH x Hl). lia.
Qed.

Lemma stale_fix_LastSeen now a : AgentInfo.LastSeen (stale_fix now a) = AgentInfo.LastSeen a.
Proof. unfold stale_fix. by destruct (_ <? _). Qed.

Lemma serve_step t0 (q : request) (reg : Registry.t) :
  seen_by t0 reg → nondecreasing t0 (readings q) = true →
  ∃ reg', serve q reg = Some reg' ∧ advances (final t0 (readings q)) reg reg'.
Proof.
  intros Hs Hclock. destruct q as [body auth token rnd upd tReg tSeen
                                  |agentID body now
                                  |body auth tReg tSeen
                                  |body now
                                  |now]; simpl.
  - (* APIRouter.registerAgent *)
    unfold APIRouter.registerAgent.
    destruct body as [b|]; [|exists reg; split; [done|by eapply advances_refl]].
    destruct (bool_decide (api.rb_Hostname b = ""));
      [exists reg; split; [done|by eapply advances_refl]|].
    destruct (bool_decide (auth = "") && bool_decide (token = ""));
      [exists reg; split; [done|by eapply advances_refl]|].
    simpl. unfold Store.alloc.
    destruct (advances_register t0 tSeen reg
                (APIRouter.new_info b (api.rb_Hostname b +:+ "-" +:+ rnd) upd tReg tSeen)
                Hs eq_refl) as (id & reg' & Hreg & Hadv).
    rewrite Hreg. by exists reg'.
  - (* APIRouter.agentHeartbeat *)
    unfold APIRouter.agentHeartbeat.
    destruct body as [hb|]; [|exists reg; split; [done|by eapply advances_refl]].
    simpl.
    assert (Hfound : ∃ o id',
      (if bool_decide (agentID = "") then
         match api.hb_SystemInfo hb with
         | Some si =>
             match si !! "hostname" with
             | Some (api.JString hostname) =>
                 if bool_decide (hostname = "") then Some (None, agentID)
                 else APIRouter.find_hostname hostname (objs reg) (List reg)
             | _ => Some (None, agentID)
             end
         | None => Some (None, agentID)
         end
       else Some (Get agentID reg, agentID)) = Some (o, id') ∧
      ∀ p, o = Some p → ∃ key, agents reg !! key = Some p).
    { destruct (bool_decide (agentID = "")).
      - destruct (api.hb_SystemInfo hb) as [si|];
          [|by eexists _, _; split; [done|intros ? [=]]].
        destruct (si !! "hostname") as [[hostname| |]|];
          try (by eexists _, _; split; [done|intros ? [=]]).
        destruct (bool_decide (hostname = ""));
          [by eexists _, _; split; [done|intros ? [=]]|].
        destruct (find_hostname_spec hostname (objs reg) (List reg))
          as ([o id'] & Hres & Hin).
        { apply Forall_forall. intros p Hp. unfold List in Hp.
          apply list_elem_of_fmap in Hp as ([key p'] & -> & Hkp).
          apply elem_of_map_to_list in Hkp. simpl.
          destruct (seen_by_lookup t0 reg key p' Hs Hkp) as (a & Ha & _). by eexists. }
        exists o, id'. split; [done|]. intros p ->.
        specialize (Hin p eq_refl). unfold List in Hin.
        apply list_elem_of_fmap in Hin as ([key p'] & -> & Hkp).
        apply elem_of_map_to_list in Hkp. by exists key.
      - eexists _, _. split; [done|]. intros p Hp. by exists agentID. }
    destruct Hfound as (o & id' & -> & Hreach).
    destruct o as [p|]; [|exists reg; split; [done|by eapply advances_refl]].
    destruct (Hreach p eq_refl) as [key Hkey].
    destruct (seen_by_lookup t0 reg key p Hs Hkey) as (a & Ha & _).
    rewrite Ha.
    destruct (advances_update t0 now reg id' p
                (<[p := APIRouter.touch hb now a]> (objs reg))
                (APIRouter.touch hb now a) Hs (touch_LastSeen hb now a))
      as (reg' & Hupd & Hadv).
    { by rewrite lookup_insert_eq. }
    { intros q Hq. by rewrite lookup_insert_ne. }
    rewrite Hupd. by exists reg'.
  - (* Handler.RegisterAgent *)
    unfold Handler.RegisterAgent.
    destruct body as [a|]; [|exists reg; split; [done|by eapply advances_refl]].
    destruct (negb (String.prefix "Bearer " auth));
      [exists reg; split; [done|by eapply advances_refl]|].
    simpl. unfold Store.alloc.
    destruct (advances_register t0 tSeen reg
                (AgentInfo.set_Status "online"
                   (AgentInfo.set_LastSeen tSeen (AgentInfo.set_RegisteredAt tReg a)))
                Hs eq_refl) as (id & reg' & Hreg & Hadv).
    rewrite Hreg. by exists reg'.
  - (* Handler.Heartbeat *)
    unfold Handler.Heartbeat, Handler.Heartbeat_stamp.
    destruct body as [a|]; [|exists reg; split; [done|by eapply advances_refl]].
    unfold Handler.Heartbeat_commit, Store.alloc. simpl.
    set (x := AgentInfo.set_Status "online" (AgentInfo.set_LastSeen now a)).
    destruct (advances_update t0 now reg (AgentInfo.Hostname x)
                (fresh (dom (objs reg))) (<[fresh (dom (objs reg)) := x]> (objs reg))
                x Hs eq_refl) as (reg' & Hupd & Hadv).
    { by rewrite lookup_insert_eq. }
    { intros q Hq. by rewrite lookup_insert_ne. }
    change (AgentInfo.Hostname x) with (AgentInfo.Hostname a) in Hupd.
    rewrite Hupd. by exists reg'.
  - (* the sweep *)
    destruct (sweep_lookup now reg (seen_by_wf t0 reg Hs)) as (reg' & Hsw & Hag & Hin & _).
    exists reg'. split; [done|]. split; [by rewrite Hag|].
    intros id p Hp. rewrite Hag in Hp.
    destruct (seen_by_lookup t0 reg id p Hs Hp) as (a & Ha & _).
    assert (Hq : p ∈ List reg).
    { unfold List. apply list_elem_of_fmap. exists (id, p). split; [done|].
      by apply elem_of_map_to_list. }
    exists (stale_fix now a). rewrite (Hin p Hq), Ha. split; [done|]. right.
    exists a. unfold at_key. rewrite Hp. split; [done|]. apply stale_fix_LastSeen.
Qed.

(** C4 (as amended).  When registrations, heartbeats (of either API) and
    sweeps are served one after another, each from its first clock reading to
    its last write, and the clock never goes backwards, then serving never
    fails, no agent is lost, and the last-seen of every agent at the end is
    at least its last-seen at the start. *)
Theorem last_seen_monotone_when_serialized (t0 : Z) (qs : list request)
    (reg : Registry.t) :
  seen_by t0 reg → clock_ok t0 qs = true →
  ∃ reg', run qs reg = Some reg' ∧
          seen_by (final t0 (mjoin (readings <$> qs))) reg' ∧
          ∀ id a, at_key reg id = Some a →
            ∃ a', at_key reg' id = Some a' ∧
                  AgentInfo.LastSeen a ≤ AgentInfo.LastSeen a'.
Proof.
  unfold clock_ok. revert t0 reg.
  induction qs as [|q qs IH]; intros t0 reg Hs Hclock.
  - exists reg. simpl. split_and!; [done..|]. intros id a Ha. exists a. split; [done|lia].
  - rewrite fmap_cons in *. simpl in Hclock |- *.
    rewrite nondecreasing_app in Hclock. apply andb_true_iff in Hclock as [Hq Hrest].
    destruct (serve_step t0 q reg Hs Hq) as (reg1 & Hserve & Hadv).
    destruct (advances_seen t0 _ reg reg1 (nondecreasing_final _ _ Hq) Hs Hadv)
      as [Hs1 Hmono].
    destruct (IH _ reg1 Hs1 Hrest) as (reg' & Hrun & Hs' & Hmono').
    exists reg'. rewrite Hserve, final_app. split_and!; [done..|].
    intros id a Ha.
    assert (Hkey : is_Some (agents reg !! id)).
    { unfold at_key in Ha. destruct (agents reg !! id); [by eexists|done]. }
    destruct (proj1 Hadv id Hkey) as [p1 Hp1].
    destruct (seen_by_lookup _ reg1 id p1 Hs1 Hp1) as (a1 & Ha1 & _).
    assert (Hat1 : at_key reg1 id = Some a1) by (unfold at_key; by rewrite Hp1).
    destruct (Hmono' id a1 Hat1) as (a' & Ha' & Hle').
    exists a'. split; [done|]. specialize (Hmono id a a1 Ha Hat1). lia.
Qed.


Lemma last_seen_monotone_when_serialized_witness :
  seen_by (100 * time.Second) Demo.reg2 ∧
  clock_ok (100 * time.Second) Demo.requests = true ∧
  ∃ reg', run Demo.requests Demo.reg2 = Some reg' ∧
          ∀ id a, at_key Demo.reg2 id = Some a →
            ∃ a', at_key reg' id = Some a' ∧
                  AgentInfo.LastSeen a ≤ AgentInfo.LastSeen a'.
Proof.
  assert (Hs : seen_by (100 * time.Second) Demo.reg2)
    by (apply (bool_decide_unpack _); vm_compute; exact I).
  assert (Hc : clock_ok (100 * time.Second) Demo.requests = true) by reflexivity.
  split; [exact Hs|]. split; [exact Hc|].
  destruct (last_seen_monotone_when_serialized _ _ _ Hs Hc) as (reg' & Hrun & _ & Hmono).
  exists reg'. split; [exact Hrun|exact Hmono].
Defined.

(** C4 as stated fails.  Two heartbeats for "h1" read the clock at 400 s and
    at 500 s; the later one takes the registry lock first: last-seen becomes
    500 s and then falls back to 400 s.  And [Update] itself stores an older
    last-seen over a newer one. *)
Lemma last_seen_regresses :
  (∃ x1 x2 r1 h1 r2 h2,
     Handler.Heartbeat_stamp (Some Demo.agent1) (400 * time.Second) = Some x1 ∧
     Handler.Heartbeat_stamp (Some Demo.agent1) (500 * time.Second) = Some x2 ∧
     Handler.Heartbeat_commit x2 Demo.handler = Some (r1, h1) ∧
     Handler.Heartbeat_commit x1 h1 = Some (r2, h2) ∧
     AgentInfo.LastSeen <$> at_key (Handler.registry h1) "h1" = Some (500 * time.Second) ∧
     AgentInfo.LastSeen <$> at_key (Handler.registry h2) "h1" = Some (400 * time.Second)) ∧
  (∃ r', Update "h2" 0%nat Demo.reg2 = Some r' ∧
         AgentInfo.LastSeen <$> at_key Demo.reg2 "h2" = Some (100 * time.Second) ∧
         AgentInfo.LastSeen <$> at_key r' "h2" = Some 0).
Proof.
  split.
  - eexists _, _, _, _, _, _. split_and!; vm_compute; reflexivity.
  - eexists. split_and!; vm_compute; reflexivity.
Qed.

End LastSeen.

End RegistryClaims.

(** ** TaskExecutor *)

Section ExecutorClaims.
Import exec os TaskExecutor.

(** The command line [ExecuteCommand] builds. *)
Lemma ExecuteCommand_unfold (e : TaskExecutor.t) command timeout env fs :
  ExecuteCommand e command timeout env fs
  = finish "command" env (timeout_of e timeout)
      (CombinedOutput (GOOS env) (timeout_of e timeout)
         (run env (if bool_decide (GOOS env = "windows")
                   then mkCmd "cmd" ["/c"; command]
                   else mkCmd "sh" ["-c"; command]) fs)).
Proof. reflexivity. Qed.

Lemma needs_reached (p : Process) : Z.of_N (reached p) < needs p.
Proof. unfold needs. lia. Qed.

(** A process that would complete by the deadline is started and
    completes. *)
Lemma fate_completed (t : Z) (p : Process) :
  start_error p = None → needs p ≤ t → fate_of t p = Completed.
Proof.
  intros Hstart Hneeds. unfold fate_of. rewrite Hstart.
  pose proof (needs_reached p).
  destruct (Z.leb_spec t (Z.of_N (reached p))); [lia|].
  destruct (Z.leb_spec (needs p) t); [done|lia].
Qed.

Lemma fate_killed (t : Z) (p : Process) :
  start_error p = None → Z.of_N (reached p) < t → t < needs p → fate_of t p = Killed.
Proof.
  intros Hstart Hreached Hneeds. unfold fate_of. rewrite Hstart.
  destruct (Z.leb_spec t (Z.of_N (reached p))); [lia|].
  destruct (Z.leb_spec (needs p) t); [lia|done].
Qed.

(** A context that is done when Start looks at it refuses every program
    that was found. *)
Lemma fate_deadline (t : Z) (p : Process) :
  (∀ msg, start_error p ≠ Some (LookPath msg)) → t ≤ Z.of_N (reached p) →
  fate_of t p = Refused DeadlineExceeded.
Proof.
  intros Hfound Ht. unfold fate_of.
  destruct (start_error p) as [[msg|msg]|]; [by destruct (Hfound msg)|..];
    by destruct (Z.leb_spec t (Z.of_N (reached p))); [|lia].
Qed.

Lemma killed_state_no_timeout (goos : string) :
  indicates_timeout (killed_state goos) = false.
Proof. unfold killed_state. by destruct (bool_decide (goos = "windows")). Qed.

(** Within the deadline, success is a zero exit status. *)
Lemma ExecuteCommand_within_deadline (e : TaskExecutor.t) command timeout env fs :
  let t := timeout_of e timeout in
  let p := run env (if bool_decide (GOOS env = "windows")
                    then mkCmd "cmd" ["/c"; command]
                    else mkCmd "sh" ["-c"; command]) fs in
  start_error p = None → needs p ≤ t →
  TaskResult.Success (ExecuteCommand e command timeout env fs).1 = (code p =? 0) ∧
  TaskResult.Output (ExecuteCommand e command timeout env fs).1 = output p.
Proof.
  intros t p Hstart Hneeds. rewrite ExecuteCommand_unfold. fold t. fold p.
  unfold CombinedOutput. rewrite (fate_completed t p Hstart Hneeds).
  by destruct (code p =? 0).
Qed.

(** C6, where the code departs from it.  A command that is found, started
    before the deadline and still running at the deadline is killed;
    [CombinedOutput] then returns an [*exec.ExitError], not
    [context.DeadlineExceeded], so the comparison in [ExecuteCommand] is
    false and the result is a failure whose error text is the state of the
    killed process ("signal: killed", on windows "exit status 1"), in which
    nothing speaks of a timeout.  The text "command timeout after ..." is
    produced only when the deadline has passed before the process is
    started.  A command that completes within the deadline succeeds exactly
    when its exit status is 0. *)
Theorem ExecuteCommand_deadline_is_generic_failure
    (e : TaskExecutor.t) (command : string) (timeout : Z)
    (env : Env) (fs : gmap string File) :
  let t := timeout_of e timeout in
  let p := run env (if bool_decide (GOOS env = "windows")
                    then mkCmd "cmd" ["/c"; command]
                    else mkCmd "sh" ["-c"; command]) fs in
  let res := ExecuteCommand e command timeout env fs in
  start_error p = None →
  (Z.of_N (reached p) < t → t < needs p →
   TaskResult.Success res.1 = false ∧
   TaskResult.Error res.1 = killed_state (GOOS env) ∧
   res.2 = Some (ExitError (killed_state (GOOS env))) ∧
   indicates_timeout (TaskResult.Error res.1) = false) ∧
  (t ≤ Z.of_N (reached p) →
   TaskResult.Success res.1 = false ∧
   TaskResult.Error res.1 = "command timeout after " +:+ DurationString env t ∧
   indicates_timeout (TaskResult.Error res.1) = true) ∧
  (needs p ≤ t → TaskResult.Success res.1 = (code p =? 0)).
Proof.
  intros t p res Hstart. subst res. rewrite ExecuteCommand_unfold. fold t. fold p.
  unfold CombinedOutput. split_and!.
  - intros Hreached Hneeds. rewrite (fate_killed t p Hstart Hreached Hneeds).
    cbn [finish fst snd TaskResult.Success TaskResult.Error exec.Error].
    split_and!; [done..|]. apply killed_state_no_timeout.
  - intros Ht. rewrite (fate_deadline t p); [|by rewrite Hstart|done].
    cbn [finish fst snd TaskResult.Success TaskResult.Error].
    split_and!; reflexivity.
  - intros Hneeds. rewrite (fate_completed t p Hstart Hneeds).
    by destruct (code p =? 0).
Qed.

Lemma ExecuteCommand_deadline_is_generic_failure_witness :
  ExecuteCommand Demo.executor "sleep 10" 1 Demo.machine ∅
  = (TaskResult.mk "" false "" "signal: killed", Some (ExitError "signal: killed")) ∧
  indicates_timeout
    (TaskResult.Error (ExecuteCommand Demo.executor "sleep 10" 1 Demo.machine ∅).1)
  = false.
Proof.
  split; [reflexivity|].
  pose proof (ExecuteCommand_deadline_is_generic_failure
                Demo.executor "sleep 10" 1 Demo.machine ∅) as H.
  cbv zeta in H. destruct (H eq_refl) as (Hkilled & _).
  destruct Hkilled as (_ & _ & _ & Hno); [vm_compute; reflexivity..|exact Hno].
Defined.

Lemma CreateTemp_try_spec dir prefix suffix (rs : list string)
    (fs fs1 : gmap string File) (name : string) :
  CreateTemp_try dir prefix suffix rs fs = inr (name, fs1) →
  fs !! name = None ∧ fs1 = <[name := mkFile perm_0600 ""]> fs ∧
  ∃ r, r ∈ rs ∧ name = dir +:+ "/" +:+ prefix +:+ r +:+ suffix.
Proof.
  induction rs as [|r rs IH]; simpl; [done|].
  destruct (fs !! (dir +:+ "/" +:+ prefix +:+ r +:+ suffix)) eqn:Hlook.
  - intros H. destruct (IH H) as (H1 & H2 & r' & Hr' & Hn).
    split_and!; [done..|]. exists r'. split; [by apply list_elem_of_further|done].
  - intros [= <- <-]. split_and!; [done..|]. exists r.
    split; [apply list_elem_of_here|done].
Qed.


Lemma Remove_back (env : Env) name f (fs : gmap string File) :
  remove_error env = None → fs !! name = None →
  (Remove env name (<[name := f]> fs)).2 = fs.
Proof.
  intros H Hfresh. unfold Remove. rewrite H. cbn [snd].
  by rewrite delete_insert_eq, delete_id.
Qed.



End ExecutorClaims.

(** * Further properties *)

(** ** Registry and its handlers *)

Section RegistryMore.
Import Registry RegistryInv.

(** X1.  [Register] of a live object stores it under its hostname: the id
    returned is the hostname, [Get] of that id gives the same pointer back,
    the object now carries the id as its ID, the pointer is in [List], and
    no other key and no other object changes. *)
Theorem Register_then_Get (agent : loc) (a : AgentInfo.t) (r : Registry.t) :
  objs r !! agent = Some a →
  ∃ r', Register agent r = Some (AgentInfo.Hostname a, r') ∧
        Get (AgentInfo.Hostname a) r' = Some agent ∧
        at_key r' (AgentInfo.Hostname a)
        = Some (AgentInfo.set_ID (AgentInfo.Hostname a) a) ∧
        agent ∈ List r' ∧
        (∀ id, id ≠ AgentInfo.Hostname a → Get id r' = Get id r) ∧
        (∀ q, q ≠ agent → objs r' !! q = objs r !! q).
Proof.
  intros Ha. unfold Register. rewrite Ha. eexists. split; [reflexivity|].
  unfold Get, at_key, List. simpl. rewrite !lookup_insert_eq. split_and!; [done..| | |].
  - apply list_elem_of_fmap. exists (AgentInfo.Hostname a, agent). split; [done|].
    apply elem_of_map_to_list. apply lookup_insert_eq.
  - intros id Hne. by rewrite lookup_insert_ne.
  - intros q Hne. by rewrite lookup_insert_ne.
Qed.

Lemma Register_then_Get_witness :
  objs Demo.reg2 !! 1%nat = Some Demo.agent2 ∧
  ∃ r', Register 1%nat Demo.reg2 = Some ("h2", r') ∧ Get "h2" r' = Some 1%nat.
Proof.
  assert (H : objs Demo.reg2 !! 1%nat = Some Demo.agent2) by reflexivity.
  split; [exact H|].
  destruct (Register_then_Get 1%nat Demo.agent2 Demo.reg2 H) as (r' & H1 & H2 & _).
  exists r'. split; [exact H1|exact H2].
Defined.

Lemma touch_ID hb now a : AgentInfo.ID (APIRouter.touch hb now a) = AgentInfo.ID a.
Proof.
  unfold APIRouter.touch. destruct (api.hb_SystemInfo hb) as [si|]; [|done].
  unfold APIRouter.apply_system_info.
  repeat match goal with
         | |- context [match ?x with _ => _ end] => destruct x
         end; reflexivity.
Qed.

Lemma touch_Status hb now a :
  AgentInfo.Status (APIRouter.touch hb now a)
  = if bool_decide (api.hb_Status hb = "") then "online" else api.hb_Status hb.
Proof.
  unfold APIRouter.touch. destruct (api.hb_SystemInfo hb) as [si|]; [|done].
  unfold APIRouter.apply_system_info.
  repeat match goal with
         | |- context [match ?x with _ => _ end] => destruct x
         end; reflexivity.
Qed.

(** X2.  A heartbeat for an id that is in the registry answers 200 and
    leaves under that id the agent with last-seen set to the clock reading
    and status set to the status the heartbeat carries, "online" when it
    carries none; the status string is stored as it comes.  This holds right
    after a sweep too: an agent the sweep has just set offline is set
    online again by its next heartbeat. *)
Theorem heartbeat_after_sweep (reg : Registry.t) (id : string)
    (hb : api.HeartbeatData) (tSweep now : Z) :
  wf reg → id ≠ "" → is_Some (agents reg !! id) →
  ∃ reg1 reg2 a,
    sweep tSweep reg = Some reg1 ∧
    APIRouter.agentHeartbeat id (Some hb) now (APIRouter.mk (Some reg1))
    = Some (api.HeartbeatOK id, APIRouter.mk (Some reg2)) ∧
    at_key reg2 id = Some a ∧
    AgentInfo.LastSeen a = now ∧
    AgentInfo.Status a
    = (if bool_decide (api.hb_Status hb = "") then "online" else api.hb_Status hb) ∧
    AgentInfo.ID a = id ∧
    agents reg2 = agents reg.
Proof.
  intros Hwf Hid [p Hp].
  destruct (sweep_lookup tSweep reg Hwf) as (reg1 & Hs & Hag & _).
  assert (Hwf1 : wf reg1) by (by eapply sweep_wf).
  assert (Hp1 : agents reg1 !! id = Some p) by (by rewrite Hag).
  destruct (Hwf1 id p Hp1) as [a1 Ha1].
  exists reg1.
  unfold APIRouter.agentHeartbeat. simpl.
  rewrite bool_decide_eq_false_2 by done. unfold Get. rewrite Hp1, Ha1.
  unfold Update. simpl. rewrite Hp1, lookup_insert_eq.
  eexists _, _. split_and!; [done|reflexivity| | | | |].
  - unfold at_key. simpl. rewrite Hp1, lookup_insert_eq. reflexivity.
  - simpl. apply touch_LastSeen.
  - simpl. apply touch_Status.
  - reflexivity.
  - simpl. done.
Qed.

Lemma heartbeat_after_sweep_witness :
  ∃ reg1 reg2 a,
    sweep (400 * time.Second) Demo.reg2 = Some reg1 ∧
    AgentInfo.Status <$> at_key reg1 "h1" = Some "offline" ∧
    APIRouter.agentHeartbeat "h1" (Some (api.mkHeartbeatData "" None []))
      (401 * time.Second) (APIRouter.mk (Some reg1))
    = Some (api.HeartbeatOK "h1", APIRouter.mk (Some reg2)) ∧
    at_key reg2 "h1" = Some a ∧ AgentInfo.Status a = "online".
Proof.
  destruct (heartbeat_after_sweep Demo.reg2 "h1" (api.mkHeartbeatData "" None [])
              (400 * time.Second) (401 * time.Second))
    as (reg1 & reg2 & a & Hs & Hhb & Hat & _ & Hst & _).
  - apply (bool_decide_unpack _). vm_compute. exact I.
  - discriminate.
  - eexists. reflexivity.
  - exists reg1, reg2, a. split_and!; [exact Hs| |exact Hhb|exact Hat|exact Hst].
    vm_compute in Hs. injection Hs as <-. reflexivity.
Defined.


(** *** The shape kept by the handlers *)

Lemma keyed_wf (reg : Registry.t) : keyed reg → wf reg.
Proof. intros [Hk _] id p Hp. destruct (Hk id p Hp) as (a & Ha & _). by eexists. Qed.

Lemma keyed_Register_fresh (reg : Registry.t) (info : AgentInfo.t) id r' :
  keyed reg →
  Register (fresh (dom (objs reg)))
    (mk (<[fresh (dom (objs reg)) := info]> (objs reg)) (agents reg) (logger reg))
  = Some (id, r') →
  keyed r'.
Proof.
  intros [Hk Hinj]. unfold Register. simpl. rewrite lookup_insert_eq.
  intros [= <- <-]. set (p := fresh (dom (objs reg))).
  assert (Hfresh : ∀ k, agents reg !! k ≠ Some p).
  { intros k Hkp. destruct (Hk k p Hkp) as (a & Ha & _).
    by apply (fresh_ne (objs reg) p a Ha). }
  split; simpl.
  - intros k q [[<- <-]|[Hne Hq]]%lookup_insert_Some.
    + rewrite lookup_insert_eq. by eexists.
    + destruct (Hk k q Hq) as (a & Ha & Hid).
      rewrite !lookup_insert_ne by (by eapply fresh_ne). by exists a.
  - intros k1 k2 q [[<- <-]|[Hne1 Hq1]]%lookup_insert_Some
                    [[<- Heq]|[Hne2 Hq2]]%lookup_insert_Some; try done.
    + by destruct (Hfresh k2).
    + subst q. by destruct (Hfresh k1).
    + by eapply Hinj.
Qed.

Lemma keyed_Update (os : gmap nat AgentInfo.t) ag lg id p a r' :
  keyed (mk os ag lg) → os !! p = Some a →
  Update id p (mk os ag lg) = Some r' → keyed r'.
Proof.
  intros [Hk Hinj] Hp. unfold Update. simpl in *.
  destruct (ag !! id) as [e|] eqn:He; [|by intros [= <-]].
  destruct (Hk id e He) as (x & Hx & _). rewrite Hx, Hp. intros [= <-].
  split; simpl; [|done].
  intros k q Hq. destruct (decide (q = e)) as [->|Hne].
  - rewrite lookup_insert_eq. eexists. split; [done|]. simpl. by eapply Hinj.
  - rewrite lookup_insert_ne by done. by apply Hk.
Qed.

Lemma stale_fix_ID now a : AgentInfo.ID (stale_fix now a) = AgentInfo.ID a.
Proof. unfold stale_fix. by destruct (_ <? _). Qed.

Lemma keyed_serve (q : Requests.request) (reg reg' : Registry.t) :
  keyed reg → Requests.serve q reg = Some reg' → keyed reg'.
Proof.
  intros Hkeyed. pose proof Hkeyed as [Hk Hinj].
  destruct q as [body auth token rnd upd tReg tSeen
                |agentID body now
                |body auth tReg tSeen
                |body now
                |now]; simpl.
  - unfold APIRouter.registerAgent.
    destruct body as [b|]; [|by intros [= <-]].
    destruct (bool_decide (api.rb_Hostname b = "")); [by intros [= <-]|].
    destruct (bool_decide (auth = "") && bool_decide (token = "")); [by intros [= <-]|].
    simpl. unfold Store.alloc.
    destruct (Register _ _) as [[id r1]|] eqn:Hreg; [|done].
    intros [= <-]. by eapply keyed_Register_fresh.
  - unfold APIRouter.agentHeartbeat.
    destruct body as [hb|]; [|by intros [= <-]]. simpl.
    match goal with
    | |- match match ?f with _ => _ end with _ => _ end = _ → _ =>
        destruct f as [[[p|] id']|] eqn:Hfound
    end; [|by intros [= <-]|done].
    destruct (objs reg !! p) as [a|] eqn:Ha; [|done].
    destruct (Update _ _ _) as [r2|] eqn:Hupd; [|done]. intros [= <-].
    eapply keyed_Update; [|apply lookup_insert_eq|exact Hupd].
    split; simpl; [|done].
    intros k q Hq. destruct (decide (q = p)) as [->|Hne].
    + rewrite lookup_insert_eq. eexists. split; [done|].
      rewrite touch_ID. destruct (Hk k p Hq) as (a0 & Ha0 & Hid). congruence.
    + rewrite lookup_insert_ne by done. by apply Hk.
  - unfold Handler.RegisterAgent.
    destruct body as [a|]; [|by intros [= <-]].
    destruct (negb (String.prefix "Bearer " auth)); [by intros [= <-]|].
    simpl. unfold Store.alloc.
    destruct (Register _ _) as [[id r1]|] eqn:Hreg; [|done].
    intros [= <-]. simpl. by eapply keyed_Register_fresh.
  - unfold Handler.Heartbeat, Handler.Heartbeat_stamp.
    destruct body as [a|]; [|by intros [= <-]].
    unfold Handler.Heartbeat_commit, Store.alloc. simpl.
    destruct (Update _ _ _) as [r2|] eqn:Hupd; [|done]. intros [= <-]. simpl.
    eapply keyed_Update; [|apply lookup_insert_eq|exact Hupd].
    split; simpl; [|done].
    intros k q Hq. destruct (Hk k q Hq) as (x & Hx & Hid).
    rewrite lookup_insert_ne by (by eapply fresh_ne). by exists x.
  - intros Hs. destruct (sweep_lookup now reg (keyed_wf reg Hkeyed))
      as (r0 & Hs0 & Hag & Hin & _).
    rewrite Hs in Hs0. injection Hs0 as <-.
    split; [|by rewrite Hag].
    intros k q Hq. rewrite Hag in Hq. destruct (Hk k q Hq) as (x & Hx & Hid).
    assert (Hl : q ∈ List reg).
    { unfold List. apply list_elem_of_fmap. exists (k, q). split; [done|].
      by apply elem_of_map_to_list. }
    rewrite (Hin q Hl), Hx. eexists. split; [done|]. by rewrite stale_fix_ID.
Qed.

(** X3.  Whatever registrations, heartbeats (of either API) and sweeps are
    served, starting from a registry in which every key holds its own live
    object whose ID is the key (the new registry is one), the registry stays
    so: [Get id] never returns an agent whose ID differs from [id], and no
    agent is reachable under two ids. *)
Theorem handlers_keep_ids_keyed (qs : list Requests.request) (reg reg' : Registry.t) :
  keyed reg → Requests.run qs reg = Some reg' →
  keyed reg' ∧
  ∀ id p, Get id reg' = Some p →
    ∃ a, objs reg' !! p = Some a ∧ AgentInfo.ID a = id.
Proof.
  revert reg. induction qs as [|q qs IH]; intros reg Hk; simpl.
  - intros [= <-]. split; [done|]. apply Hk.
  - destruct (Requests.serve q reg) as [reg1|] eqn:Hserve; [|done].
    apply IH. by eapply keyed_serve.
Qed.

Lemma handlers_keep_ids_keyed_witness :
  keyed NewRegistry ∧
  ∃ reg', Requests.run Demo.requests NewRegistry = Some reg' ∧
          ∀ id p, Get id reg' = Some p →
            ∃ a, objs reg' !! p = Some a ∧ AgentInfo.ID a = id.
Proof.
  assert (Hk : keyed NewRegistry).
  { split; intros ? *; simpl; rewrite lookup_empty; discriminate. }
  split; [exact Hk|].
  eexists. split; [vm_compute; reflexivity|].
  refine (proj2 (handlers_keep_ids_keyed Demo.requests NewRegistry _ Hk _)).
  vm_compute. reflexivity.
Defined.

End RegistryMore.

(** ** The other handlers of router.go *)

Section RoutesMore.
Import Registry routes.

(** X4.  After a successful registration, [getAgent] of the returned id
    answers 200 with the fields just registered (status "online", the two
    clock readings); [getAgent] of an id that is not a key answers 404, and
    so does every [getAgent] when the router has no registry. *)
Theorem getAgent_after_registerAgent (reg : Registry.t) (b : api.RegisterBody)
    (auth token rnd upd : string) (tReg tSeen : Z) :
  wf reg → api.rb_Hostname b ≠ "" → auth ≠ "" ∨ token ≠ "" →
  ∃ r',
    APIRouter.registerAgent (Some b) auth token rnd upd tReg tSeen
      (APIRouter.mk (Some reg))
    = Some (api.Registered (api.rb_Hostname b), r') ∧
    getAgent (api.rb_Hostname b) r'
    = Some (AgentFound
              (mkAgentView (api.rb_Hostname b) (api.rb_Hostname b) "online"
                 (api.rb_CPUType b) (api.rb_CPULogic b) (api.rb_Memory b)
                 tSeen tReg)) ∧
    (∀ id, agents reg !! id = None → id ≠ api.rb_Hostname b →
           getAgent id r' = Some AgentNotFound) ∧
    (∀ id, getAgent id (APIRouter.mk None) = Some AgentNotFound).
Proof.
  intros Hwf Hhost Hcred.
  destruct (registerAgent_once reg b auth token rnd upd tReg tSeen Hwf Hhost Hcred)
    as (reg' & Hreg & Hwf' & Hdom & Hat & Hoth).
  exists (APIRouter.mk (Some reg')). split; [exact Hreg|]. split_and!.
  - unfold getAgent, Get. simpl. unfold at_key in Hat.
    destruct (agents reg' !! api.rb_Hostname b) as [p|]; [|done].
    by rewrite Hat.
  - intros id Hnone Hne. unfold getAgent, Get. simpl.
    assert (Hd : id ∉ dom (agents reg')).
    { rewrite Hdom. apply not_elem_of_union. split.
      - by apply not_elem_of_singleton.
      - by apply not_elem_of_dom. }
    apply not_elem_of_dom in Hd. by rewrite Hd.
  - done.
Qed.

Lemma getAgent_after_registerAgent_witness :
  ∃ r',
    APIRouter.registerAgent (Some Demo.body1) "Bearer x" "" "aaaaaaaa" "" 10 11
      (APIRouter.mk (Some NewRegistry))
    = Some (api.Registered "h1", r') ∧
    getAgent "h1" r'
    = Some (AgentFound (mkAgentView "h1" "h1" "online" "x86" 8 "16G" 11 10)).
Proof.
  destruct (getAgent_after_registerAgent NewRegistry Demo.body1
              "Bearer x" "" "aaaaaaaa" "" 10 11) as (r' & H1 & H2 & _).
  - apply (bool_decide_unpack _). vm_compute. exact I.
  - discriminate.
  - left. discriminate.
  - exists r'. split; [exact H1|exact H2].
Defined.

Lemma count_status_spec (os : gmap nat AgentInfo.t) (l : list loc) (acc : Z * Z) :
  Forall (λ p, is_Some (os !! p)) l →
  ∃ on off,
    count_status os l acc = Some (acc.1 + on, acc.2 + off) ∧
    on = Z.of_nat (length (filter (λ p, AgentInfo.Status <$> os !! p = Some "online") l)) ∧
    on + off = Z.of_nat (length l).
Proof.
  intros Hall. revert acc. induction Hall as [|p l [a Ha] _ IH]; intros acc.
  - exists 0, 0. simpl. rewrite !Z.add_0_r. by destruct acc.
  - simpl. rewrite Ha. rewrite filter_cons. rewrite Ha. simpl.
    destruct (decide (AgentInfo.Status a = "online")) as [Hon|Hoff].
    + rewrite bool_decide_eq_true_2 by done.
      destruct (IH (acc.1 + 1, acc.2)) as (on & off & Hc & Hon' & Hsum).
      exists (1 + on), off. simpl in Hc. rewrite Hc.
      rewrite decide_True by (by rewrite Hon). simpl length.
      split_and!; [f_equal; f_equal; lia|lia|lia].
    + rewrite bool_decide_eq_false_2 by done.
      destruct (IH (acc.1, acc.2 + 1)) as (on & off & Hc & Hon' & Hsum).
      exists on, (1 + off). simpl in Hc. rewrite Hc.
      rewrite decide_False by (intros [= ?]; done).
      split_and!; [f_equal; f_equal; lia|lia|simpl length; lia].
Qed.

(** X5.  [getSystemStats] counts every registered agent once: the total is
    the number of keys of the registry, the online count is the number of
    agents whose status is the string "online", and every other agent,
    whatever its status, is counted as offline, so that online and offline
    add up to the total.  Without a registry all three are 0. *)
Theorem getSystemStats_counts (reg : Registry.t) :
  wf reg →
  ∃ st, getSystemStats (APIRouter.mk (Some reg)) = Some st ∧
        total_agents st = Z.of_nat (size (agents reg)) ∧
        online_agents st
        = Z.of_nat (length (filter (λ p, AgentInfo.Status <$> objs reg !! p = Some "online")
                                   (List reg))) ∧
        online_agents st + offline_agents st = total_agents st ∧
        getSystemStats (APIRouter.mk None) = Some (mkAgentStats 0 0 0).
Proof.
  intros Hwf. unfold getSystemStats. simpl.
  destruct (count_status_spec (objs reg) (List reg) (0, 0)) as (on & off & Hc & Hon & Hsum).
  { apply Forall_forall. intros p Hp. unfold List in Hp.
    apply list_elem_of_fmap in Hp as ([k q] & -> & Hkq).
    apply elem_of_map_to_list in Hkq. exact (Hwf k q Hkq). }
  rewrite Hc. simpl. eexists. split; [reflexivity|]. simpl.
  assert (Hlen : length (List reg) = size (agents reg)).
  { unfold List. rewrite length_fmap. by rewrite length_map_to_list. }
  split_and!; [by rewrite Hlen|done|lia|done].
Qed.


Lemma getSystemStats_counts_witness :
  wf Demo.reg2 ∧
  ∃ st, getSystemStats (APIRouter.mk (Some Demo.reg2)) = Some st ∧
        total_agents st = 2 ∧ online_agents st + offline_agents st = 2.
Proof.
  assert (Hwf : wf Demo.reg2) by (apply (bool_decide_unpack _); vm_compute; exact I).
  split; [exact Hwf|].
  destruct (getSystemStats_counts Demo.reg2 Hwf) as (st & Hst & Htot & _ & Hsum & _).
  exists st. split; [exact Hst|]. split; [exact Htot|]. rewrite Hsum. exact Htot.
Defined.

Lemma contains_spec (slice : list string) (item : string) :
  contains slice item = true ↔ item ∈ slice.
Proof.
  induction slice as [|s slice IH]; simpl.
  - split; [done|]. by intros ?%elem_of_nil.
  - rewrite elem_of_cons. destruct (decide (s = item)) as [->|Hne].
    + rewrite bool_decide_eq_true_2 by done. split; auto.
    + rewrite bool_decide_eq_false_2 by done. rewrite IH. split; [auto|].
      intros [->|?]; done.
Qed.

(** X6.  [updateAgentStatus] answers "updated" exactly when the body
    decodes and its status is one of online, offline, maintenance, error
    (the empty string and every other string get 400); and in no case does
    it change the registry, so [getAgent] shows the same agent, with its old
    status, before and after. *)
Theorem updateAgentStatus_validates_only (agentID : string) (body : option string)
    (r : APIRouter.t) :
  (∀ st, (updateAgentStatus agentID body r).1 = StatusUpdated agentID st ↔
         body = Some st ∧ st ∈ ["online"; "offline"; "maintenance"; "error"]) ∧
  ((updateAgentStatus agentID body r).1 = StatusBadRequest ↔
   ∀ st, body = Some st → st ∉ ["online"; "offline"; "maintenance"; "error"]) ∧
  (updateAgentStatus agentID body r).2 = r ∧
  ∀ id, getAgent id (updateAgentStatus agentID body r).2 = getAgent id r.
Proof.
  assert (Hfst : (updateAgentStatus agentID body r).1
                 = match body with
                   | Some st => if contains validStatuses st
                                then StatusUpdated agentID st else StatusBadRequest
                   | None => StatusBadRequest
                   end).
  { unfold updateAgentStatus. destruct body as [st|]; [|done].
    destruct (decide (st = "")) as [->|Hne].
    - by rewrite bool_decide_eq_true_2.
    - rewrite bool_decide_eq_false_2 by done. by destruct (contains validStatuses st). }
  assert (Hsnd : (updateAgentStatus agentID body r).2 = r).
  { unfold updateAgentStatus. destruct body as [st|]; [|done].
    destruct (bool_decide (st = "")); [done|].
    by destruct (contains validStatuses st). }
  change ["online"; "offline"; "maintenance"; "error"] with validStatuses.
  split; [|split; [|split]].
  - intros st. rewrite Hfst. destruct body as [st'|].
    + destruct (contains validStatuses st') eqn:Hc.
      * apply contains_spec in Hc. split.
        -- inversion 1; by subst.
        -- intros [H _]. inversion H; by subst.
      * split; [done|]. intros [H Hin%contains_spec]. inversion H; subst. congruence.
    + split; [done|]. by intros [? _].
  - rewrite Hfst. destruct body as [st'|].
    + destruct (contains validStatuses st') eqn:Hc.
      * apply contains_spec in Hc. split; [done|].
        intros H. by destruct (H st' eq_refl).
      * split; [|done]. intros _ st H Hin%contains_spec. inversion H; subst. congruence.
    + split; [|done]. by intros _ st.
  - exact Hsnd.
  - intros id. by rewrite Hsnd.
Qed.

Lemma updateAgentStatus_validates_only_witness :
  (updateAgentStatus "h1" (Some "maintenance") (APIRouter.mk (Some Demo.reg2))).1
  = StatusUpdated "h1" "maintenance" ∧
  (updateAgentStatus "h1" (Some "busy") (APIRouter.mk (Some Demo.reg2))).1
  = StatusBadRequest ∧
  getAgent "h1" (updateAgentStatus "h1" (Some "maintenance")
                   (APIRouter.mk (Some Demo.reg2))).2
  = getAgent "h1" (APIRouter.mk (Some Demo.reg2)).
Proof.
  split_and!.
  - apply (proj1 (updateAgentStatus_validates_only "h1" (Some "maintenance")
                    (APIRouter.mk (Some Demo.reg2)))).
    split; [reflexivity|]. apply contains_spec. reflexivity.
  - apply (proj1 (proj2 (updateAgentStatus_validates_only "h1" (Some "busy")
                           (APIRouter.mk (Some Demo.reg2))))).
    intros st [= <-] Hin%contains_spec. discriminate.
  - apply (proj2 (proj2 (proj2 (updateAgentStatus_validates_only "h1" (Some "maintenance")
                                  (APIRouter.mk (Some Demo.reg2)))))).
Defined.

Lemma get_lt (s : string) (n : nat) :
  (n < String.length s)%nat → is_Some (String.get n s).
Proof.
  revert n. induction s as [|c s IH]; intros n; simpl; [lia|].
  destruct n as [|n]; [by eexists|]. intros H. apply IH. lia.
Qed.

Lemma random_bytes_spec (now : nat → Z) (n i : nat) :
  (∀ k, (i ≤ k < i + n)%nat → 0 ≤ now k) →
  ∃ s, random_bytes now i n = Some s ∧ String.length s = n ∧
       ∀ j c, String.get j s = Some c →
         String.get (Z.to_nat (Z.rem (now (i + j)%nat) 62)) charset = Some c.
Proof.
  revert i. induction n as [|n IH]; intros i Hpos.
  - exists "". split_and!; [done..|]. intros j c. simpl. done.
  - cbn [random_bytes].
    change (Z.of_nat (String.length charset)) with 62.
    assert (H0 : 0 ≤ now i) by (apply Hpos; lia).
    pose proof (Z.rem_bound_pos (now i) 62 H0 ltac:(lia)) as Hb.
    destruct (Z.ltb_spec (Z.rem (now i) 62) 0); [lia|].
    destruct (get_lt charset (Z.to_nat (Z.rem (now i) 62))) as [c Hc].
    { change (String.length charset) with 62%nat. lia. }
    destruct (IH (S i)) as (rest & Hrest & Hlen & Hget).
    { intros k Hk. apply Hpos. lia. }
    rewrite Hc, Hrest. exists (String c rest). split_and!; [done|simpl; by rewrite Hlen|].
    intros [|j] d; simpl.
    + intros [= <-]. by rewrite Nat.add_0_r.
    + intros Hd. replace (i + S j)%nat with (S i + j)%nat by lia. by apply Hget.
Qed.

(** X7.  With a clock that is not before 1970, [generateRandomID] returns a
    string of exactly the requested length, and its character at position j
    is the character of the 62-letter alphabet at index (clock reading of
    iteration j) mod 62; so when the clock reads the same at every
    iteration all characters of the id are the same.  The length -1
    panics. *)
Theorem generateRandomID_from_clock (length : Z) (now : nat → Z) :
  0 ≤ length → (∀ k, 0 ≤ now k) →
  ∃ s, generateRandomID length now = Some s ∧
       Z.of_nat (String.length s) = length ∧
       (∀ j c, String.get j s = Some c →
          String.get (Z.to_nat (Z.rem (now j) 62)) charset = Some c) ∧
       ((∀ j k, now j = now k) →
        ∀ j k c d, String.get j s = Some c → String.get k s = Some d → c = d) ∧
       generateRandomID (-1) now = None.
Proof.
  intros Hlen Hpos. unfold generateRandomID.
  destruct (Z.ltb_spec length 0); [lia|].
  destruct (random_bytes_spec now (Z.to_nat length) 0) as (s & Hs & Hl & Hget).
  { intros k _. apply Hpos. }
  exists s. split_and!; [done|lia| | |done].
  - intros j c Hc. exact (Hget j c Hc).
  - intros Hconst j k c d Hc Hd.
    apply Hget in Hc, Hd. simpl in Hc, Hd.
    rewrite (Hconst j k) in Hc. congruence.
Qed.

Lemma generateRandomID_from_clock_witness :
  ∃ s, generateRandomID 8 (λ _, 1700000000000000005) = Some s ∧ s = "FFFFFFFF".
Proof.
  destruct (generateRandomID_from_clock 8 (λ _, 1700000000000000005))
    as (s & Hs & _); [lia|intros; lia|].
  exists s. split; [exact Hs|].
  vm_compute in Hs. by injection Hs as <-.
Defined.

End RoutesMore.

(** ** Scheduler: how the calls compose *)

Section SchedulerMore.
Import Scheduler.

Lemma pending_elem (agentID : string) (s : Scheduler.t) :
  wf s →
  ∃ l, GetPendingTasks agentID s = Some (l, s) ∧
       ∀ p, p ∈ l ↔ ∃ id k, tasks s !! id = Some p ∧ objs s !! p = Some k ∧
                             Task.AgentID k = agentID ∧ Task.Status k = "pending".
Proof.
  intros Hwf. unfold GetPendingTasks.
  destruct (select_total
              (λ k, bool_decide (Task.AgentID k = agentID) &&
                    bool_decide (Task.Status k = "pending"))
              (objs s) _ (wf_Forall s Hwf)) as [l Hl].
  rewrite Hl. exists l. split; [done|].
  intros p. rewrite (select_elem _ _ _ _ Hl p).
  split; intros (id & k & Hin & Hk & Hkeep); exists id, k.
  - apply elem_of_map_to_list in Hin.
    apply andb_true_iff in Hkeep as [H1%bool_decide_eq_true H2%bool_decide_eq_true].
    done.
  - destruct Hkeep as [H1 H2]. rewrite elem_of_map_to_list.
    split_and!; [done..|]. apply andb_true_iff. by rewrite !bool_decide_eq_true.
Qed.

Lemma SubmitTask_wf (task : loc) (s s' : Scheduler.t) :
  wf s → SubmitTask task s = Some s' → wf s'.
Proof.
  intros Hwf. unfold SubmitTask. destruct (objs s !! task) as [k|] eqn:Hk; [|done].
  intros [= <-] id p. simpl. intros Hp.
  destruct (decide (p = task)) as [->|Hne].
  - rewrite lookup_insert_eq. by eexists.
  - rewrite lookup_insert_ne by done.
    apply lookup_insert_Some in Hp as [[_ ->]|[_ Hp]]; [done|]. exact (Hwf id p Hp).
Qed.

(** X8.  [ScheduleCommand] builds a new "command" task with status
    "pending", stores it under the given id, and the next
    [GetPendingTasks] for its agent returns it.  If the id was already in
    the table (two tasks scheduled within the same second get the same
    id), the table does not grow and the task held under the id before is
    no longer returned, unless it is also held under another id. *)
Theorem ScheduleCommand_then_pending (id agentID command : string) (timeout : Z)
    (s : Scheduler.t) :
  wf s →
  ∃ s' p l,
    ScheduleCommand id agentID command timeout s = Some s' ∧
    objs s !! p = None ∧
    tasks s' = <[id := p]> (tasks s) ∧
    objs s' !! p
    = Some (Task.mk id agentID "command" command "" "" [] timeout "pending") ∧
    GetPendingTasks agentID s' = Some (l, s') ∧
    p ∈ l ∧
    (is_Some (tasks s !! id) → size (tasks s') = size (tasks s)) ∧
    (∀ q, tasks s !! id = Some q →
          (∀ id', id' ≠ id → tasks s !! id' ≠ Some q) → q ∉ l).
Proof.
  intros Hwf. unfold ScheduleCommand.
  set (k := Task.mk id agentID "command" command "" "" [] timeout "pending").
  destruct (alloc_fresh k (objs s)) as [Hfresh Heq].
  destruct (Store.alloc k (objs s)) as [p os] eqn:Ha. simpl in Hfresh, Heq. subst os.
  assert (Hwf1 : wf (mk (registry s) (<[p := k]> (objs s)) (tasks s) (logger s))).
  { intros i q Hq. simpl in *. destruct (Hwf i q Hq) as [x Hx].
    rewrite lookup_insert_ne by (intros <-; congruence). by eexists. }
  unfold SubmitTask at 1. simpl. rewrite lookup_insert_eq.
  match goal with |- ∃ _ _ _, Some ?s1 = Some _ ∧ _ => set (s' := s1) end.
  assert (Hwf' : wf s').
  { eapply (SubmitTask_wf p); [exact Hwf1|].
    unfold SubmitTask. simpl. rewrite lookup_insert_eq. reflexivity. }
  destruct (pending_elem agentID s' Hwf') as (l & Hl & Hel).
  exists s', p, l. rewrite Hl. simpl.
  split; [reflexivity|]. split; [exact Hfresh|]. split; [reflexivity|].
  split; [by rewrite insert_insert_eq, lookup_insert_eq|].
  split; [reflexivity|]. split_and!.
  - apply Hel. exists id, k. simpl. rewrite !lookup_insert_eq. done.
  - intros [q Hq]. rewrite map_size_insert_Some; [done|]. by rewrite Hq.
  - intros q Hq Honly Hin. apply Hel in Hin as (id' & k' & Hid' & Hk' & _).
    simpl in Hid'. apply lookup_insert_Some in Hid' as [[_ ->]|[Hne Hid']].
    + destruct (Hwf id q Hq) as [x Hx]. congruence.
    + by apply (Honly id').
Qed.


Lemma ScheduleCommand_then_pending_witness :
  wf Demo.sched1 ∧
  ∃ s' p l,
    ScheduleCommand "t1" "i1" "uptime" 5 Demo.sched1 = Some s' ∧
    GetPendingTasks "i1" s' = Some (l, s') ∧ p ∈ l ∧
    size (tasks s') = size (tasks Demo.sched1) ∧ 0%nat ∉ l.
Proof.
  assert (Hwf : wf Demo.sched1) by (apply (bool_decide_unpack _); vm_compute; exact I).
  split; [exact Hwf|].
  destruct (ScheduleCommand_then_pending "t1" "i1" "uptime" 5 Demo.sched1 Hwf)
    as (s' & p & l & H1 & _ & _ & _ & H2 & H3 & H4 & H5).
  exists s', p, l. split_and!; [exact H1|exact H2|exact H3| |].
  - apply H4. eexists. reflexivity.
  - apply H5; [reflexivity|].
    intros id' Hne Hid'. change (tasks Demo.sched1) with ({[ "t1" := 0%nat ]} : gmap string nat) in Hid'.
    apply lookup_singleton_Some in Hid' as [Heq _]. congruence.
Defined.

Lemma two_states_wf (s : Scheduler.t) : two_states s → wf s.
Proof. intros H id p Hp. destruct (H id p Hp) as (k & Hk & _). by eexists. Qed.

(** X9.  In every state reached from a new scheduler by any sequence of
    calls, [GetTasksByStatus] succeeds, changes nothing and returns exactly
    the stored tasks whose status is the one asked for; for every status
    other than "pending" and "completed" the result is empty. *)
Theorem GetTasksByStatus_exact (cs : list Calls.call) (reg : Registry.t)
    (s : Scheduler.t) (status : string) :
  Calls.run cs (NewScheduler reg) = Some s →
  ∃ l, GetTasksByStatus status s = Some (l, s) ∧
       (∀ p, p ∈ l ↔ ∃ id k, tasks s !! id = Some p ∧ objs s !! p = Some k ∧
                             Task.Status k = status) ∧
       (status ≠ "pending" → status ≠ "completed" → l = []).
Proof.
  intros Hrun.
  assert (Hinv : two_states s).
  { eapply two_states_run; [|exact Hrun]. intros id p. simpl. by rewrite lookup_empty. }
  unfold GetTasksByStatus.
  destruct (select_total (λ k, bool_decide (Task.Status k = status))
              (objs s) _ (wf_Forall s (two_states_wf s Hinv))) as [l Hl].
  rewrite Hl. exists l. split; [done|].
  assert (Hel : ∀ p, p ∈ l ↔ ∃ id k, tasks s !! id = Some p ∧ objs s !! p = Some k ∧
                                     Task.Status k = status).
  { intros p. rewrite (select_elem _ _ _ _ Hl p).
    split; intros (id & k & Hin & Hk & Hkeep); exists id, k.
    - apply elem_of_map_to_list in Hin. by apply bool_decide_eq_true in Hkeep.
    - rewrite elem_of_map_to_list. by rewrite bool_decide_eq_true. }
  split; [exact Hel|].
  intros Hp Hc. apply elem_of_nil_inv. intros p Hin.
  apply Hel in Hin as (id & k & Hid & Hk & Hst).
  destruct (Hinv id p Hid) as (k' & Hk' & [H|H]); congruence.
Qed.

Lemma GetTasksByStatus_exact_witness :
  ∃ s l,
    Calls.run [Calls.ScheduleCommand "t1" "i1" "echo hi" 30;
               Calls.MarkTaskDone "t1" true "hi" ""]
      (NewScheduler Registry.NewRegistry) = Some s ∧
    GetTasksByStatus "dispatched" s = Some (l, s) ∧ l = [].
Proof.
  eexists.
  destruct (GetTasksByStatus_exact
              [Calls.ScheduleCommand "t1" "i1" "echo hi" 30;
               Calls.MarkTaskDone "t1" true "hi" ""]
              Registry.NewRegistry _ "dispatched" ltac:(vm_compute; reflexivity))
    as (l & Hl & _ & Hnil).
  exists l. split_and!; [vm_compute; reflexivity|exact Hl|].
  apply Hnil; discriminate.
Defined.

(** X10.  Once [MarkTaskDone] has been called for an id of the table, the
    task held under that id is returned by no [GetPendingTasks], for any
    agent; every other Task object is returned exactly as before. *)
Theorem MarkTaskDone_then_not_pending (taskID : string) (success : bool)
    (output errMsg : string) (s : Scheduler.t) (p : loc) :
  wf s → tasks s !! taskID = Some p →
  ∃ s', MarkTaskDone taskID success output errMsg s = Some s' ∧
        ∀ agentID,
          ∃ l l', GetPendingTasks agentID s = Some (l, s) ∧
                  GetPendingTasks agentID s' = Some (l', s') ∧
                  (p ∉ l') ∧
                  ∀ q, q ≠ p → (q ∈ l' ↔ q ∈ l).
Proof.
  intros Hwf Hp. unfold MarkTaskDone. rewrite Hp.
  destruct (Hwf taskID p Hp) as [k Hk]. rewrite Hk.
  eexists. split; [reflexivity|].
  match goal with |- ∀ _, ∃ _ _, _ ∧ GetPendingTasks _ ?s1 = _ ∧ _ => set (s' := s1) end.
  assert (Hwf' : wf s').
  { intros id q Hq. simpl in *. destruct (Hwf id q Hq) as [x Hx].
    destruct (decide (q = p)) as [->|Hne].
    - rewrite lookup_insert_eq. by eexists.
    - rewrite lookup_insert_ne by done. by eexists. }
  intros agentID.
  destruct (pending_elem agentID s Hwf) as (l & Hl & Hel).
  destruct (pending_elem agentID s' Hwf') as (l' & Hl' & Hel').
  exists l, l'. split_and!; [done..| |].
  - intros Hin. apply Hel' in Hin as (id & k' & _ & Hk' & _ & Hst).
    simpl in Hk'. rewrite lookup_insert_eq in Hk'. injection Hk' as <-. discriminate.
  - intros q Hne. rewrite Hel, Hel'. simpl.
    by setoid_rewrite (lookup_insert_ne (objs s) p q _ (not_eq_sym Hne)).
Qed.

Lemma MarkTaskDone_then_not_pending_witness :
  wf Demo.sched1 ∧
  ∃ s' l', MarkTaskDone "t1" true "hi" "" Demo.sched1 = Some s' ∧
           GetPendingTasks "i1" s' = Some (l', s') ∧ 0%nat ∉ l'.
Proof.
  assert (Hwf : wf Demo.sched1) by (apply (bool_decide_unpack _); vm_compute; exact I).
  split; [exact Hwf|].
  destruct (MarkTaskDone_then_not_pending "t1" true "hi" "" Demo.sched1 0%nat Hwf eq_refl)
    as (s' & Hs' & Hall).
  destruct (Hall "i1") as (l & l' & _ & Hl' & Hnot & _).
  exists s', l'. split_and!; [exact Hs'|exact Hl'|exact Hnot].
Defined.

End SchedulerMore.

(** ** TaskExecutor: further properties *)

Section ExecutorMore.
Import exec os TaskExecutor.

Lemma finish_completed what (env : Env) (t : Z) (p : Process) :
  start_error p = None → needs p ≤ t →
  finish what env t (CombinedOutput (GOOS env) t p)
  = (TaskResult.mk "" (code p =? 0) (output p)
       (if code p =? 0 then "" else "exit status " +:+ pretty (code p)),
     if code p =? 0 then None
     else Some (ExitError ("exit status " +:+ pretty (code p)))).
Proof.
  intros Hstart Hneeds. unfold CombinedOutput.
  rewrite (fate_completed t p Hstart Hneeds).
  unfold finish. simpl. by destruct (code p =? 0).
Qed.

(** X11.  When the process is started and completes within the deadline,
    both [ExecuteCommand] and [ExecuteScript] report success exactly for
    exit status 0, hand back the whole combined output, and carry the error
    text "exit status N" for a non-zero status N (and no error text on
    success). *)
Theorem completed_run_reports_exit_status (e : TaskExecutor.t) (text : string)
    (timeout : Z) (env : Env) (fs : gmap string File) :
  let t := timeout_of e timeout in
  0 < t →
  (let p := run env (if bool_decide (GOOS env = "windows")
                     then mkCmd "cmd" ["/c"; text]
                     else mkCmd "sh" ["-c"; text]) fs in
   start_error p = None → needs p ≤ t →
   (ExecuteCommand e text timeout env fs).1
   = TaskResult.mk "" (code p =? 0) (output p)
       (if code p =? 0 then "" else "exit status " +:+ pretty (code p))) ∧
  (∀ name fs1, CreateTemp env "nerve-script-" ".sh" fs = inr (name, fs1) →
     write_error env = None → chmod_error env = None →
     let p := run env (mkCmd "/bin/bash" [name])
                (<[name := mkFile perm_0755 text]> fs) in
     start_error p = None → needs p ≤ t →
     (ExecuteScript e text timeout env fs).1.1
     = TaskResult.mk "" (code p =? 0) (output p)
         (if code p =? 0 then "" else "exit status " +:+ pretty (code p))).
Proof.
  intros t Ht. split.
  - intros p Hstart Hneeds. rewrite ExecuteCommand_unfold. fold t. fold p.
    by rewrite finish_completed.
  - intros name fs1 Hct Hw Hc p Hstart Hneeds.
    unfold ExecuteScript. rewrite Hct, Hw, Hc. fold t.
    assert (Hfs1 : fs1 = <[name := mkFile perm_0600 ""]> fs).
    { unfold CreateTemp in Hct. destruct (create_error env); [done|].
      by apply CreateTemp_try_spec in Hct as (_ & -> & _). }
    subst fs1. rewrite !insert_insert_eq. fold p.
    by rewrite finish_completed.
Qed.

Lemma completed_run_reports_exit_status_witness :
  (ExecuteCommand Demo.executor "true" 5 Demo.machine ∅).1
  = TaskResult.mk "" true "ok" "".
Proof.
  refine (proj1 (completed_run_reports_exit_status Demo.executor "true" 5 Demo.machine ∅
                   _) _ _); vm_compute; (reflexivity || discriminate).
Defined.

(** X12.  The deadline is [timeout] seconds for 0 < timeout ≤ 9223372036
    (the largest number of seconds that fits a Duration) and the default
    for timeout ≤ 0; from 9223372037 on the int64 product wraps around,
    there to a negative deadline.  With a deadline that is not positive a
    command whose program (sh, or cmd on windows) is found is not run at
    all: [ExecuteCommand] fails at once with "command timeout after ...",
    whatever the command.  When the program is not found, the result
    carries the error of the look-up, whatever the deadline. *)
Theorem timeout_of_bounds (e : TaskExecutor.t) (timeout : Z) :
  (0 < timeout ≤ 9223372036 → timeout_of e timeout = timeout * time.Second) ∧
  (timeout ≤ 0 → timeout_of e timeout = defaultTimeout e) ∧
  timeout_of e 9223372037 = 9223372037 * time.Second - 2 ^ 64 ∧
  timeout_of e 9223372037 < 0 ∧
  ∀ command env fs,
    let p := run env (if bool_decide (GOOS env = "windows")
                      then mkCmd "cmd" ["/c"; command]
                      else mkCmd "sh" ["-c"; command]) fs in
    (timeout_of e timeout ≤ 0 → (∀ msg, start_error p ≠ Some (LookPath msg)) →
     ExecuteCommand e command timeout env fs
     = (TaskResult.mk "" false ""
          ("command timeout after " +:+ DurationString env (timeout_of e timeout)),
        Some DeadlineExceeded)) ∧
    (∀ msg, start_error p = Some (LookPath msg) →
     ExecuteCommand e command timeout env fs
     = (TaskResult.mk "" false "" msg, Some (OtherError msg))).
Proof.
  split_and!.
  - intros [H0 H1]. unfold timeout_of, wrap64, time.Second, time.Nanosecond.
    destruct (Z.ltb_spec 0 timeout); [|lia].
    rewrite Z.mod_small; lia.
  - intros H. unfold timeout_of. destruct (Z.ltb_spec 0 timeout); [lia|done].
  - reflexivity.
  - reflexivity.
  - intros command env fs p. split.
    + intros Ht Hfound. rewrite ExecuteCommand_unfold. fold p.
      unfold CombinedOutput. rewrite (fate_deadline _ p Hfound); [done|lia].
    + intros msg Hmsg. rewrite ExecuteCommand_unfold. fold p.
      unfold CombinedOutput, fate_of. by rewrite Hmsg.
Qed.

Lemma timeout_of_bounds_witness :
  timeout_of Demo.executor 1 = 1 * time.Second ∧
  ExecuteCommand (NewTaskExecutor 0) "sleep 10" 0 Demo.machine ∅
  = (TaskResult.mk "" false "" "command timeout after 0s", Some DeadlineExceeded).
Proof.
  split.
  - apply (proj1 (timeout_of_bounds Demo.executor 1)). lia.
  - pose proof (proj2 (proj2 (proj2 (proj2 (timeout_of_bounds (NewTaskExecutor 0) 0))))
                  "sleep 10" Demo.machine ∅) as H.
    cbv zeta in H. apply (proj1 H).
    + vm_compute. discriminate.
    + intros msg. vm_compute. discriminate.
Defined.

(** X13.  [ExecuteScript] gives the file system back as it found it
    when the temporary file cannot be created, and, provided the removal
    of the temporary file is not refused, on every path that fails before
    the script runs (the write fails, the chmod fails) and whenever the
    script itself changes no file, be it run to its end or killed at the
    deadline: no file other than the temporary one is ever written or
    removed by the executor. *)
Theorem ExecuteScript_restores_files (e : TaskExecutor.t) (script : string)
    (timeout : Z) (env : Env) (fs : gmap string File) :
  is_Some (create_error env) ∨
  (remove_error env = None ∧
   (is_Some (write_error env) ∨ is_Some (chmod_error env) ∨
    (∀ cmd fs0 fs1, effect (run env cmd fs0) fs1 = fs1 ∧
                    ∀ d, killed_effect (run env cmd fs0) d fs1 = fs1))) →
  (ExecuteScript e script timeout env fs).2 = fs.
Proof.
  intros Hcase. unfold ExecuteScript.
  destruct (CreateTemp env "nerve-script-" ".sh" fs) as [msg|[name fs1]] eqn:Hct; [done|].
  assert (Hspec : fs !! name = None ∧ fs1 = <[name := mkFile perm_0600 ""]> fs).
  { unfold CreateTemp in Hct. destruct (create_error env); [done|].
    by apply CreateTemp_try_spec in Hct as (? & ? & _). }
  destruct Hspec as [Hfresh ->].
  destruct Hcase as [[x Hx]|[Hrm Hcase]].
  { unfold CreateTemp in Hct. by rewrite Hx in Hct. }
  destruct (write_error env) as [msg|] eqn:Hw; [by simpl; rewrite Remove_back|].
  destruct (chmod_error env) as [msg|] eqn:Hc;
    [by simpl; rewrite insert_insert_eq, Remove_back|].
  destruct Hcase as [[x Hx]|[[x Hx]|Hid]]; try done.
  destruct (finish _ _ _ _). cbn [snd]. rewrite !insert_insert_eq.
  unfold leaves. destruct (fate_of _ _).
  - by rewrite Remove_back.
  - rewrite (proj1 (Hid _ _ _)). by rewrite Remove_back.
  - rewrite (proj2 (Hid _ _ _)). by rewrite Remove_back.
Qed.

Lemma ExecuteScript_restores_files_witness :
  (ExecuteScript Demo.executor "echo ok" 1 Demo.machine
     {[ "/tmp/nerve-script-123.sh" := mkFile perm_0600 "old" ]}).2
  = {[ "/tmp/nerve-script-123.sh" := mkFile perm_0600 "old" ]}.
Proof.
  apply (ExecuteScript_restores_files Demo.executor "echo ok" 1 Demo.machine).
  right. split; [reflexivity|]. right; right. intros cmd fs0 fs1. simpl.
  by destruct (bool_decide _).
Defined.

(** X14.  [ExecuteHook]: when the plugin returns strictly before the
    deadline (and the select is reached before the deadline), the result is
    the plugin's: success with its printed result, or failure with its
    error text, which is "plugin NAME not found" for a name that is not
    loaded.  When the deadline passes strictly before the plugin returns,
    the result is a failure whose error text is "plugin timeout after ..."
    and the error returned is context.DeadlineExceeded: here, unlike in
    [ExecuteCommand], a deadline is reported as a timeout. *)
Theorem ExecuteHook_outcomes (e : TaskExecutor.t) (pm : PluginManager.t)
    (name : string) (params : list (string * string)) (timeout : Z)
    (env : Env) (reached : Z) (pick : bool) :
  let t := timeout_of e timeout in
  let took := (PluginManager.ExecutePlugin name params pm).1 in
  let outcome := (PluginManager.ExecutePlugin name params pm).2 in
  (took < t → reached < t →
   Hook.ExecuteHook e pm name params timeout env reached pick
   = match outcome with
     | inl msg => (TaskResult.mk "" false "" msg, Some (OtherError msg))
     | inr printed => (TaskResult.mk "" true printed "", None)
     end) ∧
  (PluginManager.plugins pm !! name = None →
   outcome = inl ("plugin " +:+ name +:+ " not found")) ∧
  (t < took → reached < took →
   Hook.ExecuteHook e pm name params timeout env reached pick
   = (TaskResult.mk "" false "" ("plugin timeout after " +:+ DurationString env t),
      Some DeadlineExceeded) ∧
   indicates_timeout ("plugin timeout after " +:+ DurationString env t) = true).
Proof.
  intros t took outcome. unfold Hook.ExecuteHook. fold t.
  subst took outcome.
  destruct (PluginManager.ExecutePlugin name params pm) as [took outcome] eqn:Hex.
  simpl. split_and!.
  - intros H1 H2.
    destruct (Z.ltb_spec (Z.max t reached) (Z.max took reached)); [lia|].
    destruct (Z.ltb_spec (Z.max took reached) (Z.max t reached)); [done|lia].
  - intros Hnone. unfold PluginManager.ExecutePlugin in Hex. rewrite Hnone in Hex.
    by injection Hex as <- <-.
  - intros H1 H2.
    destruct (Z.ltb_spec (Z.max t reached) (Z.max took reached)); [|lia].
    split; reflexivity.
Qed.

Lemma ExecuteHook_outcomes_witness :
  Hook.ExecuteHook Demo.executor (PluginManager.NewPluginManager "plugins")
    "disk-check" [] 5 Demo.machine 1000 false
  = (TaskResult.mk "" false "" "plugin disk-check not found",
     Some (OtherError "plugin disk-check not found")).
Proof.
  pose proof (ExecuteHook_outcomes Demo.executor (PluginManager.NewPluginManager "plugins")
                "disk-check" [] 5 Demo.machine 1000 false) as (H & _).
  apply H; vm_compute; reflexivity.
Defined.

End ExecutorMore.

(** ** The agent's dispatch *)

Section AgentMore.
Import Agent.

(** X15.  [executeTask] never runs anything: for every task, whatever its
    type, the result handed to [reportTaskResult] carries the task's id,
    success = false, no output and a non-empty error text, which is
    "unknown task type: T" for a type T other than command, script and
    hook; the result is posted to /api/tasks/ID/result. *)
Theorem executeTask_always_fails (task : Task) (serverURL : string) :
  TaskResult.TaskID (executeTask task) = ID task ∧
  TaskResult.Success (executeTask task) = false ∧
  TaskResult.Output (executeTask task) = "" ∧
  TaskResult.Error (executeTask task) ≠ "" ∧
  (Type_ task ∉ ["command"; "script"; "hook"] →
   TaskResult.Error (executeTask task) = "unknown task type: " +:+ Type_ task) ∧
  report_url serverURL (executeTask task)
  = serverURL +:+ "/api/tasks/" +:+ ID task +:+ "/result".
Proof.
  assert (H : TaskResult.TaskID (executeTask task) = ID task).
  { unfold executeTask. repeat case_bool_decide; reflexivity. }
  split_and!; [exact H| | | | |].
  - unfold executeTask. repeat case_bool_decide; reflexivity.
  - unfold executeTask. repeat case_bool_decide; reflexivity.
  - unfold executeTask. repeat case_bool_decide; simpl; discriminate.
  - intros Hnot. unfold executeTask.
    repeat case_bool_decide; try reflexivity; exfalso; apply Hnot;
      match goal with H : Type_ task = _ |- _ => rewrite H end;
      repeat constructor.
  - unfold report_url. by rewrite H.
Qed.

Lemma executeTask_always_fails_witness :
  TaskResult.Error (executeTask (mkTask "t9" "restart" "" "" "" [] 0))
  = "unknown task type: restart" ∧
  TaskResult.Success (executeTask (mkTask "t1" "command" "uptime" "" "" [] 0)) = false.
Proof.
  split.
  - apply (executeTask_always_fails (mkTask "t9" "restart" "" "" "" [] 0) "").
    intros H. repeat (apply elem_of_cons in H as [H|H]; [discriminate|]).
    by apply elem_of_nil in H.
  - apply (executeTask_always_fails (mkTask "t1" "command" "uptime" "" "" [] 0) "").
Defined.

Lemma trim_right_cons (b : Ascii.ascii) (s : string) :
  isASCIISpace b = false → trim_right (String b s) = String b (trim_right s).
Proof. intros Hb. cbn [trim_right]. rewrite Hb. by destruct (trim_right s). Qed.

Lemma trim_left_cons (b : Ascii.ascii) (s : string) :
  isASCIISpace b = false → trim_left (String b s) = String b s.
Proof. intros Hb. cbn [trim_left]. by rewrite Hb. Qed.

(** The Authorization header of the agent as the server reads it: the
    text "Bearer", followed by whatever the trimming leaves of a space and
    the token. *)
Lemma received_authorization (token auth : string) :
  received (authorization token) = Some auth →
  auth = "Bearer" +:+ trim_right (" " +:+ token).
Proof.
  unfold received, authorization. destruct (ValidHeaderFieldValue _); [|done].
  intros [= <-]. unfold TrimString.
  assert (Hcons : ∀ c s t, String c s +:+ t = String c (s +:+ t)) by reflexivity.
  assert (Hnil : ∀ t : string, "" +:+ t = t) by reflexivity.
  rewrite !Hcons, !Hnil.
  rewrite trim_left_cons by reflexivity.
  by rewrite !trim_right_cons by reflexivity.
Qed.

(** X16.  The Authorization header the agent puts on every request is
    "Bearer " followed by its token, and the handler that serves the
    agent's registration only tests the header it reads for being
    non-empty.  What the server reads of that header always starts with
    "Bearer" (for the empty token it is "Bearer" alone, the transport
    having trimmed the space): so whatever the token is, the empty one
    included, a registration of the agent that reaches the server with a
    body that decodes and a non-empty hostname is never answered 401 and is
    registered under its hostname. *)
Theorem agent_token_is_not_checked (token auth : string) (reg : Registry.t)
    (b : api.RegisterBody) (rnd upd : string) (tReg tSeen : Z) :
  Registry.wf reg → api.rb_Hostname b ≠ "" →
  received (authorization token) = Some auth →
  String.prefix "Bearer" auth = true ∧
  (∃ reg', APIRouter.registerAgent (Some b) auth "" rnd upd tReg tSeen
             (APIRouter.mk (Some reg))
           = Some (api.Registered (api.rb_Hostname b), APIRouter.mk (Some reg'))) ∧
  received (authorization "") = Some "Bearer".
Proof.
  intros Hwf Hhost Hrecv. apply received_authorization in Hrecv as ->.
  split_and!; [by destruct (trim_right (" " +:+ token))| |reflexivity].
  destruct (registerAgent_once reg b ("Bearer" +:+ trim_right (" " +:+ token))
              "" rnd upd tReg tSeen Hwf Hhost) as (reg' & Hreg & _).
  { left. discriminate. }
  by exists reg'.
Qed.

Lemma agent_token_is_not_checked_witness :
  received (authorization "") = Some "Bearer" ∧
  ∃ reg', APIRouter.registerAgent (Some Demo.body1) "Bearer" "" "aaaaaaaa" "" 1 2
            (APIRouter.mk (Some Registry.NewRegistry))
          = Some (api.Registered "h1", APIRouter.mk (Some reg')).
Proof.
  split; [reflexivity|].
  refine (proj1 (proj2 (agent_token_is_not_checked "" "Bearer" Registry.NewRegistry
                          Demo.body1 "aaaaaaaa" "" 1 2 _ _ _))).
  - apply (bool_decide_unpack _). vm_compute. exact I.
  - discriminate.
  - reflexivity.
Defined.

End AgentMore.

(** ** ClusterManager *)

Section ClusterMore.
Import dyn cluster.

Lemma has_agent_spec (agents : list string) (agentID : string) :
  has_agent agents agentID = true ↔ agentID ∈ agents.
Proof.
  induction agents as [|a agents IH]; simpl.
  - split; [done|]. by intros ?%elem_of_nil.
  - rewrite elem_of_cons. destruct (decide (a = agentID)) as [->|Hne].
    + rewrite bool_decide_eq_true_2 by done. split; auto.
    + rewrite bool_decide_eq_false_2 by done. rewrite IH. split; [auto|].
      intros [->|?]; done.
Qed.

Lemma has_agent_false (agents : list string) (agentID : string) :
  has_agent agents agentID = false ↔ agentID ∉ agents.
Proof.
  rewrite <- has_agent_spec. destruct (has_agent agents agentID); split; congruence.
Qed.



(** X18.  [DeleteCluster] of an id that is present removes exactly that
    key: [GetCluster] of it then fails with "cluster C not found" (C the id), the map
    has one entry less and every other id answers as before; for an id that
    is absent it returns that error and changes nothing. *)
Theorem DeleteCluster_removes_key (id : string) (cm : cluster.t) :
  (is_Some (clusters cm !! id) →
   (DeleteCluster id cm).1 = None ∧
   GetCluster id (DeleteCluster id cm).2
   = (None, Some ("cluster " +:+ id +:+ " not found")) ∧
   S (size (clusters (DeleteCluster id cm).2)) = size (clusters cm) ∧
   ∀ id', id' ≠ id →
     GetCluster id' (DeleteCluster id cm).2 = GetCluster id' cm) ∧
  (clusters cm !! id = None →
   DeleteCluster id cm = (Some ("cluster " +:+ id +:+ " not found"), cm)).
Proof.
  split.
  - intros [p Hp]. unfold DeleteCluster. rewrite Hp. simpl. unfold GetCluster. simpl.
    rewrite lookup_delete_eq. split_and!; [done..| |].
    + rewrite map_size_delete, Hp.
      assert (size (clusters cm) ≠ 0%nat); [|lia].
      intros H0%map_size_empty_inv. rewrite H0 in Hp. by rewrite lookup_empty in Hp.
    + intros id' Hne. by rewrite lookup_delete_ne.
  - intros Hnone. unfold DeleteCluster. by rewrite Hnone.
Qed.


Lemma DeleteCluster_removes_key_witness :
  (DeleteCluster "c1" Examples.clusters1).1 = None ∧
  GetCluster "c1" (DeleteCluster "c1" Examples.clusters1).2
  = (None, Some "cluster c1 not found") ∧
  DeleteCluster "zz" Examples.clusters1 = (Some "cluster zz not found", Examples.clusters1).
Proof.
  destruct (DeleteCluster_removes_key "c1" Examples.clusters1) as [H _].
  destruct (H ltac:(eexists; reflexivity)) as (H1 & H2 & _).
  split_and!; [exact H1|exact H2|].
  apply (proj2 (DeleteCluster_removes_key "zz" Examples.clusters1)). reflexivity.
Defined.

Lemma wf_cluster (cm : cluster.t) id p :
  wf cm → clusters cm !! id = Some p → is_Some (objs cm !! p).
Proof. intros Hwf Hp. exact (Hwf id p Hp). Qed.

(** X19.  [AddAgentToCluster] on an existing cluster appends the agent at
    the end of the cluster's agent list when it is not in it, and refuses
    with "agent A already in cluster C" (changing nothing) when it is; so a
    list without duplicates stays without duplicates, and an unknown
    cluster gives "cluster C not found". *)
Theorem AddAgentToCluster_no_duplicates (clusterID agentID : string) (now : Z)
    (cm : cluster.t) :
  wf cm →
  match at_key cm clusterID with
  | None =>
      AddAgentToCluster clusterID agentID now cm
      = Some (Some ("cluster " +:+ clusterID +:+ " not found"), cm)
  | Some c =>
      (agentID ∈ Agents c →
       AddAgentToCluster clusterID agentID now cm
       = Some (Some ("agent " +:+ agentID +:+ " already in cluster " +:+ clusterID), cm)) ∧
      (agentID ∉ Agents c →
       ∃ cm', AddAgentToCluster clusterID agentID now cm = Some (None, cm') ∧
              at_key cm' clusterID
              = Some (set_UpdatedAt now (set_Agents (Agents c ++ [agentID]) c)) ∧
              clusters cm' = clusters cm ∧
              (NoDup (Agents c) → NoDup (Agents c ++ [agentID])))
  end.
Proof.
  intros Hwf. unfold at_key, AddAgentToCluster.
  destruct (clusters cm !! clusterID) as [p|] eqn:Hp; [|done].
  destruct (wf_cluster cm clusterID p Hwf Hp) as [c Hc]. rewrite Hc. split.
  - intros Hin. apply has_agent_spec in Hin. by rewrite Hin.
  - intros Hnin. pose proof Hnin as Hf. apply has_agent_false in Hf. rewrite Hf.
    eexists. split; [reflexivity|]. simpl. rewrite Hp, lookup_insert_eq.
    split_and!; [done..|]. intros Hnd. apply NoDup_app. split_and!; [done| |].
    + intros x Hx1 Hx2%list_elem_of_singleton. by subst.
    + apply NoDup_singleton.
Qed.

Lemma AddAgentToCluster_no_duplicates_witness :
  wf Examples.clusters1 ∧
  AddAgentToCluster "c1" "h2" 50 Examples.clusters1
  = Some (Some "agent h2 already in cluster c1", Examples.clusters1) ∧
  ∃ cm', AddAgentToCluster "c1" "h3" 50 Examples.clusters1 = Some (None, cm') ∧
         Agents <$> at_key cm' "c1" = Some ["h1"; "h2"; "h3"].
Proof.
  assert (Hwf : wf Examples.clusters1) by (apply (bool_decide_unpack _); vm_compute; exact I).
  split; [exact Hwf|]. split.
  - pose proof (AddAgentToCluster_no_duplicates "c1" "h2" 50 Examples.clusters1 Hwf) as H.
    change (at_key Examples.clusters1 "c1") with (Some Examples.cluster1) in H.
    apply (proj1 H). apply has_agent_spec. reflexivity.
  - pose proof (AddAgentToCluster_no_duplicates "c1" "h3" 50 Examples.clusters1 Hwf) as H.
    change (at_key Examples.clusters1 "c1") with (Some Examples.cluster1) in H.
    destruct (proj2 H) as (cm' & H1 & H2 & _).
    { apply has_agent_false. reflexivity. }
    exists cm'. split; [exact H1|]. by rewrite H2.
Defined.

Lemma first_index_spec (agents : list string) (agentID : string) (i : nat) :
  match first_index agents agentID i with
  | Some j => ∃ k, j = (i + k)%nat ∧ agents !! k = Some agentID ∧
                   agentID ∉ take k agents
  | None => agentID ∉ agents
  end.
Proof.
  revert i. induction agents as [|a agents IH]; intros i; simpl.
  - apply not_elem_of_nil.
  - destruct (decide (a = agentID)) as [->|Hne].
    + rewrite bool_decide_eq_true_2 by done. exists 0%nat. split_and!; [lia|done|].
      simpl. apply not_elem_of_nil.
    + rewrite bool_decide_eq_false_2 by done. specialize (IH (S i)).
      destruct (first_index agents agentID (S i)) as [j|].
      * destruct IH as (k & -> & Hk & Hnot). exists (S k). split_and!; [lia|done|].
        simpl. intros [?|?]%elem_of_cons; done.
      * intros [?|?]%elem_of_cons; done.
Qed.

(** X20.  [RemoveAgentFromCluster] removes the first occurrence of the
    agent from the cluster's list and nothing else: the list gets one
    shorter, the other agents keep their order, and if the list had no
    duplicates the agent is no longer in it.  For an agent that is not in
    the list it returns "agent A not found in cluster C" and changes
    nothing. *)
Theorem RemoveAgentFromCluster_first (clusterID agentID : string) (now : Z)
    (cm : cluster.t) (c : Cluster) :
  wf cm → at_key cm clusterID = Some c →
  (agentID ∉ Agents c →
   RemoveAgentFromCluster clusterID agentID now cm
   = Some (Some ("agent " +:+ agentID +:+ " not found in cluster " +:+ clusterID), cm)) ∧
  (agentID ∈ Agents c →
   ∃ cm' before after,
     RemoveAgentFromCluster clusterID agentID now cm = Some (None, cm') ∧
     Agents c = before ++ agentID :: after ∧
     (agentID ∉ before) ∧
     at_key cm' clusterID
     = Some (set_UpdatedAt now (set_Agents (before ++ after) c)) ∧
     (NoDup (Agents c) → agentID ∉ before ++ after)).
Proof.
  intros Hwf Hat. unfold at_key in Hat. unfold RemoveAgentFromCluster.
  destruct (clusters cm !! clusterID) as [p|] eqn:Hp; [|done]. rewrite Hat.
  pose proof (first_index_spec (Agents c) agentID 0) as Hfi.
  destruct (first_index (Agents c) agentID 0) as [j|]; split; try done.
  - destruct Hfi as (k & -> & Hk & Hnot). intros Hnin.
    exfalso. apply Hnin. by eapply list_elem_of_lookup_2.
  - intros _. destruct Hfi as (k & -> & Hk & Hnot). simpl.
    eexists _, (take k (Agents c)), (drop (S k) (Agents c)).
    split; [reflexivity|].
    assert (Hsplit : Agents c = take k (Agents c) ++ agentID :: drop (S k) (Agents c)).
    { by rewrite <- (take_drop_middle _ _ _ Hk) at 1. }
    split_and!; [done..| |].
    + unfold at_key. simpl. by rewrite Hp, lookup_insert_eq.
    + intros Hnd. rewrite Hsplit in Hnd. apply NoDup_app in Hnd as (_ & Hdis & Hnd2).
      apply NoDup_cons in Hnd2 as [Hnot2 _]. intros [?|?]%elem_of_app; done.
Qed.


Lemma RemoveAgentFromCluster_first_witness :
  wf Examples.clusters1 ∧
  ∃ cm' before after,
    RemoveAgentFromCluster "c1" "h1" 60 Examples.clusters1 = Some (None, cm') ∧
    ["h1"; "h2"] = before ++ "h1" :: after ∧
    Agents <$> at_key cm' "c1" = Some (before ++ after).
Proof.
  assert (Hwf : wf Examples.clusters1) by (apply (bool_decide_unpack _); vm_compute; exact I).
  split; [exact Hwf|].
  destruct (proj2 (RemoveAgentFromCluster_first "c1" "h1" 60 Examples.clusters1
                     Examples.cluster1 Hwf eq_refl))
    as (cm' & before & after & H1 & H2 & _ & H4 & _).
  { apply has_agent_spec. reflexivity. }
  exists cm', before, after. split_and!; [exact H1|exact H2|]. by rewrite H4.
Defined.

(** X21.  Adding an agent that is not in a cluster and then removing it
    gives the cluster its agent list back, in the same order; only
    UpdatedAt differs from the cluster before. *)
Theorem AddAgent_then_RemoveAgent (clusterID agentID : string) (t1 t2 : Z)
    (cm : cluster.t) (c : Cluster) :
  wf cm → at_key cm clusterID = Some c → agentID ∉ Agents c →
  ∃ cm1 cm2,
    AddAgentToCluster clusterID agentID t1 cm = Some (None, cm1) ∧
    RemoveAgentFromCluster clusterID agentID t2 cm1 = Some (None, cm2) ∧
    at_key cm2 clusterID = Some (set_UpdatedAt t2 c) ∧
    clusters cm2 = clusters cm.
Proof.
  intros Hwf Hat Hnin. unfold at_key in Hat.
  destruct (clusters cm !! clusterID) as [p|] eqn:Hp; [|done].
  unfold AddAgentToCluster. rewrite Hp, Hat.
  pose proof Hnin as Hf. apply has_agent_false in Hf. rewrite Hf.
  eexists _, _. split; [reflexivity|].
  unfold RemoveAgentFromCluster. simpl. rewrite Hp, lookup_insert_eq. simpl.
  pose proof (first_index_spec (Agents c ++ [agentID]) agentID 0) as Hfi.
  destruct (first_index (Agents c ++ [agentID]) agentID 0) as [j|].
  - destruct Hfi as (k & -> & Hk & Hnot). simpl.
    assert (Hklen : k = length (Agents c)).
    { apply lookup_app_Some in Hk as [Hk|[Hge Hk]].
      - exfalso. apply Hnin. by eapply list_elem_of_lookup_2.
      - apply list_lookup_singleton_Some in Hk as [Hk _]. lia. }
    subst k. split; [reflexivity|]. unfold at_key. simpl.
    rewrite Hp, lookup_insert_eq.
    rewrite take_app_length.
    replace (drop (S (length (Agents c))) (Agents c ++ [agentID])) with (@nil string)
      by (rewrite drop_ge; [done|rewrite length_app; simpl; lia]).
    rewrite app_nil_r. split; [|done]. by destruct c.
  - exfalso. apply Hfi. apply elem_of_app. right. apply list_elem_of_here.
Qed.

Lemma AddAgent_then_RemoveAgent_witness :
  wf Examples.clusters1 ∧
  ∃ cm1 cm2,
    AddAgentToCluster "c1" "h3" 50 Examples.clusters1 = Some (None, cm1) ∧
    RemoveAgentFromCluster "c1" "h3" 60 cm1 = Some (None, cm2) ∧
    Agents <$> at_key cm2 "c1" = Some ["h1"; "h2"].
Proof.
  assert (Hwf : wf Examples.clusters1) by (apply (bool_decide_unpack _); vm_compute; exact I).
  split; [exact Hwf|].
  destruct (AddAgent_then_RemoveAgent "c1" "h3" 50 60 Examples.clusters1
              Examples.cluster1 Hwf eq_refl) as (cm1 & cm2 & H1 & H2 & H3 & _).
  { apply has_agent_false. reflexivity. }
  exists cm1, cm2. split_and!; [exact H1|exact H2|]. by rewrite H3.
Defined.

(** X22.  An update that reaches [UpdateCluster] through the HTTP handler
    comes from decoding JSON, where an array is a [[]interface{}] and never
    a [[]string]: such an update sets UpdatedAt, sets the name and the
    description when they are given as strings, and never changes the
    agents, the id or the creation time of the cluster, whatever it carries
    under "agents".  For an id that is not in the map the handler answers
    400 "cluster C not found" (C the id) and changes nothing. *)
Theorem updateCluster_never_sets_agents (clusterID : string)
    (updates : gmap string Value) (now : Z) (cm : cluster.t) :
  wf cm → map_Forall (λ _ v, from_json v = true) updates →
  match at_key cm clusterID with
  | None =>
      updateCluster clusterID (Some updates) now cm
      = Some (BadRequest ("cluster " +:+ clusterID +:+ " not found"), cm)
  | Some c =>
      ∃ cm' c',
        updateCluster clusterID (Some updates) now cm = Some (OK, cm') ∧
        at_key cm' clusterID = Some c' ∧
        Agents c' = Agents c ∧ ID c' = ID c ∧ CreatedAt c' = CreatedAt c ∧
        UpdatedAt c' = now ∧
        (∀ name, updates !! "name" = Some (VString name) → Name c' = name) ∧
        (∀ desc, updates !! "description" = Some (VString desc) → Description c' = desc)
  end.
Proof.
  intros Hwf Hjson. unfold at_key, updateCluster, UpdateCluster.
  destruct (clusters cm !! clusterID) as [p|] eqn:Hp; [|done].
  destruct (wf_cluster cm clusterID p Hwf Hp) as [c Hc]. rewrite Hc.
  eexists _, _. split; [reflexivity|]. simpl. rewrite Hp, lookup_insert_eq.
  split; [reflexivity|].
  assert (Hag : ∀ l, updates !! "agents" ≠ Some (VStrings l)).
  { intros l Hl. specialize (Hjson _ _ Hl). discriminate. }
  destruct (updates !! "agents") as [[| | | | | |l]|] eqn:Hua;
    try (by destruct (Hag l));
    destruct (updates !! "name") as [[]|]; destruct (updates !! "description") as [[]|];
    destruct (updates !! "config") as [[]|]; simpl;
    (split_and!; [done..| |]; intros ? [= <-]; done).
Qed.

Lemma updateCluster_never_sets_agents_witness :
  wf Examples.clusters1 ∧
  ∃ cm' c',
    updateCluster "c1"
      (Some {[ "agents" := VArray [VString "h9"]; "name" := VString "staging" ]})
      70 Examples.clusters1 = Some (OK, cm') ∧
    at_key cm' "c1" = Some c' ∧ Agents c' = ["h1"; "h2"] ∧ Name c' = "staging".
Proof.
  assert (Hwf : wf Examples.clusters1) by (apply (bool_decide_unpack _); vm_compute; exact I).
  split; [exact Hwf|].
  pose proof (updateCluster_never_sets_agents "c1"
    {[ "agents" := VArray [VString "h9"]; "name" := VString "staging" ]}
    70 Examples.clusters1 Hwf) as H.
  destruct H as (cm' & c' & H1 & H2 & H3 & _ & _ & _ & H7 & _).
  { apply (bool_decide_unpack _). vm_compute. exact I. }
  exists cm', c'. split_and!; [exact H1|exact H2|exact H3|].
  apply H7. reflexivity.
Defined.

Lemma clusters_of_spec (agentID : string) (os : gmap nat Cluster)
    (l : list (string * loc)) :
  Forall (λ idp, is_Some (os !! idp.2)) l →
  ∃ ps, clusters_of agentID os l = Some ps ∧
        ∀ p, p ∈ ps ↔ ∃ id c, (id, p) ∈ l ∧ os !! p = Some c ∧ agentID ∈ Agents c.
Proof.
  induction l as [|[id q] l IH]; intros Hl.
  - exists []. split; [done|]. intros p. split.
    + intros H. by apply elem_of_nil in H.
    + intros (? & ? & H & _). by apply elem_of_nil in H.
  - apply Forall_cons in Hl as [[c Hc] Hl]. destruct (IH Hl) as (ps & Hps & Hiff).
    simpl in Hc. cbn [clusters_of]. simpl. rewrite Hc, Hps.
    eexists. split; [reflexivity|]. intros p.
    destruct (has_agent (Agents c) agentID) eqn:Hh.
    + apply has_agent_spec in Hh. rewrite elem_of_cons, Hiff. split.
      * intros [->|(id' & c' & Hin & Hc' & Ha)].
        -- exists id, c. split_and!; [apply list_elem_of_here|done..].
        -- exists id', c'. split_and!; [by apply list_elem_of_further|done..].
      * intros (id' & c' & Hin & Hc' & Ha). apply elem_of_cons in Hin as [[= -> ->]|Hin].
        -- by left.
        -- right. by exists id', c'.
    + rewrite Hiff. split.
      * intros (id' & c' & Hin & Hc' & Ha).
        exists id', c'. split_and!; [by apply list_elem_of_further|done..].
      * intros (id' & c' & Hin & Hc' & Ha). apply elem_of_cons in Hin as [[= -> ->]|Hin].
        -- exfalso. rewrite Hc in Hc'. injection Hc' as <-.
           apply has_agent_spec in Ha. congruence.
        -- by exists id', c'.
Qed.

(** X23.  [GetAgentClusters] returns exactly the clusters of the map whose
    agent list holds the agent: a pointer is in the result if and only if
    some key maps to it and its cluster lists [agentID].  A missing agent
    gives the empty (nil) slice, never an error. *)
Theorem GetAgentClusters_exact (agentID : string) (cm : cluster.t) :
  wf cm →
  ∃ ps, GetAgentClusters agentID cm = Some ps ∧
        ∀ p, p ∈ ps ↔ ∃ id c, clusters cm !! id = Some p ∧
                              objs cm !! p = Some c ∧ agentID ∈ Agents c.
Proof.
  intros Hwf. unfold GetAgentClusters.
  destruct (clusters_of_spec agentID (objs cm) (map_to_list (clusters cm)))
    as (ps & Hps & Hiff).
  { apply Forall_forall. intros [id p] Hin. apply elem_of_map_to_list in Hin.
    exact (Hwf id p Hin). }
  exists ps. split; [exact Hps|]. intros p. rewrite Hiff.
  split; intros (id & c & Hin & H); exists id, c; split; try exact H.
  - by apply elem_of_map_to_list in Hin.
  - by apply elem_of_map_to_list.
Qed.

Lemma GetAgentClusters_exact_witness :
  wf Examples.clusters1 ∧
  ∃ ps, GetAgentClusters "h2" Examples.clusters1 = Some ps ∧ 0%nat ∈ ps.
Proof.
  assert (Hwf : wf Examples.clusters1) by (apply (bool_decide_unpack _); vm_compute; exact I).
  split; [exact Hwf|].
  destruct (GetAgentClusters_exact "h2" Examples.clusters1 Hwf) as (ps & Hps & Hiff).
  exists ps. split; [exact Hps|]. apply Hiff.
  exists "c1", Examples.cluster1. split_and!; [reflexivity..|].
  apply has_agent_spec. reflexivity.
Defined.

End ClusterMore.

Section TokenMore.
Import token.

Lemma wf_token (tm : token.t) tok p :
  wf tm → tokens tm !! tok = Some p → is_Some (objs tm !! p).
Proof. intros Hwf Hp. exact (Hwf tok p Hp). Qed.

Lemma cleanup_loop_None now os l toks k :
  toks !! k = None →
  ∀ toks', cleanup_loop now os l toks = Some toks' → toks' !! k = None.
Proof.
  revert toks. induction l as [|[tk p] l IH]; intros toks Hk toks'; simpl.
  - by intros [= <-].
  - destruct (os !! p) as [i|]; [|done]. apply IH.
    destruct (Time.After now (ExpiresAt i)); [|done].
    destruct (decide (tk = k)) as [->|Hne].
    + apply lookup_delete_eq.
    + by rewrite lookup_delete_ne.
Qed.

Lemma cleanup_loop_spec now os l toks :
  Forall (λ kp, is_Some (os !! kp.2)) l →
  ∃ toks', cleanup_loop now os l toks = Some toks' ∧
    ∀ k, (∀ p i, (k, p) ∈ l → os !! p = Some i → Time.After now (ExpiresAt i) = true →
                 toks' !! k = None) ∧
         ((∀ p i, (k, p) ∈ l → os !! p = Some i → Time.After now (ExpiresAt i) = false) →
          toks' !! k = toks !! k).
Proof.
  revert toks. induction l as [|[tk q] l IH]; intros toks Hl.
  - exists toks. split; [done|]. intros k. split; [|done].
    intros p i Hin. by apply elem_of_nil in Hin.
  - apply Forall_cons in Hl as [[j Hj] Hl]. simpl in Hj. cbn [cleanup_loop]. rewrite Hj.
    set (toks1 := if Time.After now (ExpiresAt j) then delete tk toks else toks).
    destruct (IH toks1 Hl) as (toks' & Hloop & Hspec).
    exists toks'. split; [exact Hloop|]. intros k. split.
    + intros p i Hin Hi Hexp. apply elem_of_cons in Hin as [[= -> ->]|Hin].
      * eapply cleanup_loop_None; [|exact Hloop].
        unfold toks1. rewrite Hj in Hi. injection Hi as ->. rewrite Hexp.
        apply lookup_delete_eq.
      * by eapply (proj1 (Hspec k)).
    + intros Hall. rewrite (proj2 (Hspec k)).
      * unfold toks1. destruct (Time.After now (ExpiresAt j)) eqn:Hexp; [|done].
        destruct (decide (tk = k)) as [->|Hne]; [|by rewrite lookup_delete_ne].
        rewrite (Hall q j) in Hexp; [done|apply list_elem_of_here|done].
      * intros p i Hin. apply Hall. by apply list_elem_of_further.
Qed.

Lemma wf_GenerateToken agentID permissions rnd now (tm : token.t) :
  wf tm → wf (GenerateToken agentID permissions rnd now tm).2.
Proof.
  intros Hwf. unfold GenerateToken. destruct rnd as [tok|err]; [|done].
  cbn [Store.alloc snd]. intros k p. cbn [tokens objs].
  destruct (decide (tok = k)) as [Heq|Hne]; [subst k|].
  - rewrite lookup_insert_eq. intros [= <-]. by rewrite lookup_insert_eq.
  - rewrite lookup_insert_ne by done. intros Hk.
    destruct (Hwf k p Hk) as [i Hi].
    rewrite lookup_insert_ne; [by eexists|]. by apply (fresh_ne _ _ i).
Qed.

Lemma wf_RevokeToken tok (tm tm' : token.t) err :
  wf tm → RevokeToken tok tm = Some (err, tm') → wf tm'.
Proof.
  intros Hwf. unfold RevokeToken.
  destruct (tokens tm !! tok) as [p|]; [|by intros [= <- <-]].
  destruct (objs tm !! p) as [i|] eqn:Hi; [|done]. intros [= <- <-].
  intros k q Hk. cbn [tokens objs] in *.
  destruct (decide (p = q)) as [Heq|Hne]; [subst q; by rewrite lookup_insert_eq|].
  rewrite lookup_insert_ne by done. exact (Hwf k q Hk).
Qed.

(** What one cleanup leaves. *)
Lemma cleanup_lookup (now : Z) (tm : token.t) :
  wf tm →
  ∃ tm', CleanupExpiredTokens now tm = Some tm' ∧ objs tm' = objs tm ∧
         ∀ tok p, tokens tm' !! tok = Some p ↔
                  tokens tm !! tok = Some p ∧
                  ∃ i, objs tm !! p = Some i ∧ now ≤ ExpiresAt i.
Proof.
  intros Hwf. unfold CleanupExpiredTokens.
  destruct (cleanup_loop_spec now (objs tm) (map_to_list (tokens tm)) (tokens tm))
    as (toks' & Hloop & Hspec).
  { apply Forall_forall. intros [k p] Hin. apply elem_of_map_to_list in Hin.
    exact (Hwf k p Hin). }
  rewrite Hloop. eexists. split_and!; [reflexivity..|].
  cbn [tokens objs]. intros tok p. destruct (Hspec tok) as [Hgone Hkept].
  split.
  - intros Hp. destruct (tokens tm !! tok) as [p0|] eqn:Hp0.
    + destruct (wf_token tm tok p0 Hwf Hp0) as [i Hi].
      destruct (Time.After now (ExpiresAt i)) eqn:Hexp.
      * rewrite (Hgone p0 i) in Hp; [done|by apply elem_of_map_to_list|done..].
      * rewrite Hkept in Hp.
        -- injection Hp as <-. split; [done|]. exists i. split; [done|].
           unfold Time.After in Hexp. apply Z.ltb_ge in Hexp. lia.
        -- intros p1 i1 Hin Hi1. apply elem_of_map_to_list in Hin.
           rewrite Hp0 in Hin. injection Hin as <-. rewrite Hi in Hi1.
           by injection Hi1 as <-.
    + rewrite Hkept in Hp; [done|].
      intros p1 i1 Hin. apply elem_of_map_to_list in Hin. congruence.
  - intros (Hp & i & Hi & Hle). rewrite Hkept; [done|].
    intros p1 i1 Hin Hi1. apply elem_of_map_to_list in Hin.
    rewrite Hp in Hin. injection Hin as <-. rewrite Hi in Hi1. injection Hi1 as <-.
    unfold Time.After. apply Z.ltb_ge. lia.
Qed.

(** What a run of cleanups leaves: the keys whose token had not expired at
    any of the instants. *)
Lemma cleanups_lookup (nows : list Z) (tm : token.t) :
  wf tm →
  ∃ tm', cleanups nows tm = Some tm' ∧ objs tm' = objs tm ∧
         ∀ tok p, tokens tm' !! tok = Some p ↔
                  tokens tm !! tok = Some p ∧
                  ∃ i, objs tm !! p = Some i ∧ Forall (λ now, now ≤ ExpiresAt i) nows.
Proof.
  revert tm. induction nows as [|now nows IH]; intros tm Hwf.
  - exists tm. split_and!; [done..|]. intros tok p. split.
    + intros Hp. split; [done|]. destruct (Hwf tok p Hp) as [i Hi]. by exists i.
    + by intros [Hp _].
  - destruct (cleanup_lookup now tm Hwf) as (tm1 & Hc & Hobjs & Hkeys).
    assert (Hwf1 : wf tm1).
    { intros k p Hk. rewrite Hobjs. apply Hkeys in Hk as [Hk _]. exact (Hwf k p Hk). }
    destruct (IH tm1 Hwf1) as (tm' & Hcs & Hobjs' & Hkeys').
    exists tm'. cbn [cleanups]. rewrite Hc. split_and!; [done|congruence|].
    intros tok p. rewrite Hkeys', Hkeys, Hobjs. split.
    + intros [[Hp (i & Hi & Hle)] (i' & Hi' & Hall)].
      rewrite Hi in Hi'. injection Hi' as <-. split; [done|]. exists i.
      split; [done|]. by constructor.
    + intros [Hp (i & Hi & Hall)]. apply Forall_cons in Hall as [Hle Hall].
      split; [split; [done|]|]; by exists i.
Qed.

Lemma readings_Forall (d start : Z) (lags : list Z) (P : Z → Prop) :
  Forall P (Registry.readings d start lags) ↔
  ∀ k lag, lags !! k = Some lag → P (start + Z.of_nat (S k) * d + lag).
Proof.
  rewrite Forall_lookup. split.
  - intros H k lag Hk. apply (H k). by rewrite readings_lookup, Hk.
  - intros H k x Hk. rewrite readings_lookup in Hk.
    destruct (lags !! k) as [lag|] eqn:Hlag; [|done]. injection Hk as <-. by apply H.
Qed.

(** X24.  A token that [GenerateToken] hands out is in the map until an
    iteration of the rotation goroutine reads the clock after the instant
    [now + expirationTime].  Until then [ValidateToken] accepts it at every
    instant up to and including that one, stamping LastUsed with the second
    clock reading and changing nothing else of the token, and answers
    "token has expired" at every later instant, leaving the manager as it
    is.  Once such an iteration has run, the token is gone and
    [ValidateToken] answers "token not found". *)
Theorem GenerateToken_then_ValidateToken (agentID tok : string)
    (permissions : list string) (now now1 now2 start : Z) (lags : list Z)
    (tm : token.t) :
  wf tm → 0 < rotationInterval tm →
  ∃ tm' p tmc,
    GenerateToken agentID permissions (inl tok) now tm = ((tok, None), tm') ∧
    tokens tm' !! tok = Some p ∧
    startTokenRotation start lags tm' = Some tmc ∧
    ((∀ k lag, lags !! k = Some lag →
        start + Z.of_nat (S k) * rotationInterval tm + lag ≤ now + expirationTime tm) →
     (now1 ≤ now + expirationTime tm →
      ∃ tm'', ValidateToken tok now1 now2 tmc = Some ((Some p, None), tm'') ∧
              at_key tm'' tok
              = Some (mkTokenInfo tok now (now + expirationTime tm) now2
                                  agentID permissions true)) ∧
     (now + expirationTime tm < now1 →
      ValidateToken tok now1 now2 tmc = Some ((None, Some "token has expired"), tmc))) ∧
    ((∃ k lag, lags !! k = Some lag ∧
        now + expirationTime tm < start + Z.of_nat (S k) * rotationInterval tm + lag) →
     ValidateToken tok now1 now2 tmc = Some ((None, Some "token not found"), tmc)).
Proof.
  intros Hwf Hint.
  pose proof (wf_GenerateToken agentID permissions (inl tok) now tm Hwf) as Hwf'.
  unfold GenerateToken in *. cbn [Store.alloc snd] in *.
  set (p := fresh (dom (objs tm))) in *.
  set (i := mkTokenInfo tok now (Time.Add now (expirationTime tm)) now agentID
                        permissions true) in *.
  set (tm' := mk _ _ _ _) in *.
  destruct (cleanups_lookup (Registry.readings (rotationInterval tm) start lags) tm' Hwf')
    as (tmc & Hcs & Hobjs & Hkeys).
  exists tm', p, tmc. split_and!; [reflexivity|apply lookup_insert_eq| | |].
  - unfold startTokenRotation. cbn [rotationInterval tm'].
    by destruct (Z.leb_spec (rotationInterval tm) 0); [lia|].
  - intros Hall.
    assert (Hp : tokens tmc !! tok = Some p).
    { apply Hkeys. split; [apply lookup_insert_eq|]. exists i.
      split; [apply lookup_insert_eq|]. by apply readings_Forall. }
    assert (Hi : objs tmc !! p = Some i) by (rewrite Hobjs; apply lookup_insert_eq).
    unfold ValidateToken, at_key. rewrite Hp, Hi.
    cbn [IsActive ExpiresAt negb i]. unfold Time.After, Time.Add. split; intros H.
    + destruct (Z.ltb_spec (now + expirationTime tm) now1); [lia|].
      eexists. split; [reflexivity|]. cbn [tokens objs]. by rewrite Hp, lookup_insert_eq.
    + by destruct (Z.ltb_spec (now + expirationTime tm) now1); [|lia].
  - intros (k & lag & Hk & Hlt).
    assert (Hp : tokens tmc !! tok = None).
    { destruct (tokens tmc !! tok) as [q|] eqn:Hq; [|done].
      apply Hkeys in Hq as [Hq (i' & Hi' & Hall)].
      cbn [tokens objs tm'] in Hq, Hi'. rewrite lookup_insert_eq in Hq.
      injection Hq as <-. rewrite lookup_insert_eq in Hi'. injection Hi' as <-.
      rewrite readings_Forall in Hall. specialize (Hall k lag Hk).
      cbn [ExpiresAt i] in Hall. unfold Time.Add in Hall. lia. }
    unfold ValidateToken. by rewrite Hp.
Qed.

Lemma GenerateToken_then_ValidateToken_witness :
  ∃ tm' p tmc tm'',
    GenerateToken "a1" ["read"] (inl "tok1") 5 (mk ∅ ∅ 10 20) = (("tok1", None), tm') ∧
    startTokenRotation 0 [1; 0] tm' = Some tmc ∧
    ValidateToken "tok1" 24 25 tmc = Some ((Some p, None), tm'') ∧
    LastUsed <$> at_key tm'' "tok1" = Some 25.
Proof.
  destruct (GenerateToken_then_ValidateToken "a1" "tok1" ["read"] 5 24 25 0 [1; 0]
              (mk ∅ ∅ 10 20)) as (tm' & p & tmc & H1 & _ & H3 & H4 & _).
  { apply (bool_decide_unpack _). vm_compute. exact I. }
  { vm_compute. reflexivity. }
  destruct H4 as [H4 _].
  { intros k lag Hk.
    do 2 (destruct k as [|k]; [injection Hk as <-; vm_compute; discriminate|]).
    discriminate. }
  destruct H4 as (tm'' & H5 & H6); [vm_compute; discriminate|].
  exists tm', p, tmc, tm''. split_and!; [exact H1|exact H3|exact H5|]. by rewrite H6.
Defined.

(** X25.  After [RevokeToken] on a token of the map, no later
    [ValidateToken] accepts the token, whatever the instant and however
    many iterations of the rotation goroutine have run in between: the
    answer is "token is inactive", also before the expiry, as long as no
    iteration has read the clock after the expiry of the token, and "token
    not found" once one has; either way the manager stays as it is.  The
    revocation itself leaves the token in the map with all other fields as
    they were. *)
Theorem RevokeToken_then_ValidateToken (tok : string) (now1 now2 start : Z)
    (lags : list Z) (tm : token.t) (i : TokenInfo) :
  wf tm → 0 < rotationInterval tm → at_key tm tok = Some i →
  ∃ tm' tmc,
    RevokeToken tok tm = Some (None, tm') ∧
    at_key tm' tok = Some (set_IsActive false i) ∧
    tokens tm' = tokens tm ∧
    startTokenRotation start lags tm' = Some tmc ∧
    ((∀ k lag, lags !! k = Some lag →
        start + Z.of_nat (S k) * rotationInterval tm + lag ≤ ExpiresAt i) →
     ValidateToken tok now1 now2 tmc = Some ((None, Some "token is inactive"), tmc)) ∧
    ((∃ k lag, lags !! k = Some lag ∧
        ExpiresAt i < start + Z.of_nat (S k) * rotationInterval tm + lag) →
     ValidateToken tok now1 now2 tmc = Some ((None, Some "token not found"), tmc)) ∧
    accepts tok now1 tmc = false.
Proof.
  intros Hwf Hint Hat. unfold at_key in Hat.
  destruct (tokens tm !! tok) as [p|] eqn:Hp; [|done].
  assert (Hrev : RevokeToken tok tm
                 = Some (None, mk (<[p := set_IsActive false i]> (objs tm)) (tokens tm)
                                  (rotationInterval tm) (expirationTime tm))).
  { unfold RevokeToken. by rewrite Hp, Hat. }
  set (tm' := mk _ _ _ _) in Hrev.
  assert (Hwf' : wf tm') by exact (wf_RevokeToken tok tm tm' None Hwf Hrev).
  destruct (cleanups_lookup (Registry.readings (rotationInterval tm) start lags) tm' Hwf')
    as (tmc & Hcs & Hobjs & Hkeys).
  assert (Hi' : objs tmc !! p = Some (set_IsActive false i))
    by (rewrite Hobjs; apply lookup_insert_eq).
  assert (Hcases : tokens tmc !! tok = Some p ∨ tokens tmc !! tok = None).
  { destruct (tokens tmc !! tok) as [q|] eqn:Hq; [left|by right].
    apply Hkeys in Hq as [Hq _]. cbn [tokens tm'] in Hq. congruence. }
  exists tm', tmc. split_and!; [exact Hrev| |reflexivity| | | |].
  - unfold at_key. cbn [tokens objs tm']. by rewrite Hp, lookup_insert_eq.
  - unfold startTokenRotation. cbn [rotationInterval tm'].
    by destruct (Z.leb_spec (rotationInterval tm) 0); [lia|].
  - intros Hall.
    assert (Hq : tokens tmc !! tok = Some p).
    { apply Hkeys. split; [exact Hp|]. exists (set_IsActive false i).
      split; [apply lookup_insert_eq|]. by apply readings_Forall. }
    unfold ValidateToken. by rewrite Hq, Hi'.
  - intros (k & lag & Hk & Hlt).
    assert (Hq : tokens tmc !! tok = None).
    { destruct Hcases as [Hq|Hq]; [|done].
      apply Hkeys in Hq as [_ (i' & Hi2 & Hall)].
      cbn [objs tm'] in Hi2. rewrite lookup_insert_eq in Hi2. injection Hi2 as <-.
      rewrite readings_Forall in Hall. specialize (Hall k lag Hk).
      cbn [ExpiresAt set_IsActive] in Hall. lia. }
    unfold ValidateToken. by rewrite Hq.
  - unfold accepts, ValidateToken.
    destruct Hcases as [Hq|Hq]; rewrite Hq; [by rewrite Hi'|done].
Qed.

Lemma RevokeToken_then_ValidateToken_witness :
  ∃ tm2 tmc,
    RevokeToken "tok1" (mk {[ 0%nat := mkTokenInfo "tok1" 5 25 5 "a1" ["read"] true ]}
                           {[ "tok1" := 0%nat ]} 10 20) = Some (None, tm2) ∧
    startTokenRotation 0 [1; 0; 3] tm2 = Some tmc ∧
    ValidateToken "tok1" 5 5 tm2 = Some ((None, Some "token is inactive"), tm2) ∧
    ValidateToken "tok1" 40 40 tmc = Some ((None, Some "token not found"), tmc).
Proof.
  set (tm := mk _ _ _ _).
  assert (Hwf : wf tm) by (apply (bool_decide_unpack _); vm_compute; exact I).
  destruct (RevokeToken_then_ValidateToken "tok1" 40 40 0 [1; 0; 3] tm
              (mkTokenInfo "tok1" 5 25 5 "a1" ["read"] true) Hwf)
    as (tm2 & tmc & H1 & _ & _ & H4 & _ & H6 & _); [vm_compute; reflexivity|reflexivity|].
  exists tm2, tmc. split_and!; [exact H1|exact H4| |].
  - injection H1 as <-. reflexivity.
  - apply H6. exists 2%nat, 3. split; [reflexivity|vm_compute; reflexivity].
Defined.

(** X26.  [RotateToken] looks neither at IsActive nor at ExpiresAt of the
    old token: for every token of the map, also a revoked or an expired
    one, a manager whose expirationTime is not negative hands out a new
    token that [ValidateToken] accepts at that instant, with the agent and
    the permissions of the old one and a full lifetime.  The old token, when the new text differs from it, stays in
    the map and is inactive. *)
Theorem RotateToken_any_state (oldToken newToken : string) (now : Z)
    (tm : token.t) (i : TokenInfo) :
  0 ≤ expirationTime tm → at_key tm oldToken = Some i →
  ∃ tm' q,
    RotateToken oldToken (inl newToken) now tm = Some ((newToken, None), tm') ∧
    tokens tm' !! newToken = Some q ∧
    at_key tm' newToken
    = Some (mkTokenInfo newToken now (now + expirationTime tm) now
                        (AgentID i) (Permissions i) true) ∧
    accepts newToken now tm' = true ∧
    (newToken ≠ oldToken → at_key tm' oldToken = Some (set_IsActive false i)).
Proof.
  unfold at_key, RotateToken. intros Hexp Hat.
  destruct (tokens tm !! oldToken) as [p|] eqn:Hp; [|done]. rewrite Hat.
  cbn [Store.alloc]. set (q := fresh (dom (objs tm))).
  assert (Hq : q ≠ p).
  { exact (fresh_ne (objs tm) p i Hat). }
  eexists _, q. split; [reflexivity|]. cbn [tokens objs].
  rewrite lookup_insert_eq. split; [reflexivity|].
  assert (Hnew : <[p:=set_IsActive false i]>
                   (<[q:=mkTokenInfo newToken now (Time.Add now (expirationTime tm)) now
                                     (AgentID i) (Permissions i) true]> (objs tm)) !! q
                 = Some (mkTokenInfo newToken now (now + expirationTime tm) now
                                     (AgentID i) (Permissions i) true)).
  { rewrite lookup_insert_ne by done. by rewrite lookup_insert_eq. }
  split; [exact Hnew|]. split.
  - unfold accepts, ValidateToken. cbn [tokens objs]. rewrite lookup_insert_eq, Hnew.
    cbn [IsActive ExpiresAt negb]. unfold Time.After.
    destruct (Z.ltb_spec (now + expirationTime tm) now); [lia|done].
  - intros Hne. rewrite lookup_insert_ne by done. rewrite Hp.
    by rewrite lookup_insert_eq.
Qed.

Lemma RotateToken_any_state_witness :
  ∃ tm1 tm2 tm3,
    GenerateToken "a1" ["read"] (inl "tok1") 5 (mk ∅ ∅ 10 2) = (("tok1", None), tm1) ∧
    RevokeToken "tok1" tm1 = Some (None, tm2) ∧
    RotateToken "tok1" (inl "tok2") 100 tm2 = Some (("tok2", None), tm3) ∧
    accepts "tok1" 100 tm2 = false ∧
    accepts "tok2" 100 tm3 = true.
Proof.
  eexists _, _.
  destruct (RotateToken_any_state "tok1" "tok2" 100
              (mk {[ 0%nat := mkTokenInfo "tok1" 5 7 5 "a1" ["read"] false ]}
                  {[ "tok1" := 0%nat ]} 10 2)
              (mkTokenInfo "tok1" 5 7 5 "a1" ["read"] false))
    as (tm3 & q & H1 & _ & _ & H4 & _); [vm_compute; discriminate|reflexivity|].
  exists tm3. split_and!; [reflexivity|reflexivity|exact H1|reflexivity|exact H4].
Defined.

(** X27.  [CleanupExpiredTokens] removes exactly the keys whose token has
    ExpiresAt strictly before the clock reading: a key is in the map
    afterwards, with the pointer it had, if and only if it was there and
    its token expires at that instant or later.  Revoked tokens that have
    not expired are kept, and no token object is touched. *)
Theorem CleanupExpiredTokens_exact (now : Z) (tm : token.t) :
  wf tm →
  ∃ tm',
    CleanupExpiredTokens now tm = Some tm' ∧
    objs tm' = objs tm ∧
    ∀ tok p, tokens tm' !! tok = Some p ↔
             tokens tm !! tok = Some p ∧
             ∃ i, objs tm !! p = Some i ∧ now ≤ ExpiresAt i.
Proof.
  intros Hwf. unfold CleanupExpiredTokens.
  destruct (cleanup_loop_spec now (objs tm) (map_to_list (tokens tm)) (tokens tm))
    as (toks' & Hloop & Hspec).
  { apply Forall_forall. intros [k p] Hin. apply elem_of_map_to_list in Hin.
    exact (Hwf k p Hin). }
  rewrite Hloop. eexists. split; [reflexivity|]. split; [reflexivity|].
  cbn [tokens objs]. intros tok p.
  destruct (tokens tm !! tok) as [p0|] eqn:Hp0.
  - destruct (wf_token tm tok p0 Hwf Hp0) as [i Hi].
    destruct (Time.After now (ExpiresAt i)) eqn:Hexp.
    + rewrite (proj1 (Hspec tok) p0 i); [|by apply elem_of_map_to_list|done..].
      split; [done|]. intros [[= ->] (i' & Hi' & Hle)].
      rewrite Hi in Hi'. injection Hi' as <-. unfold Time.After in Hexp.
      apply Z.ltb_lt in Hexp. lia.
    + rewrite (proj2 (Hspec tok)), Hp0.
      * split.
        -- intros [= ->]. split; [done|]. exists i. split; [done|].
           unfold Time.After in Hexp. apply Z.ltb_ge in Hexp. lia.
        -- by intros [? _].
      * intros p1 i1 Hin Hi1. apply elem_of_map_to_list in Hin.
        rewrite Hp0 in Hin. injection Hin as <-. rewrite Hi in Hi1. by injection Hi1 as <-.
  - rewrite (proj2 (Hspec tok)), Hp0.
    + split; [done|]. by intros [? _].
    + intros p1 i1 Hin. apply elem_of_map_to_list in Hin. congruence.
Qed.

Lemma CleanupExpiredTokens_exact_witness :
  wf (mk {[ 0%nat := mkTokenInfo "tok1" 5 7 5 "a1" ["read"] false;
            1%nat := mkTokenInfo "tok2" 1 3 1 "a2" [] true ]}
         {[ "tok1" := 0%nat; "tok2" := 1%nat ]} 10 2) ∧
  ∃ tm',
    CleanupExpiredTokens 6
      (mk {[ 0%nat := mkTokenInfo "tok1" 5 7 5 "a1" ["read"] false;
             1%nat := mkTokenInfo "tok2" 1 3 1 "a2" [] true ]}
          {[ "tok1" := 0%nat; "tok2" := 1%nat ]} 10 2) = Some tm' ∧
    tokens tm' !! "tok1" = Some 0%nat.
Proof.
  set (tm := mk _ _ _ _).
  assert (Hwf : wf tm) by (apply (bool_decide_unpack _); vm_compute; exact I).
  split; [exact Hwf|].
  destruct (CleanupExpiredTokens_exact 6 tm Hwf) as (tm' & H1 & _ & H3).
  exists tm'. split; [exact H1|]. apply H3. split; [reflexivity|].
  eexists. split; [reflexivity|]. vm_compute. discriminate.
Defined.

Lemma accepts_spec (tm : token.t) tok p i now :
  tokens tm !! tok = Some p → objs tm !! p = Some i →
  accepts tok now tm = IsActive i && negb (Time.After now (ExpiresAt i)).
Proof.
  intros Hp Hi. unfold accepts, ValidateToken. rewrite Hp, Hi.
  destruct (IsActive i); [|done]. simpl. by destruct (Time.After now (ExpiresAt i)).
Qed.

Lemma stats_loop_spec (tm : token.t) now l a e :
  Forall (λ kp, tokens tm !! kp.1 = Some kp.2 ∧ is_Some (objs tm !! kp.2)) l →
  ∃ a' e', stats_loop now (objs tm) l a e = Some (a', e') ∧
    a' = a + Z.of_nat (length (filter (λ kp, accepts kp.1 now tm = true) l)) ∧
    e ≤ e' ∧ (a' - a) + (e' - e) ≤ Z.of_nat (length l).
Proof.
  revert a e. induction l as [|[k p] l IH]; intros a e Hl.
  - exists a, e. simpl. split; [done|]. lia.
  - apply Forall_cons in Hl as [[Hk [i Hi]] Hl]. simpl in Hk, Hi.
    cbn [stats_loop]. rewrite Hi. rewrite filter_cons. cbn [fst].
    rewrite (accepts_spec tm k p i now Hk Hi).
    destruct (IsActive i); [destruct (Time.After now (ExpiresAt i))|]; cbn [andb negb].
    + destruct (IH a (e + 1) Hl) as (a' & e' & H1 & H2 & H3 & H4).
      exists a', e'. split; [exact H1|]. rewrite decide_False by done.
      simpl length. lia.
    + destruct (IH (a + 1) e Hl) as (a' & e' & H1 & H2 & H3 & H4).
      exists a', e'. split; [exact H1|]. rewrite decide_True by done.
      simpl length. lia.
    + destruct (IH a e Hl) as (a' & e' & H1 & H2 & H3 & H4).
      exists a', e'. split; [exact H1|]. rewrite decide_False by done.
      simpl length. lia.
Qed.

(** X28.  "active_tokens" of [GetTokenStats] is the number of keys that
    [ValidateToken] accepts at the same instant; "total_tokens" is the
    size of the map, and the active and the expired ones together never
    exceed it (revoked tokens are counted in neither). *)
Theorem GetTokenStats_counts_accepted (now : Z) (tm : token.t) :
  wf tm →
  ∃ st,
    GetTokenStats now tm = Some st ∧
    total_tokens st = Z.of_nat (size (tokens tm)) ∧
    active_tokens st
    = Z.of_nat (length (filter (λ kp, accepts kp.1 now tm = true)
                               (map_to_list (tokens tm)))) ∧
    0 ≤ expired_tokens st ∧
    active_tokens st + expired_tokens st ≤ total_tokens st.
Proof.
  intros Hwf. unfold GetTokenStats.
  destruct (stats_loop_spec tm now (map_to_list (tokens tm)) 0 0)
    as (a & e & Hloop & Ha & He & Hsum).
  { apply Forall_forall. intros [k p] Hin. apply elem_of_map_to_list in Hin.
    split; [exact Hin|exact (Hwf k p Hin)]. }
  rewrite Hloop. eexists. split; [reflexivity|]. cbn [total_tokens active_tokens expired_tokens].
  rewrite length_map_to_list in Hsum.
  split_and!; [done|lia|lia|lia].
Qed.

Lemma GetTokenStats_counts_accepted_witness :
  wf (mk {[ 0%nat := mkTokenInfo "tok1" 5 7 5 "a1" ["read"] false;
            1%nat := mkTokenInfo "tok2" 1 9 1 "a2" [] true ]}
         {[ "tok1" := 0%nat; "tok2" := 1%nat ]} 10 2) ∧
  ∃ st,
    GetTokenStats 6
      (mk {[ 0%nat := mkTokenInfo "tok1" 5 7 5 "a1" ["read"] false;
             1%nat := mkTokenInfo "tok2" 1 9 1 "a2" [] true ]}
          {[ "tok1" := 0%nat; "tok2" := 1%nat ]} 10 2) = Some st ∧
    total_tokens st = 2 ∧ active_tokens st + expired_tokens st ≤ 2.
Proof.
  set (tm := mk _ _ _ _).
  assert (Hwf : wf tm) by (apply (bool_decide_unpack _); vm_compute; exact I).
  split; [exact Hwf|].
  destruct (GetTokenStats_counts_accepted 6 tm Hwf) as (st & H1 & H2 & _ & _ & H5).
  exists st. split; [exact H1|]. rewrite H2 in H5. split; [exact H2|exact H5].
Defined.

End TokenMore.

Section PermissionMore.
Import permission.

Lemma allow_keeps m r a r' a' : set_at m r a → set_at (allow r' a' m) r a.
Proof.
  intros (inner & Hr & Ha). unfold allow.
  destruct (m !! r') as [inner'|] eqn:Hr'; [|by exists inner].
  destruct (decide (r' = r)) as [->|Hne].
  - rewrite Hr in Hr'. injection Hr' as <-.
    exists (<[a' := true]> inner). rewrite lookup_insert_eq. split; [done|].
    destruct (decide (a' = a)) as [->|Hne]; [apply lookup_insert_eq|].
    by rewrite lookup_insert_ne.
  - exists inner. by rewrite lookup_insert_ne.
Qed.

Lemma allow_sets m r a : is_Some (m !! r) → set_at (allow r a m) r a.
Proof.
  intros [inner Hr]. unfold allow. rewrite Hr.
  exists (<[a := true]> inner). by rewrite !lookup_insert_eq.
Qed.

Lemma allow_is_Some m r a r' : is_Some (m !! r') → is_Some (allow r a m !! r').
Proof.
  intros Hr'. unfold allow. destruct (m !! r) as [inner|] eqn:Hr; [|done].
  destruct (decide (r = r')) as [->|Hne]; [by rewrite lookup_insert_eq|].
  by rewrite lookup_insert_ne.
Qed.

Lemma ensure_keeps m r a r' : set_at m r a → set_at (ensure r' m) r a.
Proof.
  intros (inner & Hr & Ha). unfold ensure.
  destruct (m !! r') as [inner'|] eqn:Hr'; [by exists inner|].
  exists inner. rewrite lookup_insert_ne; [done|congruence].
Qed.

Lemma ensure_is_Some m r : is_Some (ensure r m !! r).
Proof.
  unfold ensure. destruct (m !! r) as [inner|] eqn:Hr; [by rewrite Hr|].
  by rewrite lookup_insert_eq.
Qed.

(** Both arms of the test [action == "*"] do the same write. *)
Lemma actions_step r action m :
  (if String.eqb action "*" then allow r "*" m else allow r action m) = allow r action m.
Proof. destruct (String.eqb_spec action "*") as [->|]; done. Qed.

Lemma actions_loop_keeps r' actions m r a :
  set_at m r a → set_at (actions_loop r' actions m) r a.
Proof.
  revert m. induction actions as [|action rest IH]; intros m H; [done|].
  cbn [actions_loop]. rewrite actions_step. apply IH. by apply allow_keeps.
Qed.

Lemma actions_loop_sets r actions m a :
  is_Some (m !! r) → a ∈ actions → set_at (actions_loop r actions m) r a.
Proof.
  revert m. induction actions as [|action rest IH]; intros m Hm Ha.
  - by apply elem_of_nil in Ha.
  - cbn [actions_loop]. rewrite actions_step.
    apply elem_of_cons in Ha as [->|Ha].
    + apply actions_loop_keeps. by apply allow_sets.
    + apply IH; [by apply allow_is_Some|done].
Qed.

(** Both arms of the test [perm.Resource == "*"] do the same writes. *)
Lemma perms_step perm m :
  (if String.eqb (Resource perm) "*"
   then actions_loop "*" (Actions perm) (ensure "*" m)
   else actions_loop (Resource perm) (Actions perm) (ensure (Resource perm) m))
  = actions_loop (Resource perm) (Actions perm) (ensure (Resource perm) m).
Proof. destruct (String.eqb_spec (Resource perm) "*") as [->|]; done. Qed.

Lemma perms_loop_keeps perms m r a : set_at m r a → set_at (perms_loop perms m) r a.
Proof.
  revert m. induction perms as [|perm rest IH]; intros m H; [done|].
  cbn [perms_loop]. rewrite perms_step. apply IH.
  apply actions_loop_keeps. by apply ensure_keeps.
Qed.

Lemma perms_loop_sets perms m perm a :
  perm ∈ perms → a ∈ Actions perm → set_at (perms_loop perms m) (Resource perm) a.
Proof.
  revert m. induction perms as [|perm' rest IH]; intros m Hp Ha.
  - by apply elem_of_nil in Hp.
  - cbn [perms_loop]. rewrite perms_step. apply elem_of_cons in Hp as [<-|Hp].
    + apply perms_loop_keeps. apply actions_loop_sets; [apply ensure_is_Some|done].
    + by apply IH.
Qed.

Lemma roles_loop_keeps l m r a : set_at m r a → set_at (roles_loop l m) r a.
Proof.
  revert m. induction l as [|[id role] rest IH]; intros m H; [done|].
  cbn [roles_loop]. apply IH. by apply perms_loop_keeps.
Qed.

Lemma roles_loop_sets l m id role perm a :
  (id, role) ∈ l → perm ∈ Permissions role → a ∈ Actions perm →
  set_at (roles_loop l m) (Resource perm) a.
Proof.
  revert m. induction l as [|[id' role'] rest IH]; intros m Hl Hp Ha.
  - by apply elem_of_nil in Hl.
  - cbn [roles_loop]. apply elem_of_cons in Hl as [[= <- <-]|Hl].
    + apply roles_loop_keeps. by apply perms_loop_sets.
    + by apply IH.
Qed.

(** What [buildPermissionMap] leaves in the lookup map: every action of
    every permission of every role, under the resource of the permission
    and whoever holds the role. *)
Lemma buildPermissionMap_sets pm id role perm a :
  roles pm !! id = Some role → perm ∈ Permissions role → a ∈ Actions perm →
  set_at (permissions (buildPermissionMap pm)) (Resource perm) a.
Proof.
  intros Hr Hp Ha. cbn [buildPermissionMap permissions].
  eapply roles_loop_sets; [|done..]. by apply elem_of_map_to_list.
Qed.

Lemma missing_role_None rs roleIDs :
  missing_role rs roleIDs = None → Forall (λ r, is_Some (rs !! r)) roleIDs.
Proof.
  induction roleIDs as [|r rest IH]; simpl; [by constructor|].
  destruct (rs !! r) eqn:Hr; [|done]. intros H. constructor; [by rewrite Hr|by apply IH].
Qed.

Lemma wildcard_built pm :
  roles pm !! "admin" = Some adminRole →
  set_at (permissions (buildPermissionMap pm)) "*" "*".
Proof.
  intros Hadmin.
  apply (buildPermissionMap_sets pm "admin" adminRole (mkPermission "*" ["*"]) "*" Hadmin);
    apply list_elem_of_here.
Qed.

Lemma inv_New : inv NewPermissionManager.
Proof.
  assert (Hadmin : roles NewPermissionManager !! "admin" = Some adminRole) by reflexivity.
  split_and!; [exact Hadmin| |done].
  unfold NewPermissionManager, initializeDefaultRoles. by apply wildcard_built.
Qed.

Lemma inv_step c pm : inv pm → inv (step c pm).
Proof.
  intros (Hadmin & Hwild & Husers). destruct c as [role|user|userID roleIDs]; cbn [step].
  - unfold AddRole. destruct (roles pm !! Role_ID role) eqn:Hr; [done|]. cbn [snd].
    assert (Hne : Role_ID role ≠ "admin") by congruence.
    assert (Hadmin' : <[Role_ID role := role]> (roles pm) !! "admin" = Some adminRole)
      by (by rewrite lookup_insert_ne).
    split_and!; [exact Hadmin'|by apply wildcard_built|].
    cbn [buildPermissionMap users roles]. intros id u Hu.
    eapply Forall_impl; [exact (Husers id u Hu)|]. intros r [x Hx]. cbn beta in *.
    destruct (decide (Role_ID role = r)) as [Heq|Hne']; [rewrite <- Heq in Hx; rewrite Hr in Hx; discriminate|].
    rewrite lookup_insert_ne by done. by eexists.
  - unfold AddUser. destruct (users pm !! ID user) eqn:Hu; [done|].
    destruct (missing_role (roles pm) (Roles user)) eqn:Hm; [done|]. cbn [snd].
    split_and!; [done..|]. cbn [users roles]. intros id u Hid.
    destruct (decide (ID user = id)) as [Heq|Hne]; [subst id|].
    + rewrite lookup_insert_eq in Hid. injection Hid as <-. by apply missing_role_None.
    + rewrite lookup_insert_ne in Hid by done. by eapply Husers.
  - unfold UpdateUserRoles. destruct (users pm !! userID) as [user|] eqn:Hu; [|done].
    destruct (missing_role (roles pm) roleIDs) eqn:Hm; [done|]. cbn [snd].
    split_and!; [done..|]. cbn [users roles]. intros id u Hid.
    destruct (decide (userID = id)) as [Heq|Hne]; [subst id|].
    + rewrite lookup_insert_eq in Hid. injection Hid as <-. by apply missing_role_None.
    + rewrite lookup_insert_ne in Hid by done. by eapply Husers.
Qed.

Lemma inv_run cs pm : inv pm → inv (run cs pm).
Proof.
  revert pm. induction cs as [|c cs IH]; intros pm H; [done|].
  cbn [run foldl]. apply IH. by apply inv_step.
Qed.

(** X29.  In every manager reached from [NewPermissionManager] by
    [AddRole], [AddUser] and [UpdateUserRoles], [CheckPermission] answers
    true for every user who is in the map and active, whatever the
    resource, the action and the roles of the user, and false for the
    others: the lookup map that is consulted first is built from all roles,
    not from the user's, and holds the wildcard of the admin role. *)
Theorem CheckPermission_ignores_roles (cs : list call) (userID resource action : string) :
  CheckPermission userID resource action (run cs NewPermissionManager)
  = match users (run cs NewPermissionManager) !! userID with
    | Some user => IsActive user
    | None => false
    end.
Proof.
  destruct (inv_run cs NewPermissionManager inv_New) as (_ & (inner & Hw & Hww) & _).
  unfold CheckPermission.
  destruct (users (run cs NewPermissionManager) !! userID) as [user|]; [|done].
  destruct (IsActive user); [|done]. cbn [negb]. rewrite Hw. unfold flag. by rewrite Hww.
Qed.

(** X30.  In every manager reached from [NewPermissionManager] by those
    calls, every role id in the Roles of a stored user is a key of the
    role map, and the admin role is the one made at the start: [AddUser]
    and [UpdateUserRoles] store only validated ids, and no call removes or
    replaces a role. *)
Theorem user_roles_exist (cs : list call) (userID roleID : string) (user : User) :
  users (run cs NewPermissionManager) !! userID = Some user →
  roleID ∈ Roles user →
  is_Some (roles (run cs NewPermissionManager) !! roleID) ∧
  roles (run cs NewPermissionManager) !! "admin" = Some adminRole.
Proof.
  intros Hu Hr.
  destruct (inv_run cs NewPermissionManager inv_New) as (Hadmin & _ & Husers).
  split; [|exact Hadmin].
  pose proof (Husers userID user Hu) as Hall.
  rewrite Forall_forall in Hall. by apply Hall.
Qed.

Lemma user_roles_exist_witness :
  is_Some (roles (run [CAddUser (mkUser "u1" "ann" "ann@example.org" ["viewer"] true)]
                      NewPermissionManager) !! "viewer").
Proof.
  refine (proj1 (user_roles_exist
                   [CAddUser (mkUser "u1" "ann" "ann@example.org" ["viewer"] true)]
                   "u1" "viewer" (mkUser "u1" "ann" "ann@example.org" ["viewer"] true) _ _)).
  - reflexivity.
  - apply list_elem_of_here.
Defined.

End PermissionMore.
